(** * Hailo Finance Mentor: the retrieval-augmented query pipeline

    A shallow embedding of the three API route handlers of the repository
    ([ask], [upload], [tts]) and of the string operations they rely on,
    followed by theorems about the response parser, the retrieval stage, the
    ingestion loop and the handling of temporary files.

    JavaScript strings are sequences of UTF-16 code units; they are modelled as
    lists of [N].  External collaborators (Whisper, the embedding model,
    Pinecone, the chat model, ElevenLabs and the PDF loader) are oracles
    gathered in an environment record: every call is logged, and either
    returns a value or raises.  Multer's outcome comes with the request, and
    shows in the file system; the text splitter, which works in memory, is
    awaited without being logged, and gives the chunks or rejects.  What the
    handlers read off the request can fail as in the code: [req.body] is
    undefined on an ask request that is not multipart, and may be [null] on a
    text-to-speech request.  Client constructors are taken to succeed, and
    the handlers are the ones the authentication middleware wraps: a request
    reaches them once its API key is accepted.

    The development then covers what surrounds the handlers: the key check
    [withApiKeyAuth], the Multer configuration of the upload route (stored
    file name, file filter), and the event handlers of the page that calls
    the three routes, first on their own and then against the routes. *)

From Stdlib Require Import String Ascii QArith.
From stdpp Require Import base list strings gmap pretty sorting.
From Equations Require Import Equations.

(** ** JavaScript strings *)

Module Js.

Definition jstring := list N.

(** A string literal of the source (the literals are all ASCII), as code
    units. *)
Definition lit (s : string) : jstring :=
  (λ a, N_of_ascii a) <$> list_ascii_of_string s.

(** [s.startsWith(pat)]. *)
Fixpoint starts_with (pat s : jstring) : bool :=
  match pat, s with
  | [], _ => true
  | p :: pat', c :: s' => (p =? c)%N && starts_with pat' s'
  | _ :: _, [] => false
  end.

(** The first occurrence of [pat] in [s]: the text before it and the text
    after it.  This is the scan behind [indexOf], [split] and a lazy
    [[\s\S]*?] followed by a literal. *)
Fixpoint cut (pat s : jstring) : option (jstring * jstring) :=
  if starts_with pat s then Some ([], drop (length pat) s)
  else match s with
       | [] => None
       | c :: s' => '(a, b) ← cut pat s'; Some (c :: a, b)
       end.

(** WhiteSpace and LineTerminator code units, as [String.prototype.trim]
    strips them. *)
Definition is_ws (c : N) : bool :=
  ((9 <=? c) && (c <=? 13) || (c =? 32) || (c =? 160) || (c =? 5760)
   || (8192 <=? c) && (c <=? 8202) || (c =? 8232) || (c =? 8233)
   || (c =? 8239) || (c =? 8287) || (c =? 12288) || (c =? 65279))%N.

Fixpoint trim_start (s : jstring) : jstring :=
  match s with
  | c :: s' => if is_ws c then trim_start s' else s
  | [] => []
  end.

Definition trim_end (s : jstring) : jstring := reverse (trim_start (reverse s)).

(** [s.trim()]. *)
Definition trim (s : jstring) : jstring := trim_end (trim_start s).

(** [parts.join(sep)] on an array of strings. *)
Fixpoint join (sep : jstring) (parts : list jstring) : jstring :=
  match parts with
  | [] => []
  | [p] => p
  | p :: rest => p ++ sep ++ join sep rest
  end.

(** A string is falsy exactly when it is empty. *)
Definition truthy (s : jstring) : bool :=
  match s with [] => false | _ :: _ => true end.

(** [a || b] on a possibly undefined string [a]. *)
Definition or_else (a : option jstring) (b : jstring) : jstring :=
  match a with
  | Some s => if truthy s then s else b
  | None => b
  end.

(** A value together with the equation that defines it, for [with] clauses. *)
Definition inspect {A} (a : A) : {b : A | a = b} := exist _ a eq_refl.

(** [s.split(sep)]: cut at every occurrence of the separator, left to right;
    with an empty separator, one part per code unit. *)
Equations? split (sep s : jstring) : list jstring by wf (length s) lt :=
  split [] s := (λ c, [c]) <$> s;
  split (p :: sep') s with inspect (cut (p :: sep') s) := {
    | exist _ (Some (a, b)) _ := a :: split (p :: sep') b;
    | exist _ None _ := [s] }.
Proof.
  clear split. revert a b e. set (sep := p :: sep').
  induction s as [|c s IH]; intros a b; simpl; [discriminate|].
  destruct (_ && _).
  - intros [= <- <-]. rewrite length_drop. lia.
  - destruct (cut sep s) as [[a' b']|]; simpl; [|discriminate].
    intros [= <- <-]. specialize (IH _ _ eq_refl). lia.
Qed.

End Js.

Import Js.

(** ** The response parser (ask handler, "Extract scratchpad and final answer") *)

Module Parser.

Definition marker : jstring := lit "###".
Definition tag_open : jstring := lit "<scratchpad>".
Definition tag_close : jstring := lit "</scratchpad>".
Definition no_scratchpad : jstring := lit "No scratchpad content found.".

(** [/<scratchpad>([\s\S]*?)<\/scratchpad>/] tried at the start of [s]: the
    capture and the text after the match. *)
Definition match_here (s : jstring) : option (jstring * jstring) :=
  if starts_with tag_open s then cut tag_close (drop (length tag_open) s)
  else None.

(** The regular expression executed on [s]: the leftmost position at which it
    matches, as (text before, capture, text after). *)
Fixpoint regex_exec (s : jstring) : option (jstring * jstring * jstring) :=
  match match_here s with
  | Some (cap, rest) => Some ([], cap, rest)
  | None =>
      match s with
      | [] => None
      | c :: s' => '(pre, cap, rest) ← regex_exec s'; Some (c :: pre, cap, rest)
      end
  end.

(** [responseContent.match(re)?.[0]]. *)
Definition match0 (s : jstring) : option jstring :=
  '(_, cap, _) ← regex_exec s; Some (tag_open ++ cap ++ tag_close).

(** [responseContent.replace(re, '')]. *)
Definition strip_block (s : jstring) : jstring :=
  match regex_exec s with
  | Some (pre, _, rest) => pre ++ rest
  | None => s
  end.

Record Parsed := { answer : jstring; scratchpad : jstring }.

Definition parse (responseContent : jstring) : Parsed :=
  let scratchpadMatch := match0 responseContent in
  let scratchpad := default no_scratchpad scratchpadMatch in
  let finalAnswer :=
    or_else (trim <$> split marker responseContent !! 1)
            (trim (strip_block responseContent)) in
  {| answer := finalAnswer; scratchpad := scratchpad |}.

End Parser.

Import Parser.

(** ** Requests, responses and the handler monad *)

Module Http.

(** A thrown JavaScript [Error]: [error.code] and [error.message]. *)
Record JsError := { code : option jstring; message : jstring }.

(** [new Error(msg)]. *)
Definition Error (msg : jstring) : JsError := {| code := None; message := msg |}.

(** What awaiting an external call gives: a value, or a rejection. *)
Inductive Result (A : Type) :=
| Ok (a : A)
| Raise (e : JsError).
Arguments Ok {A} a.
Arguments Raise {A} e.

Inductive JVal :=
| JStr (s : jstring)
| JNum (n : nat).

(** An object literal passed to [res.json], fields in source order. *)
Definition Json := list (string * JVal).

Inductive Body :=
| BJson (o : Json)
| BText (s : jstring)
| BBytes (b : list N).

Record Response := { status : nat; body : Body }.

(** The value of a field of a JSON body, if the response has one. *)
Fixpoint json_get (k : string) (o : Json) : option JVal :=
  match o with
  | [] => None
  | (k', v) :: o' => if String.eqb k k' then Some v else json_get k o'
  end.

Definition field (k : string) (r : Response) : option JVal :=
  match body r with
  | BJson o => json_get k o
  | _ => None
  end.

Definition Embedding := list Q.

(** A record of the Vector Index, as the upload handler builds it. *)
Record Metadata := { text : jstring; source : jstring; pageNumber : nat }.
Record VectorRecord := { id : jstring; values : Embedding; metadata : Metadata }.

(** A scored match of an index query; [m_text] is [match.metadata?.text]. *)
Record Match := { m_id : jstring; m_score : Q; m_text : option jstring }.
Record QueryResponse := { matches : option (list Match) }.

(** A LangChain document: [pageContent] and [metadata.loc?.pageNumber]. *)
Record Doc := { pageContent : jstring; loc_pageNumber : option nat }.

(** [req.file] as Multer leaves it. *)
Record UploadedFile := { path : jstring; originalname : jstring; content : list N }.

(** External calls, in the order they are issued. *)
Inductive Event :=
| Transcribe (file : jstring)
| EmbedQuery (input : jstring)
| IndexQuery (vector : Embedding) (topK : nat)
| ChatCompletion (system user : jstring)
| LoadPdf (file : jstring)
| IndexUpsert (batch : list VectorRecord)
| TextToSpeech (textInput : jstring).

(** What a running handler can observe and change: the local file system, the
    Vector Index (the records written so far), the external calls issued, the
    response sent, and the handler's [let] variable holding the path of the
    file to clean up ([audioFilePath], [filePath], [tempFilePath]). *)
Record World := {
  files : gmap jstring (list N);
  index : list VectorRecord;
  calls : list Event;
  sent : option Response;
  path_var : option jstring }.

Inductive Outcome (A : Type) :=
| Normal (a : A)
| Return
| Throw (e : JsError).
Arguments Normal {A} a.
Arguments Return {A}.
Arguments Throw {A} e.

(** A piece of handler code: it completes normally with a value, executes
    [return], or throws. *)
Definition M (A : Type) : Type := World → Outcome A * World.

Definition ret {A} (a : A) : M A := λ w, (Normal a, w).

Definition bind {A B} (m : M A) (f : A → M B) : M B := λ w,
  match m w with
  | (Normal a, w') => f a w'
  | (Return, w') => (Return, w')
  | (Throw e, w') => (Throw e, w')
  end.

Definition return_ {A} : M A := λ w, (Return, w).
Definition throw {A} (e : JsError) : M A := λ w, (Throw e, w).

(** [try { body } catch (e) { handler }]: a [return] inside [body] leaves the
    function without running [handler]. *)
Definition try_catch {A} (body : M A) (handler : JsError → M A) : M A := λ w,
  match body w with
  | (Throw e, w') => handler e w'
  | r => r
  end.

Definition set_files (f : gmap jstring (list N)) (w : World) : World :=
  {| files := f; index := index w; calls := calls w; sent := sent w;
     path_var := path_var w |}.
Definition set_index (i : list VectorRecord) (w : World) : World :=
  {| files := files w; index := i; calls := calls w; sent := sent w;
     path_var := path_var w |}.
Definition set_calls (c : list Event) (w : World) : World :=
  {| files := files w; index := index w; calls := c; sent := sent w;
     path_var := path_var w |}.
Definition set_sent (r : option Response) (w : World) : World :=
  {| files := files w; index := index w; calls := calls w; sent := r;
     path_var := path_var w |}.
Definition set_path_var (p : option jstring) (w : World) : World :=
  {| files := files w; index := index w; calls := calls w; sent := sent w;
     path_var := p |}.

(** An awaited external call: logged, then its result or its rejection. *)
Definition call {A} (ev : Event) (r : Result A) : M A := λ w,
  (match r with Ok a => Normal a | Raise e => Throw e end,
   set_calls (calls w ++ [ev]) w).

(** An awaited computation of the process itself: its result or its
    rejection, with nothing to log. *)
Definition settle {A} (r : Result A) : M A := λ w,
  (match r with Ok a => Normal a | Raise e => Throw e end, w).

(** [res.status(s).json(o)], [res.status(s).end(t)], [res.status(s).send(b)]. *)
Definition send (s : nat) (b : Body) : M unit := λ w,
  (Normal tt, set_sent (Some {| status := s; body := b |}) w).
Definition json (s : nat) (o : Json) : M unit := send s (BJson o).

Definition assign (p : option jstring) : M unit := λ w,
  (Normal tt, set_path_var p w).
Definition read_var : M (option jstring) := λ w, (Normal (path_var w), w).

Definition existsSync (p : jstring) : M bool := λ w,
  (Normal (bool_decide (is_Some (files w !! p))), w).
Definition unlinkSync (p : jstring) : M unit := λ w,
  (Normal tt, set_files (delete p (files w)) w).

(** [await runMiddleware(req, res, upload.single(...))]: Multer stores the
    uploaded file on disk and sets [req.file], or rejects. *)
Definition runMiddleware (upload : Result (option UploadedFile))
  : M (option UploadedFile) := λ w,
  match upload with
  | Ok (Some f) => (Normal (Some f), set_files (<[path f := content f]> (files w)) w)
  | Ok None => (Normal None, w)
  | Raise e => (Throw e, w)
  end.

(** [!v] for an environment variable. *)
Definition unset (v : option jstring) : bool :=
  match v with Some s => negb (truthy s) | None => true end.

Definition start : World :=
  {| files := ∅; index := []; calls := []; sent := None; path_var := None |}.

End Http.

Import Http.

Declare Scope js_scope.
Delimit Scope js_scope with js.
Notation "'let*' x ':=' m 'in' k" := (bind m (λ x, k))
  (at level 10, x binder, m at level 100, k at level 200) : js_scope.
Notation "m '>>' k" := (bind m (λ _, k))
  (at level 100, k at level 200, right associativity) : js_scope.
Open Scope js_scope.

Definition nl : jstring := [10%N].
Definition POST : jstring := lit "POST".
Definition LIMIT_FILE_SIZE : jstring := lit "LIMIT_FILE_SIZE".

Definition method_not_allowed (method : jstring) : M unit :=
  send 405 (BText (lit "Method " ++ method ++ lit " Not Allowed")) >> return_.

(** [if (p && fs.existsSync(p)) fs.unlinkSync(p)] on the path variable;
    [reset] says whether the variable is then set to [undefined]. *)
Definition cleanup (reset : bool) : M unit :=
  let* p := read_var in
  match p with
  | Some f =>
      if truthy f
      then
        let* there := existsSync f in
        if there : bool
        then unlinkSync f >> (if reset then assign None else ret tt)
        else ret tt
      else ret tt
  | None => ret tt
  end.

(** ** The ask handler: transcription, retrieval, generation, parsing *)

Module Ask.

(** What Multer leaves on the request once it has parsed a multipart body:
    [req.file] and, in [req.body], the text field [question]. *)
Record Form := { file : option UploadedFile; asked : option jstring }.

(** What [upload.single('audio')] resolves with.  A request that is not
    multipart is passed on untouched ([Bare]): [req.file] stays undefined and
    so does [req.body], the route having switched the body parser off;
    [thrown] is the message of the [TypeError] the engine raises when a
    property of that [req.body] is read.  Otherwise Multer has parsed the
    form. *)
Inductive Parts :=
| Bare (thrown : jstring)
| Parsed (form : Form).

(** The request as the handler reads it: [multer] is the outcome of the
    middleware, its result or its rejection. *)
Record Request := {
  method : jstring;
  multer : Result Parts }.

(** [req.file] after the middleware, or the middleware's error. *)
Definition upload (req : Request) : Result (option UploadedFile) :=
  match multer req with
  | Ok (Parsed form) => Ok (file form)
  | Ok (Bare _) => Ok None
  | Raise e => Raise e
  end.

(** [req.body.question], where there is a body. *)
Definition question (req : Request) : option jstring :=
  match multer req with
  | Ok (Parsed form) => asked form
  | _ => None
  end.

(** [const question = req.body.question]. *)
Definition read_question (req : Request) : M (option jstring) :=
  match multer req with
  | Ok (Bare thrown) => throw (Error thrown)
  | _ => ret (question req)
  end.

(** The collaborators the handler awaits. *)

Record Env := {
  PINECONE_API_KEY : option jstring;
  PINECONE_ENVIRONMENT : option jstring;
  OPENAI_API_KEY : option jstring;
  transcribe : jstring → Result jstring;            (* Whisper, on the file *)
  embedQuery : jstring → Result Embedding;
  query : Embedding → nat → Result QueryResponse;   (* Pinecone index.query *)
  chat : jstring → jstring → Result (option jstring) }.
                      (* completion.choices[0]?.message?.content *)

Definition separator : jstring := nl ++ nl ++ lit "---" ++ nl ++ nl.
Definition no_context : jstring := lit "No relevant context found.".
Definition context_error : jstring :=
  lit "Error retrieving context from knowledge base.".

(** [.filter(Boolean)] on the texts of the matches. *)
Definition boolean (t : option jstring) : bool :=
  match t with Some s => truthy s | None => false end.

(** [matches?.map(m => m.metadata?.text).filter(Boolean).join(sep) || '...']. *)
Definition format_context (r : QueryResponse) : jstring :=
  or_else
    ((λ ms, join separator (default [] <$> List.filter boolean (m_text <$> ms)))
       <$> matches r)
    no_context.

(** Step 2, "Retrieve relevant context from Pinecone". *)
Definition retrieve (env : Env) (queryText : jstring) : M jstring :=
  try_catch
    (let* queryEmbedding := call (EmbedQuery queryText) (embedQuery env queryText) in
     let* queryResponse :=
       call (IndexQuery queryEmbedding 5) (query env queryEmbedding 5) in
     ret (format_context queryResponse))
    (λ pineconeError, ret context_error).

Definition systemPrompt (context : jstring) : jstring :=
  lit "You are a finance professor." ++ nl
  ++ lit "Think step-by-step in <scratchpad>...</scratchpad> then after ### give the final answer."
  ++ nl ++ lit "Use the following context to answer the question:" ++ nl ++ nl
  ++ lit "Context:" ++ nl ++ context.

(** Step 3, "Call GPT-4o with system prompt, context, and query". *)
Definition generate (env : Env) (context queryText transcription : jstring)
  : M unit :=
  try_catch
    (let* responseContent :=
       call (ChatCompletion (systemPrompt context) queryText)
            (chat env (systemPrompt context) queryText) in
     if negb (boolean responseContent)
     then throw (Error (lit "No response content from GPT-4o"))
     else
       let parsed := parse (default [] responseContent) in
       json 200 [("answer", JStr (answer parsed));
                 ("scratchpad", JStr (scratchpad parsed));
                 ("transcription", JStr transcription)])
    (λ gptError,
       json 500 [("error", JStr (lit "Failed to get answer from AI model."));
                 ("details", JStr (message gptError))] >> return_).

(** Step 1, "Transcribe audio using Whisper API". *)
Definition transcribe_audio (env : Env) (audioFilePath : jstring) : M jstring :=
  try_catch
    (call (Transcribe audioFilePath) (transcribe env audioFilePath))
    (λ transcriptionError,
       json 500 [("error", JStr (lit "Failed to transcribe audio."));
                 ("details", JStr (message transcriptionError))] >> return_).

Definition askHandler (req : Request) (env : Env) : M unit :=
  if negb (bool_decide (method req = POST)) then method_not_allowed (method req)
  else
    assign None >>
    try_catch
      (let* audioFile := runMiddleware (upload req) in
       let* question := read_question req in
       match audioFile with
       | None => json 400 [("error", JStr (lit "No audio file uploaded."))] >> return_
       | Some audioFile =>
           assign (Some (path audioFile)) >>
           if unset (PINECONE_API_KEY env) || unset (PINECONE_ENVIRONMENT env)
              || unset (OPENAI_API_KEY env)
           then
             json 500 [("error",
                        JStr (lit "Server configuration error: Missing API keys."))]
             >> return_
           else
             let* transcription := transcribe_audio env (path audioFile) in
             cleanup true >>
             let queryText := or_else question transcription in
             if negb (truthy queryText)
             then
               json 400 [("error", JStr (lit
                 "No query provided (either question text or audio transcription)."))]
               >> return_
             else
               let* context := retrieve env queryText in
               generate env context queryText transcription
       end)
      (λ error,
         cleanup false >>
         if bool_decide (code error = Some LIMIT_FILE_SIZE)
         then json 400 [("error", JStr (lit "Audio file size limit exceeded."))]
              >> return_
         else json 500 [("error", JStr (lit "Failed to process the request."));
                        ("details",
                         JStr (or_else (Some (message error)) (lit "Unknown error")))]).

(** The handler run on a fresh request: the world it leaves behind. *)
Definition run (req : Request) (env : Env) (w : World) : World :=
  (askHandler req env w).2.

End Ask.

(** ** The upload handler: load, split, embed, upsert *)

Module Upload.

Record Request := {
  method : jstring;
  upload : Result (option UploadedFile) }.   (* Multer on field 'file' *)

Record Env := {
  PINECONE_API_KEY : option jstring;
  PINECONE_ENVIRONMENT : option jstring;
  OPENAI_API_KEY : option jstring;
  load : jstring → Result (option (list Doc));   (* PDFLoader(filePath).load() *)
  textSplitter : list Doc → Result (list Doc);
                      (* await textSplitter.splitDocuments(docs), in memory *)
  embedQuery : nat → jstring → Result Embedding; (* chunk number, chunk text *)
  upsert : nat → list VectorRecord → Result () }.  (* batch offset, batch *)

Definition batchSize : nat := 100.

(** [vectors.slice(i, j)]. *)
Definition slice {A} (i j : nat) (l : list A) : list A := take (j - i) (drop i l).

(** [`${fileName}-chunk-${i}`]. *)
Definition chunk_id (fileName : jstring) (i : nat) : jstring :=
  fileName ++ lit "-chunk-" ++ lit (pretty i).

Definition vector_of (fileName : jstring) (i : nat) (chunk : Doc)
  (embedding : Embedding) : VectorRecord :=
  {| id := chunk_id fileName i;
     values := embedding;
     metadata := {| text := pageContent chunk;
                    source := fileName;
                    pageNumber := default 0 (loc_pageNumber chunk) |} |}.

(** The embedding loop: [rest] is what is left of [chunks] from position [i],
    [vectors] what has been pushed so far. *)
Fixpoint embed_loop (env : Env) (fileName : jstring) (rest : list Doc) (i : nat)
  (vectors : list VectorRecord) : M (list VectorRecord) :=
  match rest with
  | [] => ret vectors
  | chunk :: rest' =>
      let* embedding :=
        call (EmbedQuery (pageContent chunk)) (embedQuery env i (pageContent chunk)) in
      embed_loop env fileName rest' (S i)
        (vectors ++ [vector_of fileName i chunk embedding])
  end.

(** [await index.upsert(batch)]: a batch the index accepts is stored. *)
Definition index_upsert (env : Env) (i : nat) (batch : list VectorRecord) : M () :=
  let* _ := call (IndexUpsert batch) (upsert env i batch) in
  λ w, (Normal (), set_index (index w ++ batch) w).

(** [for (let i = 0; i < vectors.length; i += batchSize)]. *)
Equations? upsert_loop (env : Env) (vectors : list VectorRecord) (i : nat)
  : M () by wf (length vectors - i) lt :=
  upsert_loop env vectors i with decide (i < length vectors) := {
    | left _ := index_upsert env i (slice i (i + batchSize) vectors)
                >> upsert_loop env vectors (i + batchSize);
    | right _ := ret () }.
Proof. unfold batchSize. lia. Qed.

(** The chunks [textSplitter.splitDocuments(docs)] resolves to (none when it
    rejects). *)
Definition splitDocuments (env : Env) (docs : list Doc) : list Doc :=
  match textSplitter env docs with
  | Ok chunks => chunks
  | Raise _ => []
  end.

Definition embed_all (env : Env) (fileName : jstring) (chunks : list Doc)
  : M (list VectorRecord) :=
  try_catch
    (embed_loop env fileName chunks 0 [])
    (λ embeddingError,
       json 500 [("error", JStr (lit "Failed to generate embeddings."));
                 ("details", JStr (message embeddingError))] >> return_).

Definition upsert_all (env : Env) (vectors : list VectorRecord) : M () :=
  if bool_decide (0 < length vectors)
  then
    try_catch
      (upsert_loop env vectors 0)
      (λ pineconeError,
         json 500 [("error", JStr (lit "Failed to save embeddings to database."));
                   ("details", JStr (message pineconeError))] >> return_)
  else ret ().

Definition load_pdf (env : Env) (filePath fileName : jstring)
  : M (option (list Doc)) :=
  try_catch
    (call (LoadPdf filePath) (load env filePath))
    (λ pdfLoadError,
       json 500 [("error", JStr (lit "Could not process PDF: " ++ fileName));
                 ("details", JStr (message pdfLoadError))] >> return_).

(** "Generate embeddings and prepare for Pinecone upsert", "Upsert vectors to
    Pinecone", and the final response. *)
Definition embed_and_upsert (env : Env) (fileName : jstring) (chunks : list Doc)
  : M unit :=
  let* vectors := embed_all env fileName chunks in
  upsert_all env vectors >>
  json 200 [("message",
             JStr (lit "File " ++ fileName
                   ++ lit " uploaded and processed successfully."));
            ("chunksEmbedded", JNum (length vectors))].

(** [error.message.includes('Only PDF files are allowed')]. *)
Definition includes (pat s : jstring) : bool :=
  bool_decide (is_Some (cut pat s)).

Definition uploadHandler (req : Request) (env : Env) : M unit :=
  if negb (bool_decide (method req = POST)) then method_not_allowed (method req)
  else
    assign None >>
    try_catch
      (let* uploadedFile := runMiddleware (upload req) in
       match uploadedFile with
       | None => json 400 [("error", JStr (lit "No file uploaded."))] >> return_
       | Some uploadedFile =>
           assign (Some (path uploadedFile)) >>
           let fileName := originalname uploadedFile in
           if unset (PINECONE_API_KEY env) || unset (PINECONE_ENVIRONMENT env)
              || unset (OPENAI_API_KEY env)
           then
             json 500 [("error",
                        JStr (lit "Server configuration error: Missing API keys."))]
             >> return_
           else
             let* docs := load_pdf env (path uploadedFile) fileName in
             match docs with
             | None | Some [] =>
                 json 500 [("error",
                            JStr (lit "Could not extract content from PDF: " ++ fileName))]
                 >> return_
             | Some docs =>
                 let* chunks := settle (textSplitter env docs) in
                 embed_and_upsert env fileName chunks
             end
       end)
      (λ error,
         cleanup false >>
         if bool_decide (code error = Some LIMIT_FILE_SIZE)
         then json 400 [("error", JStr (lit "File size limit exceeded."))] >> return_
         else if includes (lit "Only PDF files are allowed") (message error)
         then json 400 [("error", JStr (lit "Invalid file type. Only PDFs are allowed."))]
              >> return_
         else json 500 [("error", JStr (lit "Failed to process the uploaded file."));
                        ("details",
                         JStr (or_else (Some (message error)) (lit "Unknown error")))]).

Definition run (req : Request) (env : Env) (w : World) : World :=
  (uploadHandler req env w).2.

End Upload.

(** ** The text-to-speech handler *)

Module Tts.

(** [req.body] as the body parser leaves it: [null] (a JSON body that reads
    [null]; [thrown] is the message of the [TypeError] the engine raises when
    it is destructured), or any other value, with its property [text] if it
    has one. *)
Inductive ReqBody :=
| Null (thrown : jstring)
| Fields (text : option JVal).

Record Request := {
  method : jstring;
  req_body : ReqBody }.

(** [req.body.text], where there is a body. *)
Definition text (req : Request) : option JVal :=
  match req_body req with
  | Fields t => t
  | Null _ => None
  end.

(** [const { text } = req.body]. *)
Definition read_text (req : Request) : M (option JVal) :=
  match req_body req with
  | Fields t => ret t
  | Null thrown => throw (Error thrown)
  end.

(** [fs.writeFileSync]: the file is written, or the call throws, possibly
    leaving a partly written file behind. *)
Inductive WriteOutcome :=
| Written
| WriteFailed (e : JsError) (partial : option (list N)).

Record Env := {
  ELEVENLABS_API_KEY : option jstring;
  tmpdir : jstring;                          (* os.tmpdir() *)
  now : nat;                                 (* Date.now() *)
  textToSpeech : jstring → Result (list N);  (* ElevenLabs, then arrayBuffer() *)
  writeFile : jstring → list N → WriteOutcome }.

Definition writeFileSync (env : Env) (p : jstring) (data : list N) : M unit := λ w,
  match writeFile env p data with
  | Written => (Normal tt, set_files (<[p := data]> (files w)) w)
  | WriteFailed e (Some part) => (Throw e, set_files (<[p := part]> (files w)) w)
  | WriteFailed e None => (Throw e, w)
  end.

Definition readFileSync (p : jstring) : M (list N) := λ w,
  match files w !! p with
  | Some data => (Normal data, w)
  | None => (Throw (Error (lit "ENOENT: no such file or directory")), w)
  end.

(** [path.join(tempDir, `tts-${Date.now()}.mp3`)]. *)
Definition temp_path (env : Env) : jstring :=
  tmpdir env ++ lit "/" ++ lit "tts-" ++ lit (pretty (now env)) ++ lit ".mp3".

Definition bad_text : M unit :=
  json 400 [("error", JStr (lit "Text parameter is required and must be a string."))]
  >> return_.

Definition synthesize (env : Env) (text tempFilePath : jstring) : M unit :=
  try_catch
    (let* audio := call (TextToSpeech text) (textToSpeech env text) in
     writeFileSync env tempFilePath audio >>
     let* audioBuffer := readFileSync tempFilePath in
     send 200 (BBytes audioBuffer) >>
     cleanup true)
    (λ ttsError,
       cleanup false >>
       json 500 [("error", JStr (lit "Failed to generate speech from text."));
                 ("details",
                  JStr (or_else (Some (message ttsError)) (lit "Unknown TTS error")))]
       >> return_).

Definition ttsHandler (req : Request) (env : Env) : M unit :=
  if negb (bool_decide (method req = POST)) then method_not_allowed (method req)
  else
    assign None >>
    try_catch
      (let* text := read_text req in
       match text with
       | Some (JStr text) =>
           if negb (truthy text) then bad_text
           else if unset (ELEVENLABS_API_KEY env)
           then
             json 500 [("error", JStr (lit
               "Server configuration error: Missing ElevenLabs API key."))]
             >> return_
           else
             assign (Some (temp_path env)) >>
             synthesize env text (temp_path env)
       | _ => bad_text
       end)
      (λ error,
         cleanup false >>
         json 500 [("error", JStr (lit "Failed to process the request."));
                   ("details",
                    JStr (or_else (Some (message error)) (lit "Unknown error")))]).

Definition run (req : Request) (env : Env) (w : World) : World :=
  (ttsHandler req env w).2.

End Tts.

(** ** The chunker contract *)

Module Chunker.

(** Modelled from the spec: the chunker [chunk(text, size, overlap)].  The
    repository delegates chunking to the library class
    [RecursiveCharacterTextSplitter] (upload handler, [chunkSize: 1000],
    [chunkOverlap: 200]), whose code is not part of the sources; the
    definition below follows the contract instead: consecutive windows of
    [size] characters, each starting [size - overlap] characters after the
    previous one, until the remaining text is exhausted, the last one
    possibly shorter; [InvalidConfig] when [overlap >= size] or [size <= 0]. *)
Equations? windows (size step : nat) (text : jstring) : list jstring
  by wf (length text) lt :=
  windows size step text with decide (size < length text ∧ 0 < step) := {
    | left _ := take size text :: windows size step (drop step text);
    | right _ := [text] }.
Proof. rewrite length_drop. lia. Qed.

(** Modelled from the spec: what [chunk] gives, the chunks in order or the
    [InvalidConfig] failure. *)
Inductive ChunkResult :=
| InvalidConfig
| Chunks (l : list jstring).

(** Modelled from the spec: [chunk(text, size, overlap)], rejecting
    [overlap >= size] and [size <= 0]; an empty text has no chunk. *)
Definition chunk (text : jstring) (size overlap : nat) : ChunkResult :=
  if bool_decide (size ≤ overlap ∨ size = 0) then InvalidConfig
  else if bool_decide (text = []) then Chunks []
  else Chunks (windows size (size - overlap) text).

(** The least [n] with [a <= n * b]. *)
Definition ceil_div (a b : nat) : nat := (a + (b - 1)) / b.

End Chunker.


(** ** Vocabulary of the statements *)

Module Spec.

(** [pat] occurs somewhere in [s]. *)
Definition contains (pat s : jstring) : Prop := ∃ a b, s = a ++ pat ++ b.

(** [a] and [b] surround the first occurrence of [pat] in [s]. *)
Definition first_occurrence (pat s a b : jstring) : Prop :=
  s = a ++ pat ++ b ∧ ∀ i, i < length a → ¬ pat `prefix_of` drop i s.

(** [s] has a reasoning block: an opening tag with a closing tag after it. *)
Definition has_block (s : jstring) : Prop :=
  ∃ a body b, s = a ++ tag_open ++ body ++ tag_close ++ b.

(** The block the regular expression selects: it opens at the first opening
    tag and closes at the first closing tag after it. *)
Definition first_block (s pre body post : jstring) : Prop :=
  first_occurrence tag_open s pre (body ++ tag_close ++ post)
  ∧ first_occurrence tag_close (body ++ tag_close ++ post) body post.

(** Only white space (or nothing at all). *)
Definition blank (s : jstring) : Prop := Forall (λ c, is_ws c = true) s.

(** [seg] is what follows a first marker, [post] being all the text after it:
    [post] up to the next marker, or the whole of [post] if it has none. *)
Definition answer_segment (post seg : jstring) : Prop :=
  (¬ contains marker post ∧ seg = post)
  ∨ (∃ rest, first_occurrence marker post seg rest).

(** The three keys the ask and upload handlers require are set. *)
Definition ask_configured (env : Ask.Env) : Prop :=
  unset (Ask.PINECONE_API_KEY env) = false
  ∧ unset (Ask.PINECONE_ENVIRONMENT env) = false
  ∧ unset (Ask.OPENAI_API_KEY env) = false.

Definition upload_configured (env : Upload.Env) : Prop :=
  unset (Upload.PINECONE_API_KEY env) = false
  ∧ unset (Upload.PINECONE_ENVIRONMENT env) = false
  ∧ unset (Upload.OPENAI_API_KEY env) = false.

(** The context the retrieval stage hands to the prompt, and the external
    calls it issues, for a given query text. *)
Definition context_of (env : Ask.Env) (q : jstring) : jstring :=
  match (Ask.retrieve env q start).1 with
  | Normal c => c
  | _ => []
  end.

Definition retrieval_calls (env : Ask.Env) (q : jstring) : list Event :=
  calls (Ask.retrieve env q start).2.

(** The matches that contribute a text to the context, and their texts. *)
Definition with_text (m : Match) : bool := Ask.boolean (m_text m).
Definition kept (ms : list Match) : list Match := List.filter with_text ms.
Definition texts (ms : list Match) : list jstring := (λ m, default [] (m_text m)) <$> ms.

(** Matches listed by descending score. *)
Definition descending (ms : list Match) : Prop :=
  StronglySorted (λ m1 m2, (m_score m2 <= m_score m1)%Q) ms.

(** The body of every error response: a fixed message and the message of the
    error that was caught. *)
Definition error_response (msg : jstring) (e : JsError) : Response :=
  {| status := 500;
     body := BJson [("error", JStr msg); ("details", JStr (message e))] |}.

(** The world after Multer has stored the uploaded file and the handler has
    noted its path. *)
Definition stored (f : UploadedFile) (w : World) : World :=
  set_path_var (Some (path f)) (set_files (<[path f := content f]> (files w)) w).

(** The world after the transcription: the audio file has been deleted and
    the path variable reset (nothing happens for an empty path). *)
Definition released (f : UploadedFile) (w : World) : World :=
  if truthy (path f)
  then set_path_var None
         (set_files (delete (path f) (<[path f := content f]> (files w))) w)
  else stored f w.

(** A request that gets as far as the embedding loop of the upload handler:
    the file is stored, the keys are set, the PDF has pages and the text
    splitter resolves. *)
Definition ingesting (req : Upload.Request) (env : Upload.Env)
  (f : UploadedFile) (docs : list Doc) : Prop :=
  Upload.method req = POST ∧ Upload.upload req = Ok (Some f)
  ∧ upload_configured env
  ∧ Upload.load env (path f) = Ok (Some docs) ∧ docs ≠ []
  ∧ Upload.textSplitter env docs = Ok (Upload.splitDocuments env docs).

(** Every chunk's embedding call succeeds; some chunk's embedding call fails. *)
Definition all_embedded (env : Upload.Env) (i : nat) (chunks : list Doc) : Prop :=
  ∀ j chunk, chunks !! j = Some chunk →
    ∃ v, Upload.embedQuery env (i + j) (pageContent chunk) = Ok v.

Definition some_embedding_fails (env : Upload.Env) (i : nat) (chunks : list Doc)
  : Prop :=
  ∃ j chunk e, chunks !! j = Some chunk
    ∧ Upload.embedQuery env (i + j) (pageContent chunk) = Raise e.

(** The records the embedding loop builds for the chunks from position [i]
    on, when every embedding call succeeds. *)
Definition embedding_at (env : Upload.Env) (i : nat) (chunk : Doc) : Embedding :=
  match Upload.embedQuery env i (pageContent chunk) with
  | Ok v => v
  | Raise _ => []
  end.

Fixpoint built (env : Upload.Env) (fileName : jstring) (i : nat)
  (chunks : list Doc) : list VectorRecord :=
  match chunks with
  | [] => []
  | chunk :: rest =>
      Upload.vector_of fileName i chunk (embedding_at env i chunk)
      :: built env fileName (S i) rest
  end.

Definition embed_calls (chunks : list Doc) : list Event :=
  (λ chunk, EmbedQuery (pageContent chunk)) <$> chunks.

(** The upsert of batch number [k] (from 0) of [vs] fails with [e], those
    before it having succeeded. *)
Definition upsert_fails_at (env : Upload.Env) (vs : list VectorRecord)
  (i k : nat) (e : JsError) : Prop :=
  i + k * Upload.batchSize < length vs
  ∧ (∀ j, j < k →
       Upload.upsert env (i + j * Upload.batchSize)
         (Upload.slice (i + j * Upload.batchSize)
            (i + j * Upload.batchSize + Upload.batchSize) vs) = Ok ())
  ∧ Upload.upsert env (i + k * Upload.batchSize)
      (Upload.slice (i + k * Upload.batchSize)
         (i + k * Upload.batchSize + Upload.batchSize) vs) = Raise e.

(** The response to a successful ingestion. *)
Definition ingested_response (fileName : jstring) (n : nat) : Response :=
  {| status := 200;
     body := BJson [("message",
                     JStr (lit "File " ++ fileName
                           ++ lit " uploaded and processed successfully."));
                    ("chunksEmbedded", JNum n)] |}.

Definition is_upsert (ev : Event) : bool :=
  match ev with IndexUpsert _ => true | _ => false end.

End Spec.

Import Spec.

(** ** Scenarios the statements are tried on *)

Module Scenario.

Definition key : option jstring := Some (lit "secret").

Definition recording : UploadedFile :=
  {| path := lit "/tmp/3f2a9c"; originalname := lit "recording.webm";
     content := [26; 69; 223; 163]%N |}.

Definition npv_match : Match :=
  {| m_id := lit "finance.pdf-chunk-2"; m_score := 0.9;
     m_text := Some (lit "NPV discounts future cash flows.") |}.

Definition bare_match : Match :=
  {| m_id := lit "legacy-17"; m_score := 0.8; m_text := None |}.

(** An audio request with every collaborator up. *)
Definition audio_request : Ask.Request :=
  {| Ask.method := POST;
     Ask.multer :=
       Ok (Ask.Parsed {| Ask.file := Some recording; Ask.asked := None |}) |}.

Definition healthy : Ask.Env :=
  {| Ask.PINECONE_API_KEY := key;
     Ask.PINECONE_ENVIRONMENT := key;
     Ask.OPENAI_API_KEY := key;
     Ask.transcribe := λ _, Ok (lit "what is npv");
     Ask.embedQuery := λ _, Ok [1; 0]%Q;
     Ask.query := λ _ _, Ok {| matches := Some [npv_match] |};
     Ask.chat := λ _ _,
       Ok (Some (lit "<scratchpad>think</scratchpad>###  final ")) |}.

(** The chat model rejects the call. *)
Definition generation_down : Ask.Env :=
  {| Ask.PINECONE_API_KEY := key;
     Ask.PINECONE_ENVIRONMENT := key;
     Ask.OPENAI_API_KEY := key;
     Ask.transcribe := Ask.transcribe healthy;
     Ask.embedQuery := Ask.embedQuery healthy;
     Ask.query := Ask.query healthy;
     Ask.chat := λ _ _, Raise (Error (lit "429 rate limit")) |}.

(** Whisper rejects the call. *)
Definition transcription_down : Ask.Env :=
  {| Ask.PINECONE_API_KEY := key;
     Ask.PINECONE_ENVIRONMENT := key;
     Ask.OPENAI_API_KEY := key;
     Ask.transcribe := λ _, Raise (Error (lit "503 unavailable"));
     Ask.embedQuery := Ask.embedQuery healthy;
     Ask.query := Ask.query healthy;
     Ask.chat := Ask.chat healthy |}.

(** The index answers with one match that carries no text. *)
Definition textless_index : Ask.Env :=
  {| Ask.PINECONE_API_KEY := key;
     Ask.PINECONE_ENVIRONMENT := key;
     Ask.OPENAI_API_KEY := key;
     Ask.transcribe := Ask.transcribe healthy;
     Ask.embedQuery := Ask.embedQuery healthy;
     Ask.query := λ _ _, Ok {| matches := Some [bare_match] |};
     Ask.chat := Ask.chat healthy |}.


Definition paper : UploadedFile :=
  {| path := lit "docs/1700000000000-finance.pdf"; originalname := lit "finance.pdf";
     content := [37; 80; 68; 70]%N |}.

Definition page : Doc :=
  {| pageContent := lit "Net present value."; loc_pageNumber := Some 1 |}.

Definition upload_request : Upload.Request :=
  {| Upload.method := POST; Upload.upload := Ok (Some paper) |}.

(** 150 chunks, and an index that rejects the second batch. *)
Definition second_batch_rejected : Upload.Env :=
  {| Upload.PINECONE_API_KEY := key;
     Upload.PINECONE_ENVIRONMENT := key;
     Upload.OPENAI_API_KEY := key;
     Upload.load := λ _, Ok (Some [page]);
     Upload.textSplitter := λ _, Ok (replicate 150 page);
     Upload.embedQuery := λ _ _, Ok [1; 0]%Q;
     Upload.upsert := λ i _,
       if i <? 100 then Ok () else Raise (Error (lit "index unavailable")) |}.

(** Five chunks, and an embedding model that rejects the third. *)
Definition third_chunk_rejected : Upload.Env :=
  {| Upload.PINECONE_API_KEY := key;
     Upload.PINECONE_ENVIRONMENT := key;
     Upload.OPENAI_API_KEY := key;
     Upload.load := λ _, Ok (Some [page]);
     Upload.textSplitter := λ _, Ok (replicate 5 page);
     Upload.embedQuery := λ i _,
       if i =? 2 then Raise (Error (lit "quota exceeded")) else Ok [1; 0]%Q;
     Upload.upsert := λ _ _, Ok () |}.

(** A document of 2500 characters. *)
Definition long_text : jstring := replicate 2500 97%N.

End Scenario.

(** ** The API key middleware *)

Module Auth.

(** [await handler(req, res)]: a [return] inside the handler ends the handler,
    not its caller. *)
Definition await (handler : M unit) : M unit := λ w,
  match handler w with
  | (Return, w') => (Normal (), w')
  | r => r
  end.

(** [withApiKeyAuth(handler)], applied to a request carrying the header
    [x-internal-api-key] ([providedApiKey]) on a server whose
    [INTERNAL_API_KEY] is [expectedApiKey]. *)
Definition withApiKeyAuth (handler : M unit)
  (providedApiKey expectedApiKey : option jstring) : M unit :=
  if unset expectedApiKey || unset providedApiKey
     || negb (bool_decide (providedApiKey = expectedApiKey))
  then json 401 [("error", JStr (lit "Unauthorized"))] >> return_
  else
    try_catch
      (await handler)
      (λ error,
         json 500 [("error", JStr (lit "Internal Server Error"));
                   ("details",
                    JStr (or_else (Some (message error)) (lit "Unknown error")))]).

Definition run (handler : M unit) (providedApiKey expectedApiKey : option jstring)
  (w : World) : World :=
  (withApiKeyAuth handler providedApiKey expectedApiKey w).2.

End Auth.

(** ** The Multer configuration of the upload route *)

Module Storage.

(** A file part of the multipart request, before Multer stores it. *)
Record Incoming := { originalname : jstring; mimetype : jstring }.

(** [s.replace(/\s+/g, '_')]: every maximal run of white space becomes one
    underscore.  [in_run] says whether the previous character was white
    space. *)
Fixpoint squeeze (in_run : bool) (s : jstring) : jstring :=
  match s with
  | [] => []
  | c :: s' =>
      if is_ws c
      then if in_run then squeeze true s' else 95%N :: squeeze true s'
      else c :: squeeze false s'
  end.

Definition replace_spaces (s : jstring) : jstring := squeeze false s.

(** [filename]: [Date.now() + '-' + file.originalname.replace(/\s+/g, '_')]. *)
Definition filename (now : nat) (file : Incoming) : jstring :=
  lit (pretty now) ++ lit "-" ++ replace_spaces (originalname file).

(** [fileFilter]: accept PDFs, refuse anything else with an error. *)
Definition fileFilter (file : Incoming) : Result bool :=
  if bool_decide (mimetype file = lit "application/pdf") then Ok true
  else Raise (Error (lit "Only PDF files are allowed!")).

End Storage.

(** ** More vocabulary *)

Module Terms.

(** The external calls of one ask request: each stage at most once, in the
    order of the pipeline, the chat being asked the text that was embedded. *)
Definition ask_call_shape (evs : list Event) : Prop :=
  evs = []
  ∨ (∃ p, evs = [Transcribe p])
  ∨ (∃ p q sys, evs = [Transcribe p; EmbedQuery q; ChatCompletion sys q])
  ∨ (∃ p q v sys,
       evs = [Transcribe p; EmbedQuery q; IndexQuery v 5; ChatCompletion sys q]).

(** The records an upsert call sends. *)
Definition batch_of (ev : Event) : list VectorRecord :=
  match ev with IndexUpsert batch => batch | _ => [] end.

(** A decimal digit. *)
Definition digit (c : N) : Prop := (48 ≤ c ≤ 57)%N.

(** The JSON response [{ error: msg }] with a status. *)
Definition error_only (s : nat) (msg : jstring) : Response :=
  {| status := s; body := BJson [("error", JStr msg)] |}.

(** The body of a 405. *)
Definition not_allowed (method : jstring) : Response :=
  {| status := 405; body := BText (lit "Method " ++ method ++ lit " Not Allowed") |}.

(** The 200 of the ask handler for a raw model output and a transcription. *)
Definition answered (raw transcription : jstring) : Response :=
  {| status := 200;
     body := BJson [("answer", JStr (answer (parse raw)));
                    ("scratchpad", JStr (scratchpad (parse raw)));
                    ("transcription", JStr transcription)] |}.

(** The 500 of the text-to-speech handler when the synthesis fails. *)
Definition speech_error (e : JsError) : Response :=
  {| status := 500;
     body := BJson [("error", JStr (lit "Failed to generate speech from text."));
                    ("details",
                     JStr (or_else (Some (message e)) (lit "Unknown TTS error")))] |}.

(** The 500 of the text-to-speech handler's outer [catch]. *)
Definition request_error (e : JsError) : Response :=
  {| status := 500;
     body := BJson [("error", JStr (lit "Failed to process the request."));
                    ("details",
                     JStr (or_else (Some (message e)) (lit "Unknown error")))] |}.

(** A text-to-speech request that names a text to speak. *)
Definition speakable (req : Tts.Request) (t : jstring) : Prop :=
  Tts.method req = POST ∧ Tts.text req = Some (JStr t) ∧ truthy t = true.

(** What the text-to-speech handler answers once it calls ElevenLabs. *)
Definition spoken (env : Tts.Env) (t : jstring) : Response :=
  match Tts.textToSpeech env t with
  | Ok audio =>
      match Tts.writeFile env (Tts.temp_path env) audio with
      | Tts.Written => {| status := 200; body := BBytes audio |}
      | Tts.WriteFailed e _ => speech_error e
      end
  | Raise e => speech_error e
  end.

End Terms.

Import Terms.

(** ** More scenarios *)

Module Cases.

Definition GET : jstring := lit "GET".

(** Whisper hears nothing. *)
Definition silent : Ask.Env :=
  {| Ask.PINECONE_API_KEY := Scenario.key;
     Ask.PINECONE_ENVIRONMENT := Scenario.key;
     Ask.OPENAI_API_KEY := Scenario.key;
     Ask.transcribe := λ _, Ok [];
     Ask.embedQuery := Ask.embedQuery Scenario.healthy;
     Ask.query := Ask.query Scenario.healthy;
     Ask.chat := Ask.chat Scenario.healthy |}.

(** The chat model answers with no content. *)
Definition mute_model : Ask.Env :=
  {| Ask.PINECONE_API_KEY := Scenario.key;
     Ask.PINECONE_ENVIRONMENT := Scenario.key;
     Ask.OPENAI_API_KEY := Scenario.key;
     Ask.transcribe := Ask.transcribe Scenario.healthy;
     Ask.embedQuery := Ask.embedQuery Scenario.healthy;
     Ask.query := Ask.query Scenario.healthy;
     Ask.chat := λ _ _, Ok None |}.

(** A server started without its OpenAI key. *)
Definition keyless : Ask.Env :=
  {| Ask.PINECONE_API_KEY := Scenario.key;
     Ask.PINECONE_ENVIRONMENT := Scenario.key;
     Ask.OPENAI_API_KEY := None;
     Ask.transcribe := Ask.transcribe Scenario.healthy;
     Ask.embedQuery := Ask.embedQuery Scenario.healthy;
     Ask.query := Ask.query Scenario.healthy;
     Ask.chat := Ask.chat Scenario.healthy |}.

(** The error Multer raises for a file over the size limit. *)
Definition file_too_large : JsError :=
  {| code := Some LIMIT_FILE_SIZE; message := lit "File too large" |}.

Definition oversized_audio : Ask.Request :=
  {| Ask.method := POST; Ask.multer := Raise file_too_large |}.

(** 250 chunks, every collaborator up. *)
Definition accepting : Upload.Env :=
  {| Upload.PINECONE_API_KEY := Scenario.key;
     Upload.PINECONE_ENVIRONMENT := Scenario.key;
     Upload.OPENAI_API_KEY := Scenario.key;
     Upload.load := λ _, Ok (Some [Scenario.page]);
     Upload.textSplitter := λ _, Ok (replicate 250 Scenario.page);
     Upload.embedQuery := λ _ _, Ok [1; 0]%Q;
     Upload.upsert := λ _ _, Ok () |}.

(** A PDF the splitter finds nothing in. *)
Definition nothing_to_split : Upload.Env :=
  {| Upload.PINECONE_API_KEY := Scenario.key;
     Upload.PINECONE_ENVIRONMENT := Scenario.key;
     Upload.OPENAI_API_KEY := Scenario.key;
     Upload.load := λ _, Ok (Some [Scenario.page]);
     Upload.textSplitter := λ _, Ok [];
     Upload.embedQuery := λ _ _, Ok [1; 0]%Q;
     Upload.upsert := λ _ _, Ok () |}.

(** A file the PDF loader cannot read. *)
Definition unreadable : Upload.Env :=
  {| Upload.PINECONE_API_KEY := Scenario.key;
     Upload.PINECONE_ENVIRONMENT := Scenario.key;
     Upload.OPENAI_API_KEY := Scenario.key;
     Upload.load := λ _, Raise (Error (lit "Invalid PDF structure"));
     Upload.textSplitter := λ _, Ok [];
     Upload.embedQuery := λ _ _, Ok [1; 0]%Q;
     Upload.upsert := λ _ _, Ok () |}.

Definition spreadsheet : Storage.Incoming :=
  {| Storage.originalname := lit "Q3 report  final.xlsx";
     Storage.mimetype := lit "application/vnd.ms-excel" |}.

Definition get_ask : Ask.Request :=
  {| Ask.method := GET;
     Ask.multer := Ok (Ask.Parsed {| Ask.file := None; Ask.asked := None |}) |}.

Definition get_upload : Upload.Request :=
  {| Upload.method := GET; Upload.upload := Ok None |}.

Definition get_tts : Tts.Request :=
  {| Tts.method := GET; Tts.req_body := Tts.Fields None |}.

(** A working text-to-speech service. *)
Definition voice : Tts.Env :=
  {| Tts.ELEVENLABS_API_KEY := Scenario.key;
     Tts.tmpdir := lit "/tmp";
     Tts.now := 4102;
     Tts.textToSpeech := λ t, Ok (73%N :: 68%N :: 51%N :: t);
     Tts.writeFile := λ _ _, Tts.Written |}.

(** ElevenLabs is down. *)
Definition hoarse : Tts.Env :=
  {| Tts.ELEVENLABS_API_KEY := Scenario.key;
     Tts.tmpdir := lit "/tmp";
     Tts.now := 4102;
     Tts.textToSpeech := λ _, Raise (Error (lit "quota exceeded"));
     Tts.writeFile := λ _ _, Tts.Written |}.

(** The disk fills up while the audio is written. *)
Definition disk_full : Tts.Env :=
  {| Tts.ELEVENLABS_API_KEY := Scenario.key;
     Tts.tmpdir := lit "/tmp";
     Tts.now := 4102;
     Tts.textToSpeech := λ t, Ok (73%N :: 68%N :: 51%N :: t);
     Tts.writeFile := λ _ _, Tts.WriteFailed (Error (lit "ENOSPC")) (Some [73%N]) |}.

Definition say (t : jstring) : Tts.Request :=
  {| Tts.method := POST; Tts.req_body := Tts.Fields (Some (JStr t)) |}.

(** A handler that forgets to catch. *)
Definition crashing : M unit :=
  call (A := unit) (LoadPdf (lit "/docs/a.pdf")) (Raise (Error (lit "boom")))
  >> json 200 [].


(** A text-to-speech request whose JSON body reads [null]. *)
Definition null_body : Tts.Request :=
  {| Tts.method := POST;
     Tts.req_body :=
       Tts.Null (lit "Cannot destructure property 'text' of 'req.body' as it is null.") |}.


End Cases.

(** ** The page: its state, its requests and its event handlers *)

Module Browser.

(** A [File] or [Blob]. *)
Record File := { name : jstring; type : jstring; bytes : list N }.

(** The requests the page sends, each with its [X-Internal-API-Key] header:
    the form field [file] to [/api/upload], the form field [audio] to
    [/api/ask], the JSON body [{ text }] to [/api/tts]. *)
Inductive Fetch :=
| PostUpload (key : jstring) (file : File)
| PostAsk (key : jstring) (audio : list N)
| PostTts (key : jstring) (text : JVal).

(** The [useState] variables of [Home], the blob behind the [src] of the
    audio element, and the requests sent so far. *)
Record State := {
  uploading : bool;
  asking : bool;
  ttsLoading : bool;
  error : option jstring;
  uploadStatus : JVal;
  transcription : JVal;
  answer : JVal;
  scratchpad : JVal;
  playing : option Body;
  requests : list Fetch }.

(** A piece of an event handler: it completes with a value or throws. *)
Definition C (A : Type) : Type := State → Result A * State.

Definition ret {A} (a : A) : C A := λ s, (Ok a, s).

Definition bind {A B} (m : C A) (f : A → C B) : C B := λ s,
  match m s with
  | (Ok a, s') => f a s'
  | (Raise e, s') => (Raise e, s')
  end.

Definition throw {A} (e : JsError) : C A := λ s, (Raise e, s).

(** An awaited promise that has settled. *)
Definition await {A} (r : Result A) : C A := λ s, (r, s).

(** [try { body } catch (err) { handler } finally { final }]. *)
Definition try_catch_finally {A} (body : C A) (handler : JsError → C A)
  (final : C unit) : C A := λ s,
  let r := match body s with
           | (Raise e, s') => handler e s'
           | r => r
           end in
  match final r.2 with
  | (Ok _, s'') => (r.1, s'')
  | (Raise e, s'') => (Raise e, s'')
  end.

Definition setUploading (b : bool) : C unit := λ s,
  (Ok tt,
   {| uploading := b; asking := asking s; ttsLoading := ttsLoading s;
      error := error s; uploadStatus := uploadStatus s;
      transcription := transcription s; answer := answer s;
      scratchpad := scratchpad s; playing := playing s; requests := requests s |}).
Definition setAsking (b : bool) : C unit := λ s,
  (Ok tt,
   {| uploading := uploading s; asking := b; ttsLoading := ttsLoading s;
      error := error s; uploadStatus := uploadStatus s;
      transcription := transcription s; answer := answer s;
      scratchpad := scratchpad s; playing := playing s; requests := requests s |}).
Definition setTtsLoading (b : bool) : C unit := λ s,
  (Ok tt,
   {| uploading := uploading s; asking := asking s; ttsLoading := b;
      error := error s; uploadStatus := uploadStatus s;
      transcription := transcription s; answer := answer s;
      scratchpad := scratchpad s; playing := playing s; requests := requests s |}).
Definition setError (e : option jstring) : C unit := λ s,
  (Ok tt,
   {| uploading := uploading s; asking := asking s; ttsLoading := ttsLoading s;
      error := e; uploadStatus := uploadStatus s;
      transcription := transcription s; answer := answer s;
      scratchpad := scratchpad s; playing := playing s; requests := requests s |}).
Definition setUploadStatus (v : JVal) : C unit := λ s,
  (Ok tt,
   {| uploading := uploading s; asking := asking s; ttsLoading := ttsLoading s;
      error := error s; uploadStatus := v;
      transcription := transcription s; answer := answer s;
      scratchpad := scratchpad s; playing := playing s; requests := requests s |}).
Definition setTranscription (v : JVal) : C unit := λ s,
  (Ok tt,
   {| uploading := uploading s; asking := asking s; ttsLoading := ttsLoading s;
      error := error s; uploadStatus := uploadStatus s;
      transcription := v; answer := answer s;
      scratchpad := scratchpad s; playing := playing s; requests := requests s |}).
Definition setAnswer (v : JVal) : C unit := λ s,
  (Ok tt,
   {| uploading := uploading s; asking := asking s; ttsLoading := ttsLoading s;
      error := error s; uploadStatus := uploadStatus s;
      transcription := transcription s; answer := v;
      scratchpad := scratchpad s; playing := playing s; requests := requests s |}).
Definition setScratchpad (v : JVal) : C unit := λ s,
  (Ok tt,
   {| uploading := uploading s; asking := asking s; ttsLoading := ttsLoading s;
      error := error s; uploadStatus := uploadStatus s;
      transcription := transcription s; answer := answer s;
      scratchpad := v; playing := playing s; requests := requests s |}).

(** [audioRef.current.src = URL.createObjectURL(blob); audioRef.current.play()]. *)
Definition play (blob : Body) : C unit := λ s,
  (Ok tt,
   {| uploading := uploading s; asking := asking s; ttsLoading := ttsLoading s;
      error := error s; uploadStatus := uploadStatus s;
      transcription := transcription s; answer := answer s;
      scratchpad := scratchpad s; playing := Some blob; requests := requests s |}).

(** [await fetch(...)]: the request leaves, then a response or a rejection. *)
Definition fetch (network : Fetch → Result Response) (rq : Fetch) : C Response := λ s,
  (network rq,
   {| uploading := uploading s; asking := asking s; ttsLoading := ttsLoading s;
      error := error s; uploadStatus := uploadStatus s;
      transcription := transcription s; answer := answer s;
      scratchpad := scratchpad s; playing := playing s;
      requests := requests s ++ [rq] |}).

(** The page as first rendered. *)
Definition fresh : State :=
  {| uploading := false; asking := false; ttsLoading := false; error := None;
     uploadStatus := JStr []; transcription := JStr []; answer := JStr [];
     scratchpad := JStr []; playing := None; requests := [] |}.

(** Truthiness of a JSON value. *)
Definition truthy_val (v : JVal) : bool :=
  match v with
  | JStr s => truthy s
  | JNum n => negb (n =? 0)
  end.

(** [o.k || d] on a field of a JSON object. *)
Definition val_or (v : option JVal) (d : jstring) : JVal :=
  match v with
  | Some x => if truthy_val x then x else JStr d
  | None => JStr d
  end.

(** [String(v)], as [new Error(v)] and template literals apply it. *)
Definition to_string (v : JVal) : jstring :=
  match v with
  | JStr s => s
  | JNum n => lit (pretty n)
  end.

(** [response.ok]. *)
Definition ok (r : Response) : bool := (200 <=? status r) && (status r <=? 299).

End Browser.

Declare Scope page_scope.
Delimit Scope page_scope with page.
Notation "'let*' x ':=' m 'in' k" := (Browser.bind m (λ x, k))
  (at level 10, x binder, m at level 100, k at level 200) : page_scope.
Notation "m '>>' k" := (Browser.bind m (λ _, k))
  (at level 100, k at level 200, right associativity) : page_scope.

Module Client.

Import Browser.
Local Open Scope page_scope.

Record Env := {
  INTERNAL_API_KEY : option jstring;   (* process.env.NEXT_PUBLIC_INTERNAL_API_KEY *)
  network : Fetch → Result Response;   (* what [fetch] resolves to, or its rejection *)
  parse_text : Body → Result Json;     (* [response.json()] on a body [res.json] did not write *)
  audioRef_current : bool }.           (* whether the audio element is mounted *)

(** ['X-Internal-API-Key': INTERNAL_API_KEY || '']. *)
Definition header (env : Env) : jstring := or_else (INTERNAL_API_KEY env) [].

(** What [response.json()] resolves to. *)
Definition json_of (env : Env) (response : Response) : Result Json :=
  match body response with
  | BJson o => Ok o
  | b => parse_text env b
  end.

(** [await response.json()]. *)
Definition json (env : Env) (response : Response) : C Json :=
  await (json_of env response).

(** [if (!response.ok) { const errorData = await response.json();
    throw new Error(errorData.error || `HTTP error! status: ${response.status}`); }] *)
Definition check_ok (env : Env) (response : Response) : C unit :=
  if negb (ok response)
  then
    let* errorData := json env response in
    throw (Error (to_string
                    (val_or (json_get "error" errorData)
                       (lit "HTTP error! status: " ++ lit (pretty (status response))))))
  else ret tt.

Definition handleFileUpload (env : Env) (file : option File) : C unit :=
  match file with
  | None => ret tt
  | Some file =>
      setUploading true >>
      setError None >>
      setUploadStatus (JStr (lit "Uploading...")) >>
      try_catch_finally
        (let* response := fetch (network env) (PostUpload (header env) file) in
         check_ok env response >>
         let* result := json env response in
         setUploadStatus (val_or (json_get "message" result)
                            (lit "File uploaded successfully.")))
        (λ err,
           setError (Some (lit "Upload failed: " ++ message err)) >>
           setUploadStatus (JStr []))
        (setUploading false)
  end.

(** [handleDrop]: only the first dropped file is processed. *)
Definition handleDrop (env : Env) (files : list File) : C unit :=
  match files with
  | file :: _ => handleFileUpload env (Some file)
  | [] => ret tt
  end.

Definition handleTextToSpeech (env : Env) (text : JVal) : C unit :=
  if negb (truthy_val text) then ret tt
  else
    setTtsLoading true >>
    setError None >>
    try_catch_finally
      (let* response := fetch (network env) (PostTts (header env) text) in
       check_ok env response >>
       let audioBlob := body response in
       if audioRef_current env then play audioBlob else ret tt)
      (λ err, setError (Some (lit "TTS API failed: " ++ message err)))
      (setTtsLoading false).

Definition onRecordingComplete (env : Env) (blob : list N) : C unit :=
  setAsking true >>
  setError None >>
  setTranscription (JStr []) >>
  setAnswer (JStr []) >>
  setScratchpad (JStr []) >>
  try_catch_finally
    (let* response := fetch (network env) (PostAsk (header env) blob) in
     check_ok env response >>
     let* result := json env response in
     setTranscription (val_or (json_get "transcription" result)
                         (lit "No transcription available.")) >>
     setAnswer (val_or (json_get "answer" result)
                  (lit "Could not retrieve an answer.")) >>
     setScratchpad (val_or (json_get "scratchpad" result)
                      (lit "No scratchpad available.")) >>
     match json_get "answer" result with
     | Some a => if truthy_val a then handleTextToSpeech env a else ret tt
     | None => ret tt
     end)
    (λ err, setError (Some (lit "Ask API failed: " ++ message err)))
    (setAsking false).

(** The state an event handler leaves the page in. *)
Definition after {A} (handler : C A) (s : State) : State := (handler s).2.

End Client.

(** ** The page and the routes together *)

Module Stack.

Import Browser.

Record Server := {
  INTERNAL_API_KEY : option jstring;
  ask_env : Ask.Env;
  upload_env : Upload.Env;
  tts_env : Tts.Env }.

(** [r] is a response of the server to the page's request [rq]: what the
    route's handler, behind the key check, sends for a POST with the parts
    of the request.  What Multer makes of the multipart body, and the state
    the server is in, are left open. *)
Definition serves (srv : Server) (rq : Fetch) (r : Response) : Prop :=
  match rq with
  | PostUpload key file =>
      ∃ req w,
        Upload.method req = POST
        ∧ (∀ f, Upload.upload req = Ok (Some f) → originalname f = name file)
        ∧ sent (Auth.run (Upload.uploadHandler req (upload_env srv))
                  (Some key) (INTERNAL_API_KEY srv) w) = Some r
  | PostAsk key audio =>
      ∃ req w,
        Ask.method req = POST ∧ Ask.question req = None
        ∧ sent (Auth.run (Ask.askHandler req (ask_env srv))
                  (Some key) (INTERNAL_API_KEY srv) w) = Some r
  | PostTts key text =>
      ∃ w,
        sent (Auth.run
                (Tts.ttsHandler
                   {| Tts.method := POST; Tts.req_body := Tts.Fields (Some text) |}
                   (tts_env srv))
                (Some key) (INTERNAL_API_KEY srv) w) = Some r
  end.

(** Every request of the page is answered by the server. *)
Definition wired (srv : Server) (env : Client.Env) : Prop :=
  ∀ rq, ∃ r, Client.network env rq = Ok r ∧ serves srv rq r.

End Stack.

(** ** Vocabulary and scenarios for the page *)

Module Page.

Import Browser.

(** What the page makes of a request: the response when it is ok, the error
    thrown otherwise (the rejection of [fetch], the failure of
    [response.json()], or the error built from the body). *)
Definition checked (env : Client.Env) (rq : Fetch) : Result Response :=
  match Client.network env rq with
  | Raise e => Raise e
  | Ok response =>
      if ok response then Ok response
      else
        match Client.json_of env response with
        | Raise e => Raise e
        | Ok errorData =>
            Raise (Error (to_string
                            (val_or (json_get "error" errorData)
                               (lit "HTTP error! status: "
                                ++ lit (pretty (status response))))))
        end
  end.

(** A request that fails with the message [msg]: the network rejects it, or
    the server answers with a status that is not ok and [{ error: msg }]. *)
Definition fails_with (env : Client.Env) (rq : Fetch) (msg : jstring) : Prop :=
  (∃ e, Client.network env rq = Raise e ∧ msg = message e)
  ∨ (∃ response,
       Client.network env rq = Ok response ∧ ok response = false
       ∧ field "error" response = Some (JStr msg) ∧ truthy msg = true).

(** A request answered by an ok response with the JSON body [result]. *)
Definition succeeds_with (env : Client.Env) (rq : Fetch) (result : Json) : Prop :=
  ∃ response,
    Client.network env rq = Ok response ∧ ok response = true
    ∧ body response = BJson result.

(** The state after a failed ask request. *)
Definition ask_failed (env : Client.Env) (blob : list N) (msg : jstring)
  (s : State) : State :=
  {| uploading := uploading s; asking := false; ttsLoading := ttsLoading s;
     error := Some (lit "Ask API failed: " ++ msg);
     uploadStatus := uploadStatus s;
     transcription := JStr []; answer := JStr []; scratchpad := JStr [];
     playing := playing s;
     requests := requests s ++ [PostAsk (Client.header env) blob] |}.

(** The state once the results of an ask request are shown, before any
    speech is requested. *)
Definition ask_shown (env : Client.Env) (blob : list N) (result : Json)
  (s : State) : State :=
  {| uploading := uploading s; asking := false; ttsLoading := ttsLoading s;
     error := None;
     uploadStatus := uploadStatus s;
     transcription := val_or (json_get "transcription" result)
                        (lit "No transcription available.");
     answer := val_or (json_get "answer" result)
                 (lit "Could not retrieve an answer.");
     scratchpad := val_or (json_get "scratchpad" result)
                     (lit "No scratchpad available.");
     playing := playing s;
     requests := requests s ++ [PostAsk (Client.header env) blob] |}.

(** The state after the speech for [a] was requested. *)
Definition spoken_to (env : Client.Env) (a : JVal) (s : State) : State :=
  {| uploading := uploading s; asking := asking s; ttsLoading := false;
     error := match checked env (PostTts (Client.header env) a) with
              | Ok _ => None
              | Raise e => Some (lit "TTS API failed: " ++ message e)
              end;
     uploadStatus := uploadStatus s;
     transcription := transcription s; answer := answer s;
     scratchpad := scratchpad s;
     playing := match checked env (PostTts (Client.header env) a) with
                | Ok response =>
                    if Client.audioRef_current env then Some (body response)
                    else playing s
                | Raise _ => playing s
                end;
     requests := requests s ++ [PostTts (Client.header env) a] |}.

(** The state after an upload. *)
Definition uploaded (env : Client.Env) (file : File) (s : State) : State :=
  {| uploading := false; asking := asking s; ttsLoading := ttsLoading s;
     error := match checked env (PostUpload (Client.header env) file) with
              | Ok response =>
                  match Client.json_of env response with
                  | Ok _ => None
                  | Raise e => Some (lit "Upload failed: " ++ message e)
                  end
              | Raise e => Some (lit "Upload failed: " ++ message e)
              end;
     uploadStatus :=
       match checked env (PostUpload (Client.header env) file) with
       | Ok response =>
           match Client.json_of env response with
           | Ok result =>
               val_or (json_get "message" result) (lit "File uploaded successfully.")
           | Raise _ => JStr []
           end
       | Raise _ => JStr []
       end;
     transcription := transcription s; answer := answer s;
     scratchpad := scratchpad s; playing := playing s;
     requests := requests s ++ [PostUpload (Client.header env) file] |}.

End Page.

Module Visit.

Import Browser.

(** A server with every collaborator up. *)
Definition server : Stack.Server :=
  {| Stack.INTERNAL_API_KEY := Scenario.key;
     Stack.ask_env := Scenario.healthy;
     Stack.upload_env := Cases.accepting;
     Stack.tts_env := Cases.voice |}.

(** The routes of a server, each request served from a clean start. *)
Definition respond (srv : Stack.Server) (rq : Fetch) : Result Response :=
  Ok (default {| status := 502; body := BText [] |}
        (sent
           match rq with
           | PostUpload key file =>
               Auth.run
                 (Upload.uploadHandler
                    {| Upload.method := POST;
                       Upload.upload :=
                         Ok (Some {| path := lit "docs/4102-" ++ name file;
                                     originalname := name file;
                                     content := bytes file |}) |}
                    (Stack.upload_env srv))
                 (Some key) (Stack.INTERNAL_API_KEY srv) start
           | PostAsk key audio =>
               Auth.run
                 (Ask.askHandler
                    {| Ask.method := POST;
                       Ask.multer :=
                         Ok (Ask.Parsed
                               {| Ask.file :=
                                    Some {| path := lit "/tmp/3f2a9c";
                                            originalname := lit "recording.webm";
                                            content := audio |};
                                  Ask.asked := None |}) |}
                    (Stack.ask_env srv))
                 (Some key) (Stack.INTERNAL_API_KEY srv) start
           | PostTts key text =>
               Auth.run
                 (Tts.ttsHandler
                    {| Tts.method := POST; Tts.req_body := Tts.Fields (Some text) |}
                    (Stack.tts_env srv))
                 (Some key) (Stack.INTERNAL_API_KEY srv) start
           end)).

(** A browser talking to that server, with the key it was built with. *)
Definition browser (key : option jstring) : Client.Env :=
  {| Client.INTERNAL_API_KEY := key;
     Client.network := respond server;
     Client.parse_text := λ _, Raise (Error (lit "Unexpected token"));
     Client.audioRef_current := true |}.

(** A browser that is offline. *)
Definition offline : Client.Env :=
  {| Client.INTERNAL_API_KEY := Scenario.key;
     Client.network := λ _, Raise (Error (lit "Failed to fetch"));
     Client.parse_text := λ _, Raise (Error (lit "Unexpected token"));
     Client.audioRef_current := true |}.

Definition report : File :=
  {| name := lit "finance.pdf"; type := lit "application/pdf"; bytes := [37%N] |}.

(** A browser whose requests get fixed answers. *)
Definition canned : Client.Env :=
  {| Client.INTERNAL_API_KEY := Scenario.key;
     Client.network := λ rq,
       match rq with
       | PostAsk _ _ =>
           Ok {| status := 200;
                 body := BJson [("answer", JStr (lit "Buy low."));
                                ("scratchpad", JStr []);
                                ("transcription", JStr (lit "What now?"))] |}
       | PostTts _ _ => Ok {| status := 200; body := BBytes [73%N; 68%N; 51%N] |}
       | PostUpload _ _ =>
           Ok {| status := 200; body := BJson [("chunksEmbedded", JNum 3)] |}
       end;
     Client.parse_text := λ _, Raise (Error (lit "Unexpected token"));
     Client.audioRef_current := true |}.

End Visit.

(** ** Facts about the string operations *)

Section StringFacts.

Implicit Types s a b : jstring.

Lemma starts_with_prefix pat s : starts_with pat s = true ↔ pat `prefix_of` s.
Proof.
  revert s. induction pat as [|p pat IH]; intros [|c s]; simpl.
  - split; [intros _; apply prefix_nil | done].
  - split; [intros _; apply prefix_nil | done].
  - split; [done | intros H; by apply prefix_nil_inv in H].
  - rewrite andb_true_iff, N.eqb_eq, IH. split.
    + intros [-> H]. by apply prefix_cons.
    + intros H. split; [by apply prefix_cons_inv_1 in H | by apply prefix_cons_inv_2 in H].
Qed.

Lemma starts_with_false pat s : starts_with pat s = false ↔ ¬ pat `prefix_of` s.
Proof. rewrite <- starts_with_prefix. by destruct (starts_with pat s). Qed.

Lemma prefix_drop pat s : pat `prefix_of` s → s = pat ++ drop (length pat) s.
Proof. intros [k ->]. by rewrite drop_app_length. Qed.

Lemma cut_unfold pat s :
  cut pat s = if starts_with pat s then Some ([], drop (length pat) s)
              else match s with
                   | [] => None
                   | c :: s' => '(x, y) ← cut pat s'; Some (c :: x, y)
                   end.
Proof. by destruct s. Qed.

Lemma cut_first_occurrence pat s a b :
  cut pat s = Some (a, b) ↔ first_occurrence pat s a b.
Proof.
  revert a b. induction s as [|c s IH]; intros a b.
  - simpl. destruct (starts_with pat []) eqn:E.
    + apply starts_with_prefix, prefix_nil_inv in E as ->. split.
      * intros [= <- <-]. split; [done | simpl; lia].
      * intros [H _]. symmetry in H. apply app_eq_nil in H as [-> H]. simpl in H. by subst.
    + split; [done|]. intros [H _]. symmetry in H.
      apply app_eq_nil in H as [_ [-> _]%app_eq_nil]. done.
  - cbn [cut]. destruct (starts_with pat (c :: s)) eqn:E.
    + apply starts_with_prefix in E. split.
      * intros [= <- <-]. split; [by apply prefix_drop | simpl; lia].
      * intros [H Hmin]. destruct a as [|x a].
        -- simpl in H. rewrite H. by rewrite drop_app_length.
        -- exfalso. apply (Hmin 0); [simpl; lia | done].
    + apply starts_with_false in E. split.
      * destruct (cut pat s) as [[a' b']|] eqn:E'; simpl; [|done].
        intros [= <- <-]. destruct (proj1 (IH _ _) eq_refl) as [-> Hmin]. split; [done|].
        intros [|i] Hi; [done|]. simpl in *. apply Hmin. lia.
      * intros [H Hmin]. destruct a as [|x a].
        -- exfalso. apply E. simpl in H. rewrite H. by apply prefix_app_r.
        -- injection H as <- ->.
           assert (cut pat (a ++ pat ++ b) = Some (a, b)) as ->; [|done].
           apply IH. split; [done|]. intros i Hi. apply (Hmin (S i)). simpl. lia.
Qed.

Lemma cut_contains pat s a b : cut pat s = Some (a, b) → contains pat s.
Proof. intros [-> _]%cut_first_occurrence. by exists a, b. Qed.

Lemma cut_None pat s : cut pat s = None ↔ ¬ contains pat s.
Proof.
  split.
  - intros Hcut (a & b & ->). revert Hcut. induction a as [|c a IH]; simpl.
    + assert (starts_with pat (pat ++ b) = true) as E
        by (apply starts_with_prefix; by apply prefix_app_r).
      by rewrite cut_unfold, E.
    + destruct (starts_with pat (c :: a ++ pat ++ b)); [done|].
      destruct (cut pat (a ++ pat ++ b)) as [[]|]; [done|]. auto.
  - intros Hno. destruct (cut pat s) as [[a b]|] eqn:E; [|done].
    exfalso. eauto using cut_contains.
Qed.

Lemma split_unfold pat s :
  pat ≠ [] →
  split pat s = match cut pat s with
                | Some (a, b) => a :: split pat b
                | None => [s]
                end.
Proof.
  intros Hpat. destruct pat as [|p pat]; [done|].
  funelim (split (p :: pat) s); by rewrite e.
Qed.

(** The second part of a split: what lies between the first separator and the
    next one (or the end of the text). *)
Lemma split_second pat s :
  pat ≠ [] →
  split pat s !! 1 =
    match cut pat s with
    | Some (_, b) => Some (match cut pat b with Some (seg, _) => seg | None => b end)
    | None => None
    end.
Proof.
  intros Hpat. rewrite split_unfold by done.
  destruct (cut pat s) as [[a b]|]; [|done]. simpl.
  rewrite split_unfold by done. by destruct (cut pat b) as [[seg rest]|].
Qed.

Lemma contains_drop pat s x y k :
  s = x ++ pat ++ y → k ≤ length x → contains pat (drop k s).
Proof.
  intros -> Hk. exists (drop k x), y. rewrite drop_app.
  replace (k - length x) with 0 by lia. done.
Qed.

Lemma first_occurrence_unique pat s a b a' b' :
  first_occurrence pat s a b → first_occurrence pat s a' b' → a = a' ∧ b = b'.
Proof.
  intros H H'. apply cut_first_occurrence in H, H'.
  rewrite H in H'. by injection H'.
Qed.

Lemma contains_first_occurrence pat s :
  contains pat s → ∃ a b, first_occurrence pat s a b.
Proof.
  intros H. destruct (cut pat s) as [[a b]|] eqn:E.
  - exists a, b. by apply cut_first_occurrence.
  - by apply cut_None in E.
Qed.

Lemma first_occurrence_before pat s a b x y :
  first_occurrence pat s a b → s = x ++ pat ++ y → length a ≤ length x.
Proof.
  intros [_ Hmin] ->. destruct (decide (length a ≤ length x)); [done|].
  exfalso. apply (Hmin (length x)); [lia|].
  rewrite drop_app_length. by apply prefix_app_r.
Qed.

Lemma trim_start_nil s : trim_start s = [] ↔ blank s.
Proof.
  unfold blank. induction s as [|c s IH]; simpl.
  - split; [constructor | done].
  - destruct (is_ws c) eqn:E.
    + rewrite IH. split; [by constructor | by inversion 1].
    + split; [done | inversion 1; congruence].
Qed.

Lemma trim_start_head s c t : trim_start s = c :: t → is_ws c = false.
Proof.
  induction s as [|x s IH]; simpl; [done|].
  destruct (is_ws x) eqn:E; [done | congruence].
Qed.

Lemma trim_nil s : trim s = [] ↔ blank s.
Proof.
  unfold trim, trim_end. split.
  - intros H. apply (f_equal reverse) in H. rewrite reverse_involutive in H.
    change (reverse []) with (@nil N) in H.
    apply trim_start_nil in H. apply trim_start_nil.
    destruct (trim_start s) as [|c t] eqn:E; [done|].
    apply trim_start_head in E. unfold blank in H.
    rewrite Forall_reverse in H. inversion H; congruence.
  - intros H. apply trim_start_nil in H. by rewrite H.
Qed.

End StringFacts.

(** ** Facts about the regular expression *)

Section RegexFacts.

Implicit Types s pre body post : jstring.

(** The regular expression finds the first opening tag and then the first
    closing tag after it. *)
Lemma regex_exec_cuts s :
  regex_exec s =
    '(pre, t) ← cut tag_open s; '(body, post) ← cut tag_close t;
    Some (pre, body, post).
Proof.
  induction s as [|c s IH].
  - done.
  - cbn [regex_exec]. rewrite (cut_unfold tag_open (c :: s)). unfold match_here.
    destruct (starts_with tag_open (c :: s)) eqn:E.
    + cbn [mbind option_bind].
      destruct (cut tag_close (drop (length tag_open) (c :: s)))
        as [[body post]|] eqn:Ec; [done|].
      rewrite IH. destruct (cut tag_open s) as [[pre t]|] eqn:Eo; [|done].
      cbn [mbind option_bind].
      destruct (cut tag_close t) as [[body post]|] eqn:Et; [|done].
      exfalso. apply cut_None in Ec. apply Ec.
      apply cut_first_occurrence in Eo as [-> _].
      apply cut_first_occurrence in Et as [-> _].
      change (drop (length tag_open) (c :: pre ++ tag_open ++ body ++ tag_close ++ post))
        with (drop 11 (pre ++ tag_open ++ body ++ tag_close ++ post)).
      eapply (contains_drop _ _ (pre ++ tag_open ++ body) post).
      * by rewrite <- !(assoc_L (++)).
      * rewrite !length_app. change (length tag_open) with 12. lia.
    + rewrite IH. destruct (cut tag_open s) as [[pre t]|]; [|done].
      cbn [mbind option_bind]. by destruct (cut tag_close t) as [[body post]|].
Qed.

Lemma regex_exec_first_block s pre body post :
  regex_exec s = Some (pre, body, post) ↔ first_block s pre body post.
Proof.
  rewrite regex_exec_cuts. unfold first_block. split.
  - destruct (cut tag_open s) as [[pre' t]|] eqn:Eo; [|done].
    cbn [mbind option_bind].
    destruct (cut tag_close t) as [[body' post']|] eqn:Et; [|done].
    intros [= <- <- <-]. pose proof Et as [-> _]%cut_first_occurrence.
    split; by apply cut_first_occurrence.
  - intros [Ho Hc]. apply cut_first_occurrence in Ho, Hc.
    rewrite Ho. cbn [mbind option_bind]. by rewrite Hc.
Qed.

Lemma first_block_eq s pre body post :
  first_block s pre body post → s = pre ++ tag_open ++ body ++ tag_close ++ post.
Proof. by intros [[-> _] _]. Qed.

Lemma has_block_first_block s :
  has_block s ↔ ∃ pre body post, first_block s pre body post.
Proof.
  split.
  - intros (a & body & b & Hs).
    destruct (contains_first_occurrence tag_open s) as (pre & t & Ho);
      [by exists a, (body ++ tag_close ++ b)|].
    assert (contains tag_close t) as Hc.
    { pose proof (first_occurrence_before _ _ _ _ _ _ Ho Hs) as Hlen.
      destruct Ho as [Hs' _].
      assert (t = drop (length pre + length tag_open) s) as ->.
      { rewrite Hs', (assoc_L (++)), <- length_app. by rewrite drop_app_length. }
      eapply (contains_drop _ _ (a ++ tag_open ++ body) b).
      - rewrite Hs. by rewrite <- !(assoc_L (++)).
      - rewrite !length_app. lia. }
    destruct (contains_first_occurrence tag_close t Hc) as (body' & post & Ht).
    exists pre, body', post. pose proof Ht as [-> _]. by split.
  - intros (pre & body & post & H). exists pre, body, post. by apply first_block_eq.
Qed.

Lemma regex_exec_None s : regex_exec s = None ↔ ¬ has_block s.
Proof.
  rewrite has_block_first_block. split.
  - intros H (pre & body & post & Hb). apply regex_exec_first_block in Hb. congruence.
  - intros H. destruct (regex_exec s) as [[[pre body] post]|] eqn:E; [|done].
    exfalso. apply H. exists pre, body, post. by apply regex_exec_first_block.
Qed.

End RegexFacts.

(** ** The response parser *)

Section ParserFacts.

Implicit Types raw pre body post seg : jstring.

Lemma marker_nonempty : marker ≠ [].
Proof. discriminate. Qed.

Lemma parse_scratchpad raw :
  scratchpad (parse raw) =
    match regex_exec raw with
    | Some (_, body, _) => tag_open ++ body ++ tag_close
    | None => no_scratchpad
    end.
Proof.
  unfold parse, match0. cbn [scratchpad].
  by destruct (regex_exec raw) as [[[pre body] post]|].
Qed.

Lemma parse_answer raw :
  answer (parse raw) =
    or_else (trim <$> split marker raw !! 1) (trim (strip_block raw)).
Proof. done. Qed.

Lemma or_else_trim seg d : ¬ blank seg → or_else (Some (trim seg)) d = trim seg.
Proof.
  intros H. unfold or_else. destruct (trim seg) as [|c t] eqn:E; [|done].
  by apply trim_nil in E.
Qed.

Lemma or_else_blank seg d : blank seg → or_else (Some (trim seg)) d = d.
Proof. intros H. apply trim_nil in H. by rewrite H. Qed.

Lemma split_marker_segment raw pre post seg :
  first_occurrence marker raw pre post → answer_segment post seg →
  split marker raw !! 1 = Some seg.
Proof.
  intros Hf Hseg. apply cut_first_occurrence in Hf.
  rewrite split_second, Hf by apply marker_nonempty.
  destruct Hseg as [[Hno ->]|[rest Hr]].
  - apply cut_None in Hno. by rewrite Hno.
  - apply cut_first_occurrence in Hr. by rewrite Hr.
Qed.

Lemma split_marker_absent raw : ¬ contains marker raw → split marker raw !! 1 = None.
Proof.
  intros H. apply cut_None in H. rewrite split_second by apply marker_nonempty.
  by rewrite H.
Qed.

Lemma strip_block_first raw pre body post :
  first_block raw pre body post → strip_block raw = pre ++ post.
Proof. intros H. apply regex_exec_first_block in H. unfold strip_block. by rewrite H. Qed.

Lemma strip_block_none raw : ¬ has_block raw → strip_block raw = raw.
Proof. intros H. apply regex_exec_None in H. unfold strip_block. by rewrite H. Qed.

End ParserFacts.

(** ** The ask handler, stage by stage *)

Arguments lit : simpl never.
Arguments parse : simpl never.
Arguments POST : simpl never.
Arguments LIMIT_FILE_SIZE : simpl never.
Arguments Ask.systemPrompt : simpl never.
Arguments Ask.format_context : simpl never.
Arguments Ask.context_error : simpl never.
Arguments Ask.no_context : simpl never.
Arguments Upload.chunk_id : simpl never.
Arguments Tts.temp_path : simpl never.
Arguments cleanup : simpl never.
Arguments Upload.upsert_loop : simpl never.
Arguments Upload.embed_and_upsert : simpl never.
Arguments Ask.retrieve : simpl never.
Arguments Ask.generate : simpl never.
Arguments Ask.upload : simpl nomatch.
Arguments Ask.question : simpl nomatch.
Arguments Tts.text : simpl nomatch.
Arguments Upload.splitDocuments : simpl nomatch.

Ltac monad :=
  unfold bind, try_catch, call, settle, json, send, ret, return_, throw, assign.

Section CleanupFacts.

Lemma cleanup_present reset p w :
  path_var w = Some p → truthy p = true → is_Some (files w !! p) →
  cleanup reset w =
    (Normal (),
     if reset then set_path_var None (set_files (delete p (files w)) w)
     else set_files (delete p (files w)) w).
Proof.
  intros Hp Ht Hf. unfold cleanup, read_var, existsSync, unlinkSync. monad.
  rewrite Hp, Ht, bool_decide_true by done. by destruct reset.
Qed.

Lemma cleanup_absent reset w :
  match path_var w with
  | Some p => truthy p = false ∨ files w !! p = None
  | None => True
  end →
  cleanup reset w = (Normal (), w).
Proof.
  unfold cleanup, read_var, existsSync, unlinkSync. monad.
  destruct (path_var w) as [p|]; [|done]. cbn. intros [H|H]; [by rewrite H|].
  destruct (truthy p); [|done]. rewrite H.
  by rewrite bool_decide_false by (by intros [? ?]).
Qed.

(** Whatever it finds, the cleanup completes, and touches only the file
    system and the path variable. *)
Lemma cleanup_run reset w :
  ∃ fs pv, cleanup reset w = (Normal (), set_path_var pv (set_files fs w)).
Proof.
  unfold cleanup, read_var, existsSync, unlinkSync. monad.
  destruct w as [fs ix cs sn [p|]]; cbn; [|by exists fs, None].
  destruct (truthy p); [|by exists fs, (Some p)].
  destruct (bool_decide _); [|by exists fs, (Some p)].
  destruct reset; [by exists (delete p fs), None | by exists (delete p fs), (Some p)].
Qed.

End CleanupFacts.

Section AskFacts.

Import Ask.

Variable env : Env.

Lemma retrieve_embed_fails q e w :
  embedQuery env q = Raise e →
  retrieve env q w = (Normal context_error, set_calls (calls w ++ [EmbedQuery q]) w).
Proof. intros H. unfold retrieve. monad. by rewrite H. Qed.

Lemma retrieve_query_fails q v e w :
  embedQuery env q = Ok v → query env v 5 = Raise e →
  retrieve env q w =
    (Normal context_error,
     set_calls (calls w ++ [EmbedQuery q; IndexQuery v 5]) w).
Proof.
  intros H1 H2. unfold retrieve. monad. rewrite H1, H2. cbn.
  by rewrite <- (assoc_L (++)).
Qed.

Lemma retrieve_ok q v r w :
  embedQuery env q = Ok v → query env v 5 = Ok r →
  retrieve env q w =
    (Normal (format_context r),
     set_calls (calls w ++ [EmbedQuery q; IndexQuery v 5]) w).
Proof.
  intros H1 H2. unfold retrieve. monad. rewrite H1, H2. cbn.
  by rewrite <- (assoc_L (++)).
Qed.

Lemma retrieve_run q w :
  retrieve env q w =
    (Normal (context_of env q), set_calls (calls w ++ retrieval_calls env q) w).
Proof.
  unfold context_of, retrieval_calls.
  destruct (embedQuery env q) as [v|e] eqn:E1.
  - destruct (query env v 5) as [r|e] eqn:E2.
    + by rewrite !(retrieve_ok _ _ _ _ E1 E2).
    + by rewrite !(retrieve_query_fails _ _ _ _ E1 E2).
  - by rewrite !(retrieve_embed_fails _ _ _ E1).
Qed.

Lemma unset_keys : ask_configured env →
  unset (PINECONE_API_KEY env) || unset (PINECONE_ENVIRONMENT env)
  || unset (OPENAI_API_KEY env) = false.
Proof. by intros (-> & -> & ->). Qed.

(** Multer set [req.body] on every request whose file it stored. *)
Lemma read_question_file req f :
  upload req = Ok (Some f) → read_question req = ret (question req).
Proof. unfold upload, read_question. by destruct (multer req) as [[msg|form]|e]. Qed.

Lemma read_question_form req :
  (∀ msg, multer req ≠ Ok (Bare msg)) → read_question req = ret (question req).
Proof.
  unfold read_question. intros H.
  destruct (multer req) as [[msg|form]|e]; [by destruct (H msg)|done..].
Qed.

Lemma bare_or_not req :
  (∃ msg, multer req = Ok (Bare msg)) ∨ (∀ msg, multer req ≠ Ok (Bare msg)).
Proof. destruct (multer req) as [[msg|form]|e]; [left; by exists msg|by right..]. Qed.

Lemma ask_transcription_fails req f e w :
  method req = POST → upload req = Ok (Some f) → ask_configured env →
  transcribe env (path f) = Raise e →
  run req env w =
    set_sent (Some (error_response (lit "Failed to transcribe audio.") e))
      (set_calls (calls w ++ [Transcribe (path f)]) (stored f w)).
Proof.
  intros Hm Hu Hk Ht. unfold run, askHandler. rewrite Hm, bool_decide_true by done.
  cbn [negb]. rewrite (read_question_file _ _ Hu).
  unfold transcribe_audio, runMiddleware. monad.
  by rewrite Hu, (unset_keys Hk), Ht.
Qed.

Lemma ask_no_audio req w :
  method req = POST → upload req = Ok None →
  (∀ msg, multer req ≠ Ok (Bare msg)) →
  run req env w =
    set_sent (Some {| status := 400;
                      body := BJson [("error", JStr (lit "No audio file uploaded."))] |})
      (set_path_var None w).
Proof.
  intros Hm Hu Hb. unfold run, askHandler. rewrite Hm, bool_decide_true by done.
  cbn [negb]. rewrite (read_question_form _ Hb).
  unfold runMiddleware. monad. by rewrite Hu.
Qed.

(** A request that is not multipart has no [req.body]: reading the question
    throws, and the outer [catch] answers. *)
Lemma ask_no_body req msg w :
  method req = POST → multer req = Ok (Bare msg) →
  run req env w =
    set_sent (Some {| status := 500;
                      body := BJson
                        [("error", JStr (lit "Failed to process the request."));
                         ("details",
                          JStr (if truthy msg then msg else lit "Unknown error"))] |})
      (set_path_var None w).
Proof.
  intros Hm Hb. unfold run, askHandler. rewrite Hm, bool_decide_true by done.
  cbn [negb]. unfold read_question, upload, runMiddleware. rewrite Hb. monad.
  cbv beta iota. by rewrite cleanup_absent by done.
Qed.

Lemma ask_keys_missing req f w :
  method req = POST → upload req = Ok (Some f) → ¬ ask_configured env →
  run req env w =
    set_sent (Some {| status := 500;
                      body := BJson [("error", JStr (lit
                        "Server configuration error: Missing API keys."))] |})
      (stored f w).
Proof.
  intros Hm Hu Hk. unfold run, askHandler. rewrite Hm, bool_decide_true by done.
  cbn [negb]. rewrite (read_question_file _ _ Hu).
  unfold runMiddleware. monad. rewrite Hu.
  assert (unset (PINECONE_API_KEY env) || unset (PINECONE_ENVIRONMENT env)
          || unset (OPENAI_API_KEY env) = true) as ->; [|done].
  unfold ask_configured in Hk.
  destruct (unset (PINECONE_API_KEY env)), (unset (PINECONE_ENVIRONMENT env)),
    (unset (OPENAI_API_KEY env)); try done. by exfalso; apply Hk.
Qed.

Lemma generate_raise ctx q t e w :
  chat env (systemPrompt ctx) q = Raise e →
  generate env ctx q t w =
    (Return,
     set_sent (Some (error_response (lit "Failed to get answer from AI model.") e))
       (set_calls (calls w ++ [ChatCompletion (systemPrompt ctx) q]) w)).
Proof. intros H. unfold generate. monad. by rewrite H. Qed.

Lemma generate_empty ctx q t c w :
  chat env (systemPrompt ctx) q = Ok c → boolean c = false →
  generate env ctx q t w =
    (Return,
     set_sent (Some (error_response (lit "Failed to get answer from AI model.")
                       (Error (lit "No response content from GPT-4o"))))
       (set_calls (calls w ++ [ChatCompletion (systemPrompt ctx) q]) w)).
Proof. intros H Hc. unfold generate. monad. by rewrite H, Hc. Qed.

Lemma generate_ok ctx q t raw w :
  chat env (systemPrompt ctx) q = Ok (Some raw) → truthy raw = true →
  generate env ctx q t w =
    (Normal (),
     set_sent (Some {| status := 200;
                       body := BJson [("answer", JStr (answer (parse raw)));
                                      ("scratchpad", JStr (scratchpad (parse raw)));
                                      ("transcription", JStr t)] |})
       (set_calls (calls w ++ [ChatCompletion (systemPrompt ctx) q]) w)).
Proof. intros H Hc. unfold generate. monad. rewrite H. cbn. by rewrite Hc. Qed.

Lemma generate_outcome ctx q t w :
  (generate env ctx q t w).1 = Normal () ∨ (generate env ctx q t w).1 = Return.
Proof.
  destruct (chat env (systemPrompt ctx) q) as [c|e] eqn:E.
  - destruct (boolean c) eqn:Ec.
    + destruct c as [raw|]; [|done]. left. by rewrite (generate_ok _ _ _ _ _ E Ec).
    + right. by rewrite (generate_empty _ _ _ _ _ E Ec).
  - right. by rewrite (generate_raise _ _ _ _ _ E).
Qed.

(** Once the audio is transcribed and a query text is at hand, the handler
    deletes the audio file, retrieves and then generates: retrieval cannot
    stop it. *)
Lemma ask_pipeline req f t w :
  method req = POST → upload req = Ok (Some f) → ask_configured env →
  transcribe env (path f) = Ok t →
  truthy (or_else (question req) t) = true →
  run req env w =
    (generate env (context_of env (or_else (question req) t))
       (or_else (question req) t) t
       (set_calls (calls w ++ Transcribe (path f)
                   :: retrieval_calls env (or_else (question req) t))
          (released f w))).2.
Proof.
  intros Hm Hu Hk Ht Hq. unfold run, askHandler. rewrite Hm, bool_decide_true by done.
  cbn [negb]. rewrite (read_question_file _ _ Hu).
  unfold transcribe_audio, runMiddleware. monad.
  rewrite Hu, (unset_keys Hk), Ht. cbn.
  match goal with |- context [cleanup true ?W] =>
    assert (cleanup true W
            = (Normal (), set_calls (calls w ++ [Transcribe (path f)]) (released f w)))
      as ->
  end.
  { unfold released. destruct (truthy (path f)) eqn:Ep.
    - erewrite cleanup_present; [done..|]. cbn. by rewrite lookup_insert_eq.
    - by rewrite cleanup_absent by (cbn; auto). }
  rewrite Hq. cbn. rewrite retrieve_run. cbn.
  rewrite <- (assoc_L (++)). cbn [app].
  match goal with
  | |- context [generate _ _ _ _ ?W] =>
      change W with
        (set_calls (calls w ++ Transcribe (path f)
                    :: retrieval_calls env (or_else (question req) t))
           (released f w))
  end.
  match goal with |- context [generate ?e ?c ?q ?t ?W] =>
    destruct (generate_outcome c q t W) as [H|H];
    destruct (generate e c q t W) as [o W']; cbn in H; by subst o
  end.
Qed.

(** Generation changes the log of calls and the response, nothing else. *)
Lemma generate_files ctx q t w : files (generate env ctx q t w).2 = files w.
Proof.
  destruct (chat env (systemPrompt ctx) q) as [[raw|]|err] eqn:E;
    [destruct (truthy raw) eqn:Er;
     [rewrite (generate_ok _ _ _ _ _ E Er) | rewrite (generate_empty _ _ _ _ _ E Er)]
    |rewrite (generate_empty _ _ _ _ _ E eq_refl)
    |rewrite (generate_raise _ _ _ _ _ E)]; done.
Qed.

(** After a successful transcription the audio file is gone. *)
Lemma ask_releases_audio req f t w :
  method req = POST → upload req = Ok (Some f) → ask_configured env →
  transcribe env (path f) = Ok t → truthy (path f) = true →
  files (run req env w) !! path f = None.
Proof.
  intros Hm Hu Hk Ht Hp. destruct (truthy (or_else (question req) t)) eqn:Hq.
  - rewrite (ask_pipeline _ _ _ _ Hm Hu Hk Ht Hq), generate_files.
    unfold released. rewrite Hp. cbn. apply lookup_delete_eq.
  - unfold run, askHandler. rewrite Hm, bool_decide_true by done.
    cbn [negb]. rewrite (read_question_file _ _ Hu).
  unfold transcribe_audio, runMiddleware. monad.
    rewrite Hu, (unset_keys Hk), Ht. cbn.
    erewrite cleanup_present; [|done..|cbn; by rewrite lookup_insert_eq].
    rewrite Hq. cbn. apply lookup_delete_eq.
Qed.

(** A failed transcription leaves the audio file on disk. *)
Lemma ask_transcription_leak req f e w :
  method req = POST → upload req = Ok (Some f) → ask_configured env →
  transcribe env (path f) = Raise e →
  files (run req env w) !! path f = Some (content f).
Proof.
  intros Hm Hu Hk Ht. rewrite (ask_transcription_fails _ _ _ _ Hm Hu Hk Ht).
  cbn. apply lookup_insert_eq.
Qed.

End AskFacts.

(** ** The retrieval stage *)

Section RetrievalFacts.

Import Ask.

Implicit Types ms : list Match.

Lemma filter_texts ms :
  default [] <$> List.filter boolean (m_text <$> ms) = texts (kept ms).
Proof.
  unfold texts, kept, with_text. induction ms as [|m ms IH]; [done|]. cbn.
  destruct (boolean (m_text m)); cbn; by rewrite IH.
Qed.

Lemma kept_with_text ms m : m ∈ kept ms → with_text m = true.
Proof. unfold kept. rewrite list_elem_of_In, filter_In. by intros [_ ?]. Qed.

Lemma join_texts_truthy ms : kept ms ≠ [] → truthy (join separator (texts (kept ms))) = true.
Proof.
  pose proof (kept_with_text ms) as H. destruct (kept ms) as [|m l]; [done|].
  intros _. specialize (H m (list_elem_of_here _ _)).
  unfold with_text, boolean in H. cbn.
  destruct (m_text m) as [[|c t]|]; try done. by destruct l.
Qed.

Lemma format_context_kept r :
  format_context r =
    match kept (default [] (matches r)) with
    | [] => no_context
    | _ :: _ => join separator (texts (kept (default [] (matches r))))
    end.
Proof.
  unfold format_context. destruct (matches r) as [ms|]; [|done].
  change (default [] (Some ms)) with ms.
  cbn [fmap option_fmap option_map]. rewrite filter_texts. pose proof (join_texts_truthy ms) as H.
  destruct (kept ms) as [|m l]; [reflexivity|]. unfold or_else. by rewrite H.
Qed.

Lemma kept_sublist ms : kept ms `sublist_of` ms.
Proof.
  unfold kept. induction ms as [|m ms IH]; [done|]. cbn.
  destruct (with_text m); by constructor.
Qed.

Lemma kept_descending ms : descending ms → descending (kept ms).
Proof.
  unfold descending, kept. induction 1 as [|m ms Hs IH Hall]; [constructor|].
  cbn. destruct (with_text m); [|done]. constructor; [done|].
  apply Forall_forall. intros x Hx. rewrite Forall_forall in Hall. apply Hall.
  eapply elem_of_sublist; [exact Hx | apply kept_sublist].
Qed.

Lemma kept_all ms : Forall (λ m, with_text m = true) ms → kept ms = ms.
Proof.
  unfold kept. induction 1 as [|m ms Hm _ IH]; [done|]. cbn. by rewrite Hm, IH.
Qed.

Lemma markers_differ : context_error ≠ no_context.
Proof. by vm_compute. Qed.

End RetrievalFacts.

(** C2, in the form the code satisfies: the retrieval stage never fails the
    request. It always completes normally, changing nothing but the log of
    calls; it yields the "error retrieving context" marker when the embedding
    call or the index query raises, the distinct "no relevant context" marker
    when no match carries a non-empty text (in particular with zero matches),
    and otherwise the non-empty matched texts (all the matched texts when each
    match has one), in the order the index returned them (so by descending
    score when the index lists them so), joined with the separator; the
    generation call is then issued with that context. *)
Theorem retrieval_never_fails (env : Ask.Env) (q : jstring) (w : World) :
  ∃ ctx evs,
    Ask.retrieve env q w = (Normal ctx, set_calls (calls w ++ evs) w)
    ∧ (∀ e, Ask.embedQuery env q = Raise e → ctx = Ask.context_error)
    ∧ (∀ v e, Ask.embedQuery env q = Ok v → Ask.query env v 5 = Raise e →
         ctx = Ask.context_error)
    ∧ (∀ v r, Ask.embedQuery env q = Ok v → Ask.query env v 5 = Ok r →
         let ms := default [] (matches r) in
         (kept ms = [] → ctx = Ask.no_context)
         ∧ (kept ms ≠ [] → ctx = join Ask.separator (texts (kept ms)))
         ∧ kept ms `sublist_of` ms
         ∧ (Forall (λ m, with_text m = true) ms → kept ms = ms)
         ∧ (descending ms → descending (kept ms)))
    ∧ Ask.context_error ≠ Ask.no_context
    ∧ (∀ t, ChatCompletion (Ask.systemPrompt ctx) q
            ∈ calls ((let* context := Ask.retrieve env q in
                      Ask.generate env context q t) w).2).
Proof.
  exists (context_of env q), (retrieval_calls env q).
  split; [apply retrieve_run|].
  split; [|split; [|split; [|split; [apply markers_differ|]]]].
  - intros e He. pose proof (retrieve_run env q start) as H.
    rewrite (retrieve_embed_fails _ _ _ _ He) in H. by injection H.
  - intros v e Hv He. pose proof (retrieve_run env q start) as H.
    rewrite (retrieve_query_fails _ _ _ _ _ Hv He) in H. by injection H.
  - intros v r Hv Hr ms. pose proof (retrieve_run env q start) as H.
    rewrite (retrieve_ok _ _ _ _ _ Hv Hr) in H. injection H as Hc _.
    rewrite <- Hc, format_context_kept. fold ms.
    split; [by intros ->|]. split; [by destruct (kept ms)|].
    split; [apply kept_sublist|]. split; [apply kept_all | apply kept_descending].
  - intros t. unfold bind. rewrite retrieve_run.
    match goal with |- context [Ask.generate ?e ?c ?q ?t ?W] =>
      destruct (Ask.chat e (Ask.systemPrompt c) q) as [[raw|]|err] eqn:E;
      [destruct (truthy raw) eqn:Er;
       [rewrite (generate_ok e c q t raw W E Er)
       |rewrite (generate_empty e c q t _ W E Er)]
      |rewrite (generate_empty e c q t _ W E eq_refl)
      |rewrite (generate_raise e c q t _ W E)]
    end; cbn; set_solver.
Qed.

(** On a healthy index the context is the text of the one match. *)
Lemma retrieval_never_fails_witness :
  ∃ ctx evs,
    Ask.retrieve Scenario.healthy (lit "what is npv") start
      = (Normal ctx, set_calls (calls start ++ evs) start)
    ∧ ctx = lit "NPV discounts future cash flows.".
Proof.
  destruct (retrieval_never_fails Scenario.healthy (lit "what is npv") start)
    as (ctx & evs & Hrun & _ & _ & Hok & _).
  exists ctx, evs. split; [done|].
  destruct (Hok [1; 0]%Q {| matches := Some [Scenario.npv_match] |} eq_refl eq_refl)
    as (_ & Hjoin & _).
  rewrite Hjoin; [by vm_compute | discriminate].
Defined.

(** C2 is refuted as the specification words it: the index query succeeds with
    a match, the match has no text, and the stage yields the marker kept for
    zero matches instead of the joined texts of the matches. *)
Lemma retrieval_counterexample :
  let q := lit "what is npv" in
  Ask.embedQuery Scenario.textless_index q = Ok [1; 0]%Q
  ∧ Ask.query Scenario.textless_index [1; 0]%Q 5
    = Ok {| matches := Some [Scenario.bare_match] |}
  ∧ (Ask.retrieve Scenario.textless_index q start).1 = Normal Ask.no_context
  ∧ Ask.no_context ≠ join Ask.separator (texts [Scenario.bare_match]).
Proof. split; [done|]. split; [done|]. split; [done|]. by vm_compute. Qed.

(** ** The parsed response *)

(** C3, in the form the code satisfies: when the raw output contains the
    marker, the answer is the trimmed text between the first marker and the
    next one (all the text after the marker when it occurs once), provided
    that trimmed text is not empty; when it is empty, the answer is the raw
    text with the reasoning block removed, trimmed. *)
Theorem answer_after_first_marker (raw pre post seg : jstring) :
  first_occurrence marker raw pre post →
  answer_segment post seg →
  (¬ blank seg → answer (parse raw) = trim seg)
  ∧ (blank seg → answer (parse raw) = trim (strip_block raw)).
Proof.
  intros Hf Hseg. rewrite parse_answer.
  rewrite (split_marker_segment _ _ _ _ Hf Hseg). cbn [fmap option_fmap option_map].
  split; intros H; [by apply or_else_trim | by apply or_else_blank].
Qed.

(** C3 is refuted as the specification words it: with two markers the answer
    stops at the second one instead of taking all the text after the first. *)
Lemma answer_after_marker_counterexample :
  let raw := lit "a###b###c" in
  first_occurrence marker raw (lit "a") (lit "b###c")
  ∧ answer (parse raw) = lit "b"
  ∧ answer (parse raw) ≠ trim (lit "b###c").
Proof.
  split; [by apply cut_first_occurrence|]. split; [by vm_compute|].
  vm_compute. discriminate.
Qed.

(** The example of the specification: one marker, the answer after it. *)
Lemma answer_after_first_marker_witness :
  answer (parse (lit "<scratchpad>think</scratchpad>###  final ")) = lit "final".
Proof.
  refine (proj1 (answer_after_first_marker
    (lit "<scratchpad>think</scratchpad>###  final ")
    (lit "<scratchpad>think</scratchpad>") (lit "  final ") (lit "  final ") _ _) _).
  - by apply cut_first_occurrence.
  - left. split; [by apply cut_None | done].
  - intros H. apply trim_nil in H. vm_compute in H. discriminate.
Defined.

(** C4, in the form the code satisfies: when the raw output has no marker, the
    answer is the raw text with the reasoning block removed, trimmed; it is
    non-empty exactly when something other than white space is left outside
    the block (so it is empty for an output that is only a reasoning block).
    The parser is total: whatever non-empty text the model returns, the
    handler answers 200 with both the answer and the scratchpad. *)
Theorem fallback_answer (raw : jstring) :
  ¬ contains marker raw → raw ≠ [] →
  answer (parse raw) = trim (strip_block raw)
  ∧ (∀ pre body post, first_block raw pre body post → strip_block raw = pre ++ post)
  ∧ (¬ has_block raw → strip_block raw = raw)
  ∧ (answer (parse raw) ≠ [] ↔ ¬ blank (strip_block raw))
  ∧ (∀ env context queryText transcription w,
       Ask.chat env (Ask.systemPrompt context) queryText = Ok (Some raw) →
       (Ask.generate env context queryText transcription w).1 = Normal ()
       ∧ sent (Ask.generate env context queryText transcription w).2
         = Some {| status := 200;
                   body := BJson [("answer", JStr (answer (parse raw)));
                                  ("scratchpad", JStr (scratchpad (parse raw)));
                                  ("transcription", JStr transcription)] |}).
Proof.
  intros Hno Hraw. rewrite parse_answer, (split_marker_absent _ Hno).
  cbn [fmap option_fmap option_map or_else].
  split; [done|]. split; [apply strip_block_first|].
  split; [apply strip_block_none|]. split; [by rewrite trim_nil|].
  intros env context queryText transcription w Hchat.
  rewrite (generate_ok env _ _ _ raw w Hchat) by (by destruct raw).
  split; [done|]. cbn. by rewrite parse_answer, (split_marker_absent _ Hno).
Qed.

(** C4 is refuted as the specification words it: an output that is only a
    reasoning block gets the empty answer. *)
Lemma fallback_answer_counterexample :
  let raw := lit "<scratchpad>think</scratchpad>" in
  raw ≠ [] ∧ ¬ contains marker raw ∧ answer (parse raw) = [].
Proof.
  split; [discriminate|]. split; [by apply cut_None | by vm_compute].
Qed.

(** A plain answer, no marker and no reasoning block. *)
Lemma fallback_answer_witness :
  answer (parse (lit " buy low, sell high ")) = lit "buy low, sell high".
Proof.
  refine (eq_trans (proj1 (fallback_answer (lit " buy low, sell high ") _ _)) _).
  - by apply cut_None.
  - discriminate.
  - by vm_compute.
Defined.



(** ** Fatal errors of the ask handler *)

(** C1, in the form the code satisfies: when a stage of the ask handler raises
    a fatal error, the response is a 500 that carries the stage's fixed error
    message and the message of the error caught, and nothing else: no field
    produced before the failure is returned. The stages after the failing one
    are not run. In particular, when generation fails after a successful
    transcription, the payload has no transcription. *)
Theorem fatal_error_response (req : Ask.Request) (env : Ask.Env)
  (f : UploadedFile) (w : World) :
  Ask.method req = POST → Ask.upload req = Ok (Some f) → ask_configured env →
  (∀ e, Ask.transcribe env (path f) = Raise e →
     sent (Ask.run req env w)
       = Some (error_response (lit "Failed to transcribe audio.") e)
     ∧ calls (Ask.run req env w) = calls w ++ [Transcribe (path f)])
  ∧ (∀ t e, Ask.transcribe env (path f) = Ok t →
       let q := or_else (Ask.question req) t in
       truthy q = true →
       Ask.chat env (Ask.systemPrompt (context_of env q)) q = Raise e →
       sent (Ask.run req env w)
         = Some (error_response (lit "Failed to get answer from AI model.") e)
       ∧ field "transcription"
           (error_response (lit "Failed to get answer from AI model.") e) = None
       ∧ calls (Ask.run req env w)
         = calls w ++ Transcribe (path f) :: retrieval_calls env q
           ++ [ChatCompletion (Ask.systemPrompt (context_of env q)) q]).
Proof.
  intros Hm Hu Hk. split.
  - intros e He. by rewrite (ask_transcription_fails _ _ _ _ _ Hm Hu Hk He).
  - intros t e Ht q Hq He.
    rewrite (ask_pipeline _ _ _ _ _ Hm Hu Hk Ht Hq).
    fold q. rewrite (generate_raise _ _ _ _ _ _ He). cbn.
    split; [done|]. split; [done|]. by rewrite <- (assoc_L (++)).
Qed.

(** Generation fails after a successful transcription. *)
Lemma fatal_error_response_witness :
  sent (Ask.run Scenario.audio_request Scenario.generation_down start)
  = Some (error_response (lit "Failed to get answer from AI model.")
            (Error (lit "429 rate limit"))).
Proof.
  refine (proj1 (proj2 (fatal_error_response Scenario.audio_request
    Scenario.generation_down Scenario.recording start eq_refl eq_refl _)
    (lit "what is npv") (Error (lit "429 rate limit")) eq_refl eq_refl eq_refl)).
  by repeat split.
Defined.

(** C1 is refuted as the specification words it: the transcription succeeded,
    generation failed, and the response has the error but not the
    transcription. *)
Lemma fatal_error_counterexample :
  let req := Scenario.audio_request in
  let env := Scenario.generation_down in
  Ask.transcribe env (path Scenario.recording) = Ok (lit "what is npv")
  ∧ ∃ r, sent (Ask.run req env start) = Some r
         ∧ status r = 500
         ∧ field "error" r = Some (JStr (lit "Failed to get answer from AI model."))
         ∧ field "transcription" r = None.
Proof. split; [done|]. eexists. split; [by vm_compute|]. by vm_compute. Qed.




(** C10, the code at the failing input: Whisper rejects the call, the handler
    answers 500 and returns, and the audio file Multer wrote is still on disk. *)
Theorem audio_file_left_behind :
  let w := Ask.run Scenario.audio_request Scenario.transcription_down start in
  sent w = Some (error_response (lit "Failed to transcribe audio.")
                   (Error (lit "503 unavailable")))
  ∧ files w !! path Scenario.recording = Some (content Scenario.recording).
Proof.
  cbn zeta.
  rewrite (ask_transcription_fails Scenario.transcription_down Scenario.audio_request
             Scenario.recording (Error (lit "503 unavailable")) start)
    by (done || by repeat split).
  split; [done|]. cbn. apply lookup_insert_eq.
Qed.

(** ** Temporary files of the text-to-speech handler *)

Section TtsFacts.

Import Tts.

Variable env : Env.

Lemma temp_path_truthy : truthy (temp_path env) = true.
Proof. unfold temp_path. by destruct (tmpdir env). Qed.

(** With a path noted in the variable, the cleanup leaves no file there. *)
Lemma cleanup_files reset p w :
  path_var w = Some p → truthy p = true →
  ∃ pv, cleanup reset w = (Normal (), set_path_var pv (set_files (delete p (files w)) w)).
Proof.
  intros Hp Ht. destruct (files w !! p) as [data|] eqn:E.
  - rewrite (cleanup_present reset p w Hp Ht) by done.
    destruct reset; [by exists None|]. exists (Some p).
    destruct w; cbn in *. by subst.
  - rewrite cleanup_absent by (rewrite Hp; auto).
    exists (Some p). rewrite (delete_id _ _ E). destruct w; cbn in *. by subst.
Qed.

(** The synthesis step leaves no file at the temporary path, whether the
    speech call or the write fails or both succeed. *)
Lemma synthesize_releases t w :
  path_var w = Some (temp_path env) →
  files (synthesize env t (temp_path env) w).2 = delete (temp_path env) (files w).
Proof.
  intros Hp. unfold synthesize, writeFileSync, readFileSync. monad.
  destruct (textToSpeech env t) as [audio|e]; cbn.
  - destruct (writeFile env (temp_path env) audio) as [|e [part|]]; cbn.
    + rewrite lookup_insert_eq. cbn.
      edestruct (cleanup_files true (temp_path env)) as [pv ->];
        [| apply temp_path_truthy |]; [done|].
      cbn. apply delete_insert_eq.
    + edestruct (cleanup_files false (temp_path env)) as [pv ->];
        [| apply temp_path_truthy |]; [done|].
      cbn. apply delete_insert_eq.
    + edestruct (cleanup_files false (temp_path env)) as [pv ->];
        [| apply temp_path_truthy |]; [done|].
      done.
  - edestruct (cleanup_files false (temp_path env)) as [pv ->];
      [| apply temp_path_truthy |]; [done|].
    done.
Qed.

(** On every exit path of the text-to-speech handler the temporary file is
    gone: the file system is as before the request, up to that path. *)
Lemma tts_releases_file req w :
  files (run req env w) = files w
  ∨ files (run req env w) = delete (temp_path env) (files w).
Proof.
  unfold run, ttsHandler. destruct (bool_decide (method req = POST)); [|by left].
  cbn [negb]. unfold bad_text, read_text. monad. cbn.
  destruct (req_body req) as [msg|txt]; cbn.
  { rewrite cleanup_absent by done. by left. }
  destruct txt as [[t|n]|]; [|by left..].
  destruct (truthy t); [|by left]. cbn.
  destruct (unset (ELEVENLABS_API_KEY env)); [by left|]. cbn. right.
  match goal with |- context [synthesize env t (temp_path env) ?W] =>
    pose proof (synthesize_releases t W eq_refl) as H;
    destruct (synthesize env t (temp_path env) W) as [[| |e] W'] eqn:Hs
  end; cbn in H |- *; [done..|].
  exfalso. revert Hs. unfold synthesize, writeFileSync, readFileSync. monad.
  destruct (textToSpeech env t) as [audio|e']; cbn.
  - destruct (writeFile env (temp_path env) audio) as [|e'' [part|]]; cbn.
    + rewrite lookup_insert_eq. cbn.
      edestruct (cleanup_files true (temp_path env)) as [pv ->];
        [| apply temp_path_truthy |]; [done|]. done.
    + edestruct (cleanup_files false (temp_path env)) as [pv ->];
        [| apply temp_path_truthy |]; [done|]. done.
    + edestruct (cleanup_files false (temp_path env)) as [pv ->];
        [| apply temp_path_truthy |]; [done|]. done.
  - edestruct (cleanup_files false (temp_path env)) as [pv ->];
      [| apply temp_path_truthy |]; [done|]. done.
Qed.

End TtsFacts.

(** ** The upload handler: embedding loop and upsert loop *)

Section UploadFacts.

Import Upload.

Variable env : Env.

Lemma embedded_or_not i chunks :
  all_embedded env i chunks ∨ some_embedding_fails env i chunks.
Proof.
  revert i. induction chunks as [|c rest IH]; intros i.
  - left. by intros j chunk.
  - destruct (embedQuery env i (pageContent c)) as [v|e] eqn:E.
    + destruct (IH (S i)) as [Hall|(j & chunk & e & Hj & He)].
      * left. intros [|j] chunk Hc; cbn in Hc.
        -- injection Hc as <-. exists v. by rewrite Nat.add_0_r.
        -- rewrite Nat.add_succ_r. by apply Hall.
      * right. exists (S j), chunk, e. split; [done|]. by rewrite Nat.add_succ_r.
    + right. exists 0, c, e. split; [done|]. by rewrite Nat.add_0_r.
Qed.

Lemma embed_loop_fails fileName rest i acc w :
  some_embedding_fails env i rest →
  ∃ e n, embed_loop env fileName rest i acc w
         = (Throw e, set_calls (calls w ++ embed_calls (take n rest)) w).
Proof.
  revert i acc w. induction rest as [|c rest IH]; intros i acc w (j & chunk & e & Hj & He).
  - done.
  - cbn [embed_loop]. monad.
    destruct (embedQuery env i (pageContent c)) as [v|e'] eqn:E.
    + destruct j as [|j]; cbn in Hj.
      { injection Hj as <-. rewrite Nat.add_0_r in He. congruence. }
      edestruct (IH (S i)) as (e2 & n & ->).
      { exists j, chunk, e. split; [done|]. by rewrite Nat.add_succ_comm. }
      exists e2, (S n). cbn. by rewrite <- (assoc_L (++)).
    + by exists e', 1.
Qed.

Lemma embed_loop_ok fileName rest i acc w :
  all_embedded env i rest →
  embed_loop env fileName rest i acc w
  = (Normal (acc ++ built env fileName i rest),
     set_calls (calls w ++ embed_calls rest) w).
Proof.
  revert i acc w. induction rest as [|c rest IH]; intros i acc w Hall.
  - cbn. monad. rewrite !(right_id_L [] (++)). by destruct w.
  - cbn [embed_loop built]. monad.
    destruct (Hall 0 c eq_refl) as [v Hv]. rewrite Nat.add_0_r in Hv.
    unfold embedding_at. rewrite Hv. rewrite IH.
    + cbn. by rewrite <- !(assoc_L (++)).
    + intros j chunk Hj. rewrite Nat.add_succ_comm. by apply Hall.
Qed.

Lemma slice_app {A} (l : list A) a b c :
  a ≤ b → b ≤ c → slice a b l ++ slice b c l = slice a c l.
Proof.
  intros Hab Hbc. unfold slice.
  replace (drop b l) with (drop (b - a) (drop a l))
    by (rewrite drop_drop; f_equal; lia).
  rewrite take_take_drop. f_equal. lia.
Qed.

Lemma upsert_loop_unfold vectors i :
  upsert_loop env vectors i =
    if decide (i < length vectors)
    then index_upsert env i (slice i (i + batchSize) vectors)
         >> upsert_loop env vectors (i + batchSize)
    else ret ().
Proof. rewrite upsert_loop_equation_1. by destruct (decide _). Qed.

Lemma upsert_loop_fails vectors e k : ∀ i w,
  upsert_fails_at env vectors i k e →
  ∃ evs, upsert_loop env vectors i w
         = (Throw e,
            set_index (index w ++ slice i (i + k * batchSize) vectors)
              (set_calls (calls w ++ evs) w))
         ∧ Forall (λ ev, is_upsert ev = true) evs ∧ length evs = S k.
Proof.
  unfold upsert_fails_at.
  induction k as [|k IH]; intros i w (Hlt & Hok & Hfail).
  - rewrite upsert_loop_unfold, decide_True by lia.
    replace (i + 0 * batchSize) with i in * by lia.
    unfold index_upsert. monad. rewrite Hfail.
    exists [IndexUpsert (slice i (i + batchSize) vectors)].
    split; [|split; [by repeat constructor | done]].
    unfold slice. rewrite Nat.sub_diag, take_0, (right_id_L [] (++)). by destruct w.
  - rewrite upsert_loop_unfold, decide_True by (unfold batchSize in *; lia).
    assert (upsert env i (slice i (i + batchSize) vectors) = Ok ()) as H0.
    { specialize (Hok 0 (Nat.lt_0_succ k)).
      by replace (i + 0 * batchSize) with i in Hok by lia. }
    unfold index_upsert. monad. rewrite H0. cbv beta iota.
    edestruct (IH (i + batchSize)) as (evs & -> & Hup & Hlen).
    { split; [unfold batchSize in *; lia|]. split.
      - intros j Hj.
        replace (i + batchSize + j * batchSize) with (i + S j * batchSize)
          by (unfold batchSize; lia).
        apply Hok. lia.
      - by replace (i + batchSize + k * batchSize) with (i + S k * batchSize)
          by (unfold batchSize; lia). }
    exists (IndexUpsert (slice i (i + batchSize) vectors) :: evs).
    split; [|split; [by constructor | cbn [length]; by rewrite Hlen]].
    cbn [index calls set_index set_calls]. rewrite <- !(assoc_L (++)).
    rewrite slice_app by (unfold batchSize; lia).
    replace (i + batchSize + k * batchSize) with (i + S k * batchSize)
      by (unfold batchSize; lia).
    reflexivity.
Qed.

(** The upsert loop always ends, by running past the last batch or by a
    rejected upsert, and issues nothing but upserts. *)
Lemma upsert_loop_calls vectors i w :
  ∃ o ix evs,
    upsert_loop env vectors i w = (o, set_index ix (set_calls (calls w ++ evs) w))
    ∧ Forall (λ ev, is_upsert ev = true) evs ∧ o ≠ Return.
Proof.
  remember (length vectors - i) as n eqn:Hn. revert i w Hn.
  induction n as [n IH] using lt_wf_ind. intros i w ->.
  rewrite upsert_loop_unfold. destruct (decide (i < length vectors)) as [Hi|Hi].
  - unfold index_upsert. monad.
    destruct (upsert env i (slice i (i + batchSize) vectors)) as [[]|e]; cbv beta iota.
    + edestruct (IH (length vectors - (i + batchSize))) as (o & ix & evs & -> & Hup & Ho);
        [unfold batchSize; lia | reflexivity |].
      exists o, ix, (IndexUpsert (slice i (i + batchSize) vectors) :: evs).
      split; [|split; [by constructor|]].
      * cbn [index calls set_index set_calls]. by rewrite <- !(assoc_L (++)).
      * by destruct o.
    + exists (Throw e), (index w), [IndexUpsert (slice i (i + batchSize) vectors)].
      split; [by destruct w | split; [by repeat constructor | done]].
  - exists (Normal ()), (index w), []. split; [|split; [constructor | done]].
    monad. rewrite (right_id_L [] (++)). by destruct w.
Qed.

(** When the index accepts every batch, all the records end up in it. *)
Lemma upsert_loop_ok vectors i w :
  (∀ j batch, upsert env j batch = Ok ()) →
  ∃ evs,
    upsert_loop env vectors i w
    = (Normal (), set_index (index w ++ drop i vectors) (set_calls (calls w ++ evs) w))
    ∧ Forall (λ ev, is_upsert ev = true) evs.
Proof.
  intros Hok. remember (length vectors - i) as n eqn:Hn. revert i w Hn.
  induction n as [n IH] using lt_wf_ind. intros i w ->.
  rewrite upsert_loop_unfold. destruct (decide (i < length vectors)) as [Hi|Hi].
  - unfold index_upsert. monad. rewrite Hok. cbv beta iota.
    edestruct (IH (length vectors - (i + batchSize))) as (evs & -> & Hup);
      [unfold batchSize; lia | reflexivity |].
    exists (IndexUpsert (slice i (i + batchSize) vectors) :: evs).
    split; [|by constructor].
    cbn [index calls set_index set_calls]. rewrite <- !(assoc_L (++)).
    unfold slice. replace (i + batchSize - i) with batchSize by lia.
    replace (drop (i + batchSize) vectors) with (drop batchSize (drop i vectors))
      by (rewrite drop_drop; f_equal).
    by rewrite take_drop.
  - exists []. split; [|constructor]. monad.
    rewrite drop_ge by lia. rewrite !(right_id_L [] (++)). by destruct w.
Qed.

Lemma upload_keys : upload_configured env →
  unset (PINECONE_API_KEY env) || unset (PINECONE_ENVIRONMENT env)
  || unset (OPENAI_API_KEY env) = false.
Proof. by intros (-> & -> & ->). Qed.

Lemma ingest_embedding_fails fileName chunks w :
  some_embedding_fails env 0 chunks →
  ∃ e n,
    embed_and_upsert env fileName chunks w
    = (Return,
       set_sent (Some (error_response (lit "Failed to generate embeddings.") e))
         (set_calls (calls w ++ embed_calls (take n chunks)) w)).
Proof.
  intros H. unfold embed_and_upsert, embed_all. unfold bind at 1, try_catch.
  destruct (embed_loop_fails fileName chunks 0 [] w H) as (e & n & ->).
  by exists e, n.
Qed.

Lemma built_length fileName i chunks : length (built env fileName i chunks) = length chunks.
Proof. revert i. induction chunks as [|c rest IH]; intros i; cbn; by rewrite ?IH. Qed.

Lemma ingest_upsert_fails fileName chunks k e w :
  all_embedded env 0 chunks →
  upsert_fails_at env (built env fileName 0 chunks) 0 k e →
  ∃ evs,
    embed_and_upsert env fileName chunks w
    = (Return,
       set_sent (Some (error_response (lit "Failed to save embeddings to database.") e))
         (set_index (index w ++ take (k * batchSize) (built env fileName 0 chunks))
            (set_calls (calls w ++ embed_calls chunks ++ evs) w)))
    ∧ Forall (λ ev, is_upsert ev = true) evs ∧ length evs = S k.
Proof.
  intros Hall Hfail. unfold embed_and_upsert, embed_all. unfold bind at 1, try_catch at 1.
  rewrite (embed_loop_ok fileName chunks 0 [] w Hall). cbv beta iota.
  unfold upsert_all. rewrite bool_decide_true by (destruct Hfail; cbn in *; lia).
  unfold bind at 1, try_catch.
  edestruct (upsert_loop_fails (built env fileName 0 chunks) e k 0)
    as (evs & -> & Hup & Hlen); [exact Hfail|].
  exists evs. split; [|done]. monad. cbn.
  rewrite <- !(assoc_L (++)). unfold slice. by rewrite Nat.sub_0_r.
Qed.

Lemma ingest_ok fileName chunks w :
  all_embedded env 0 chunks → (∀ j batch, upsert env j batch = Ok ()) →
  ∃ evs,
    embed_and_upsert env fileName chunks w
    = (Normal (),
       set_sent (Some (ingested_response fileName (length chunks)))
         (set_index (index w ++ built env fileName 0 chunks)
            (set_calls (calls w ++ embed_calls chunks ++ evs) w)))
    ∧ Forall (λ ev, is_upsert ev = true) evs.
Proof.
  intros Hall Hok. unfold embed_and_upsert, embed_all. unfold bind at 1, try_catch at 1.
  rewrite (embed_loop_ok fileName chunks 0 [] w Hall). cbv beta iota.
  unfold upsert_all. cbn [app]. unfold ingested_response.
  rewrite <- (built_length fileName 0 chunks).
  destruct (bool_decide (0 < length (built env fileName 0 chunks))) eqn:E.
  - unfold bind at 1, try_catch.
    edestruct (upsert_loop_ok (built env fileName 0 chunks) 0) as (evs & -> & Hup);
      [exact Hok|].
    exists evs. split; [|done]. monad. cbn. by rewrite <- !(assoc_L (++)).
  - exists []. split; [|constructor]. monad. cbn.
    apply bool_decide_eq_false in E.
    destruct (built env fileName 0 chunks); [|cbn in E; lia].
    rewrite !(right_id_L [] (++)). by destruct w.
Qed.

(** Whatever the index does, once the embeddings are there the handler issues
    only upserts, and answers. *)
Lemma ingest_calls fileName chunks w :
  all_embedded env 0 chunks →
  ∃ o sn ix evs,
    embed_and_upsert env fileName chunks w
    = (o, set_sent sn (set_index ix (set_calls (calls w ++ embed_calls chunks ++ evs) w)))
    ∧ Forall (λ ev, is_upsert ev = true) evs ∧ (∀ e, o ≠ Throw e).
Proof.
  intros Hall. unfold embed_and_upsert, embed_all. unfold bind at 1, try_catch at 1.
  rewrite (embed_loop_ok fileName chunks 0 [] w Hall). cbv beta iota.
  unfold upsert_all. cbn [app].
  destruct (bool_decide (0 < length (built env fileName 0 chunks))).
  - unfold bind at 1, try_catch.
    edestruct (upsert_loop_calls (built env fileName 0 chunks) 0)
      as (o & ix & evs & -> & Hup & Ho).
    destruct o as [[]| |e]; [|done|]; monad; cbn.
    + eexists _, _, ix, evs.
      split; [by rewrite <- !(assoc_L (++)) | split; [done | by intros]].
    + eexists _, _, ix, evs.
      split; [by rewrite <- !(assoc_L (++)) | split; [done | by intros]].
  - monad. cbn. eexists _, _, (index w), [].
    split; [by rewrite !(right_id_L [] (++)) | split; [constructor | by intros]].
Qed.

Lemma ingest_no_throw fileName chunks w e :
  (embed_and_upsert env fileName chunks w).1 ≠ Throw e.
Proof.
  destruct (embedded_or_not 0 chunks) as [Hall|Hfail].
  - destruct (ingest_calls fileName chunks w Hall) as (o & sn & ix & evs & -> & _ & Ho).
    apply Ho.
  - by destruct (ingest_embedding_fails fileName chunks w Hfail) as (e' & n & ->).
Qed.

(** A request that reaches the embedding loop: what is left to run. *)
Lemma upload_ingesting req f docs w :
  ingesting req env f docs →
  run req env w =
    (embed_and_upsert env (originalname f) (splitDocuments env docs)
       (set_calls (calls w ++ [LoadPdf (path f)]) (stored f w))).2.
Proof.
  intros (Hm & Hu & Hk & Hl & Hd & Hs). unfold run, uploadHandler.
  rewrite Hm, bool_decide_true by done. cbn [negb].
  unfold load_pdf, runMiddleware. monad.
  rewrite Hu. cbv beta iota. rewrite (upload_keys Hk). cbv beta iota. rewrite Hl.
  cbv beta iota. destruct docs as [|d ds]; [done|]. rewrite Hs. cbv beta iota.
  match goal with |- context [embed_and_upsert ?e ?n ?c ?W] =>
    pose proof (ingest_no_throw n c W) as Hno;
    change W with (set_calls (calls w ++ [LoadPdf (path f)]) (stored f w)) in *;
    destruct (embed_and_upsert e n c (set_calls (calls w ++ [LoadPdf (path f)]) (stored f w)))
      as [[[]| |err] W']
  end; [done..|]. by destruct (Hno err).
Qed.

End UploadFacts.

(** ** Ingestion *)

(** C6: when some chunk's embedding call fails, the ingestion aborts with the
    embedding error (500, "Failed to generate embeddings.") and nothing is
    upserted: the index is unchanged and no upsert call is issued. Every
    upsert call comes after all the embedding calls, all of which succeeded. *)
Theorem embedding_failure_aborts (req : Upload.Request) (env : Upload.Env)
  (f : UploadedFile) (docs : list Doc) (w : World) :
  ingesting req env f docs →
  (some_embedding_fails env 0 (Upload.splitDocuments env docs) →
     ∃ e evs,
       sent (Upload.run req env w)
         = Some (error_response (lit "Failed to generate embeddings.") e)
       ∧ index (Upload.run req env w) = index w
       ∧ calls (Upload.run req env w) = calls w ++ evs
       ∧ Forall (λ ev, is_upsert ev = false) evs)
  ∧ (∀ evs batch,
       calls (Upload.run req env w) = calls w ++ evs → IndexUpsert batch ∈ evs →
       all_embedded env 0 (Upload.splitDocuments env docs)
       ∧ ∃ ups, evs = LoadPdf (path f)
                      :: embed_calls (Upload.splitDocuments env docs) ++ ups
                ∧ Forall (λ ev, is_upsert ev = true) ups).
Proof.
  intros Hing. rewrite (upload_ingesting env req f docs w Hing).
  set (chunks := Upload.splitDocuments env docs).
  assert (some_embedding_fails env 0 chunks →
          ∃ e evs,
            sent (Upload.embed_and_upsert env (originalname f) chunks
                    (set_calls (calls w ++ [LoadPdf (path f)]) (stored f w))).2
              = Some (error_response (lit "Failed to generate embeddings.") e)
            ∧ index (Upload.embed_and_upsert env (originalname f) chunks
                    (set_calls (calls w ++ [LoadPdf (path f)]) (stored f w))).2
              = index w
            ∧ calls (Upload.embed_and_upsert env (originalname f) chunks
                    (set_calls (calls w ++ [LoadPdf (path f)]) (stored f w))).2
              = calls w ++ evs
            ∧ Forall (λ ev, is_upsert ev = false) evs) as Hfails.
  { intros Hfail.
    destruct (ingest_embedding_fails env (originalname f) chunks
                (set_calls (calls w ++ [LoadPdf (path f)]) (stored f w)) Hfail)
      as (e & n & ->).
    exists e, (LoadPdf (path f) :: embed_calls (take n chunks)).
    split; [done|]. split; [done|]. split; [cbn; by rewrite <- (assoc_L (++))|].
    constructor; [done|]. unfold embed_calls. apply Forall_fmap, Forall_true. done. }
  split; [done|]. intros evs batch Hcalls Hin.
  destruct (embedded_or_not env 0 chunks) as [Hall|Hfail].
  - split; [done|].
    destruct (ingest_calls env (originalname f) chunks
                (set_calls (calls w ++ [LoadPdf (path f)]) (stored f w)) Hall)
      as (o & sn & ix & ups & Hrun & Hups & _).
    rewrite Hrun in Hcalls. cbn in Hcalls.
    rewrite <- (assoc_L (++)) in Hcalls. apply app_inv_head in Hcalls.
    exists ups. by subst evs.
  - exfalso. destruct (Hfails Hfail) as (e & evs' & _ & _ & Hc & Hnone).
    rewrite Hc in Hcalls. apply app_inv_head in Hcalls. subst evs'.
    rewrite Forall_forall in Hnone. by specialize (Hnone _ Hin).
Qed.

(** The third of five embedding calls fails. *)
Lemma embedding_failure_aborts_witness :
  ∃ e evs,
    sent (Upload.run Scenario.upload_request Scenario.third_chunk_rejected start)
      = Some (error_response (lit "Failed to generate embeddings.") e)
    ∧ index (Upload.run Scenario.upload_request Scenario.third_chunk_rejected start)
      = index start
    ∧ calls (Upload.run Scenario.upload_request Scenario.third_chunk_rejected start)
      = calls start ++ evs
    ∧ Forall (λ ev, is_upsert ev = false) evs.
Proof.
  refine (proj1 (embedding_failure_aborts Scenario.upload_request
    Scenario.third_chunk_rejected Scenario.paper [Scenario.page] start _) _).
  - by repeat split.
  - exists 2, Scenario.page, (Error (lit "quota exceeded")). by split.
Defined.

(** C8, in the form the code satisfies: when a batch upsert fails, the
    response is a 500 with the fixed message "Failed to save embeddings to
    database." and the message of the index error; it carries no count. The
    batches written before the failure stay in the index. *)
Theorem upsert_failure_response (req : Upload.Request) (env : Upload.Env)
  (f : UploadedFile) (docs : list Doc) (w : World) (k : nat) (e : JsError) :
  ingesting req env f docs →
  all_embedded env 0 (Upload.splitDocuments env docs) →
  upsert_fails_at env
    (built env (originalname f) 0 (Upload.splitDocuments env docs)) 0 k e →
  sent (Upload.run req env w)
    = Some (error_response (lit "Failed to save embeddings to database.") e)
  ∧ (∀ key n,
       field key (error_response (lit "Failed to save embeddings to database.") e)
       ≠ Some (JNum n))
  ∧ index (Upload.run req env w)
    = index w ++ take (k * Upload.batchSize)
                   (built env (originalname f) 0 (Upload.splitDocuments env docs)).
Proof.
  intros Hing Hall Hfail. rewrite (upload_ingesting env req f docs w Hing).
  destruct (ingest_upsert_fails env (originalname f) _ k e
              (set_calls (calls w ++ [LoadPdf (path f)]) (stored f w)) Hall Hfail)
    as (evs & -> & _).
  split; [done|]. split; [|done].
  intros key n. unfold field, error_response. cbn.
  destruct (String.eqb key "error"); [done|]. by destruct (String.eqb key "details").
Qed.

(** The second of two batches is rejected. *)
Lemma upsert_failure_response_witness :
  sent (Upload.run Scenario.upload_request Scenario.second_batch_rejected start)
  = Some (error_response (lit "Failed to save embeddings to database.")
            (Error (lit "index unavailable"))).
Proof.
  refine (proj1 (upsert_failure_response Scenario.upload_request
    Scenario.second_batch_rejected Scenario.paper [Scenario.page] start 1
    (Error (lit "index unavailable")) _ _ _)).
  - by repeat split.
  - intros j chunk _. by exists [1; 0]%Q.
  - split; [vm_compute; lia|]. split; [|done].
    intros j Hj. by replace j with 0 by lia.
Defined.

(** C8 is refuted as the specification words it: one batch of 100 records was
    written, the second was rejected, and no field of the response holds the
    count. *)
Lemma upsert_failure_counterexample :
  let w := Upload.run Scenario.upload_request Scenario.second_batch_rejected start in
  length (index w) = 100
  ∧ ∃ r, sent w = Some r
         ∧ body r = BJson [("error", JStr (lit "Failed to save embeddings to database."));
                           ("details", JStr (lit "index unavailable"))]
         ∧ ∀ key, field key r ≠ Some (JNum 1).
Proof.
  split; [by vm_compute|]. eexists. split; [by vm_compute|]. split; [done|].
  intros key. unfold field. cbn.
  destruct (String.eqb key "error"); [done|]. by destruct (String.eqb key "details").
Qed.

(** ** The chunker contract and the record ids *)

Section ChunkerFacts.

Import Chunker.

Lemma windows_unfold size step text :
  windows size step text =
    if decide (size < length text ∧ 0 < step)
    then take size text :: windows size step (drop step text)
    else [text].
Proof. rewrite windows_equation_1. by destruct (decide _). Qed.

(** [ceil_div a b] is the ceiling of [a / b]. *)
Lemma ceil_div_spec a b n : 0 < b → 0 < a →
  ceil_div a b = n ↔ (n - 1) * b < a ∧ a ≤ n * b.
Proof.
  intros Hb Ha. unfold ceil_div.
  pose proof (Nat.div_mod_eq (a + (b - 1)) b) as Hdm.
  pose proof (Nat.mod_upper_bound (a + (b - 1)) b) as Hmod.
  split.
  - intros <-. split; nia.
  - intros [H1 H2]. destruct n as [|n]; [lia|].
    symmetry. apply (Nat.div_unique _ _ _ (a + (b - 1) - b * S n)); nia.
Qed.

Lemma ceil_div_one a b : 0 < a → a ≤ b → ceil_div a b = 1.
Proof. intros. apply ceil_div_spec; lia. Qed.

Lemma ceil_div_step a b : 0 < b → ceil_div (a + b) b = S (ceil_div a b).
Proof.
  intros Hb. unfold ceil_div.
  replace (a + b + (b - 1)) with (a + (b - 1) + 1 * b) by lia.
  rewrite Nat.div_add by lia. lia.
Qed.

Lemma windows_length size overlap : overlap < size → ∀ text,
  overlap < length text →
  length (windows size (size - overlap) text)
  = ceil_div (length text - overlap) (size - overlap).
Proof.
  intros Hov text. remember (length text) as n eqn:Hn. revert text Hn.
  induction n as [n IH] using lt_wf_ind. intros text -> Hlen.
  rewrite windows_unfold. destruct (decide _) as [[Hbig _]|Hsmall].
  - cbn [length]. rewrite (IH (length (drop (size - overlap) text)));
      [| rewrite length_drop; lia | done | rewrite length_drop; lia].
    rewrite length_drop, <- ceil_div_step by lia. f_equal. lia.
  - cbn [length]. symmetry. apply ceil_div_one; lia.
Qed.

Lemma windows_lookup size overlap : overlap < size → ∀ text i,
  i < length (windows size (size - overlap) text) →
  windows size (size - overlap) text !! i
  = Some (take size (drop (i * (size - overlap)) text)).
Proof.
  intros Hov text. remember (length text) as n eqn:Hn. revert text Hn.
  induction n as [n IH] using lt_wf_ind. intros text -> i.
  rewrite windows_unfold. destruct (decide _) as [[Hbig _]|Hsmall].
  - destruct i as [|i]; [done|]. cbn [length lookup list_lookup]. intros Hi.
    rewrite (IH (length (drop (size - overlap) text)));
      [| rewrite length_drop; lia | done | lia].
    rewrite drop_drop. do 3 f_equal; lia.
  - cbn [length]. intros Hi. replace i with 0 by lia.
    rewrite Nat.mul_0_l, drop_0, take_ge by lia. done.
Qed.

Lemma lit_inj : Inj (=) (=) lit.
Proof.
  intros s1 s2 H. unfold lit in H.
  apply (list_fmap_eq_inj (λ a, N_of_ascii a)) in H.
  - rewrite <- (string_of_list_ascii_of_string s1),
      <- (string_of_list_ascii_of_string s2). by rewrite H.
  - intros a1 a2 Ha. rewrite <- (ascii_N_embedding a1), <- (ascii_N_embedding a2).
    by rewrite Ha.
Qed.

Lemma chunk_id_inj fileName : Inj (=) (=) (Upload.chunk_id fileName).
Proof.
  intros i j H. unfold Upload.chunk_id in H.
  do 2 apply app_inv_head in H. apply lit_inj in H. by apply (inj pretty).
Qed.

Lemma built_ids env fileName i chunks :
  id <$> built env fileName i chunks
  = Upload.chunk_id fileName <$> seq i (length chunks).
Proof.
  revert i. induction chunks as [|c rest IH]; intros i; [done|].
  cbn. by rewrite IH.
Qed.

(** The records built for one document have pairwise distinct ids. *)
Lemma built_ids_unique env fileName chunks :
  NoDup (id <$> built env fileName 0 chunks).
Proof.
  rewrite built_ids. apply NoDup_fmap_2; [apply chunk_id_inj | apply NoDup_seq].
Qed.

End ChunkerFacts.

(** C7, in the form the chunker contract satisfies: for every text longer than
    the overlap and every valid (size, overlap), the chunker of the contract
    yields consecutive windows of [size] characters whose starts are [size -
    overlap] apart, and their number is the ceiling of (len - overlap) / (size
    - overlap); so a document of 2500 characters with size 1000 and overlap
    200 yields exactly 3 chunks. The records the upload handler builds for the
    chunks of a document have pairwise distinct ids. *)
Theorem chunk_count (text : jstring) (size overlap : nat) :
  overlap < size → overlap < length text →
  ∃ chunks,
    Chunker.chunk text size overlap = Chunker.Chunks chunks
    ∧ length chunks = Chunker.ceil_div (length text - overlap) (size - overlap)
    ∧ (∀ i, i < length chunks →
         chunks !! i = Some (take size (drop (i * (size - overlap)) text)))
    ∧ (length text = 2500 → size = 1000 → overlap = 200 → length chunks = 3)
    ∧ (∀ env fileName (docs : list Doc),
         length docs = length chunks →
         NoDup (id <$> built env fileName 0 docs)).
Proof.
  intros Hov Hlen. exists (Chunker.windows size (size - overlap) text).
  split.
  { unfold Chunker.chunk. rewrite bool_decide_false by lia.
    rewrite bool_decide_false; [done|]. intros ->. cbn in Hlen. lia. }
  split; [by apply windows_length|]. split; [by apply windows_lookup|].
  split.
  - intros Ht -> ->. rewrite windows_length, Ht by lia. done.
  - intros env fileName docs _. apply built_ids_unique.
Qed.

(** The document of 2500 characters. *)
Lemma chunk_count_witness :
  ∃ chunks,
    Chunker.chunk Scenario.long_text 1000 200 = Chunker.Chunks chunks
    ∧ length chunks = 3.
Proof.
  destruct (chunk_count Scenario.long_text 1000 200) as (chunks & Hc & _ & _ & H3 & _).
  - lia.
  - vm_compute. lia.
  - exists chunks. split; [done|]. by apply H3.
Defined.

(** C7 is refuted as the specification words it: on a document of 2500
    characters with size 1000 and overlap 200 the stated formula gives 3, and
    the windows of the contract are 3 (starting at 0, 800 and 1600), not 4. *)
Lemma chunk_count_counterexample :
  length Scenario.long_text = 2500
  ∧ Chunker.ceil_div (2500 - 200) (1000 - 200) = 3
  ∧ ∃ chunks,
      Chunker.chunk Scenario.long_text 1000 200 = Chunker.Chunks chunks
      ∧ length <$> chunks = [1000; 1000; 900]
      ∧ length chunks ≠ 4.
Proof.
  split; [by vm_compute|]. split; [by vm_compute|].
  eexists. split; [by vm_compute|]. split; [by vm_compute|]. by vm_compute.
Qed.

(** ** More on the parsed response *)

Section TrimFacts.

Implicit Types s t : jstring.

Lemma trim_start_id s :
  (∀ c t, s = c :: t → is_ws c = false) → trim_start s = s.
Proof.
  destruct s as [|c t]; [done|]. intros H. cbn. by rewrite (H c t eq_refl).
Qed.

Lemma trim_start_suffix s : ∃ a, s = a ++ trim_start s ∧ blank a.
Proof.
  induction s as [|c s (a & IH & Ha)]; [exists []; split; [done | constructor]|].
  cbn. destruct (is_ws c) eqn:E.
  - exists (c :: a). split; [cbn; by rewrite <- IH | by constructor].
  - exists []. split; [done | constructor].
Qed.

Lemma trim_start_snoc s x :
  is_ws x = false → ∃ t, trim_start (s ++ [x]) = t ++ [x].
Proof.
  intros Hx. induction s as [|c s [t IH]]; cbn.
  - rewrite Hx. by exists [].
  - destruct (is_ws c); [by exists t|]. by exists (c :: s).
Qed.

(** What [trim] returns neither starts nor ends with white space. *)
Lemma trim_head s c t : trim s = c :: t → is_ws c = false.
Proof.
  unfold trim, trim_end. destruct (trim_start s) as [|x u] eqn:E; [done|].
  pose proof (trim_start_head _ _ _ E) as Hx.
  rewrite reverse_cons. destruct (trim_start_snoc (reverse u) x Hx) as [v ->].
  rewrite reverse_snoc. by intros [= <- _].
Qed.

Lemma trim_last s c t : trim s = t ++ [c] → is_ws c = false.
Proof.
  unfold trim, trim_end. intros H. apply (f_equal reverse) in H.
  rewrite reverse_involutive, reverse_snoc in H. by apply trim_start_head in H.
Qed.

Lemma trim_idem s : trim (trim s) = trim s.
Proof.
  unfold trim at 1. rewrite trim_start_id by apply trim_head.
  unfold trim_end. rewrite trim_start_id; [by rewrite reverse_involutive|].
  intros c t H. apply (f_equal reverse) in H.
  rewrite reverse_involutive, reverse_cons in H. by apply trim_last in H.
Qed.

(** [trim] cuts white space off both ends and nothing else. *)
Lemma trim_infix s : ∃ a b, s = a ++ trim s ++ b ∧ blank a ∧ blank b.
Proof.
  destruct (trim_start_suffix s) as (a & Hs & Ha).
  destruct (trim_start_suffix (reverse (trim_start s))) as (b & Hr & Hb).
  exists a, (reverse b). split; [|split; [done|]].
  - unfold trim, trim_end. rewrite <- reverse_app, <- Hr, reverse_involutive. done.
  - unfold blank. by rewrite Forall_reverse.
Qed.

Lemma contains_infix pat s a b : contains pat s → contains pat (a ++ s ++ b).
Proof.
  intros (x & y & ->). exists (a ++ x), (y ++ b). by rewrite <- !(assoc_L (++)).
Qed.

Lemma first_occurrence_clean pat s a b :
  pat ≠ [] → first_occurrence pat s a b → ¬ contains pat a.
Proof.
  intros Hpat [-> Hmin] (x & y & ->). apply (Hmin (length x)).
  - destruct pat; [done|]. rewrite !length_app. cbn. lia.
  - rewrite <- !(assoc_L (++)), drop_app_length. by apply prefix_app_r.
Qed.

(** A string whose first character does not occur in [a] first occurs, in
    [a ++ pat ++ b], right after [a]. *)
Lemma first_occurrence_fresh c pat a b :
  c ∉ a → first_occurrence (c :: pat) (a ++ (c :: pat) ++ b) a b.
Proof.
  intros Hc. split; [done|]. intros i Hi [k Hk].
  destruct (lookup_lt_is_Some_2 a i Hi) as [x Hx].
  apply Hc. assert (x = c) as ->; [|by eapply list_elem_of_lookup_2].
  apply (f_equal (λ l, l !! 0)) in Hk. rewrite lookup_drop, Nat.add_0_r in Hk.
  rewrite lookup_app_l, Hx in Hk by done. cbn in Hk. congruence.
Qed.

Lemma not_contains_fresh c pat s : c ∉ s → ¬ contains (c :: pat) s.
Proof. intros Hc (a & b & ->). apply Hc. set_solver. Qed.

End TrimFacts.

(** X1: the answer the parser returns is trimmed: it neither starts nor ends
    with white space, and trimming it again changes nothing. *)
Theorem answer_is_trimmed (raw : jstring) :
  (∀ c rest, answer (parse raw) = c :: rest → is_ws c = false)
  ∧ (∀ c front, answer (parse raw) = front ++ [c] → is_ws c = false)
  ∧ trim (answer (parse raw)) = answer (parse raw).
Proof.
  assert (∃ s, answer (parse raw) = trim s) as [s ->].
  { rewrite parse_answer. unfold or_else.
    destruct (split marker raw !! 1) as [seg|]; cbn; [|by eexists].
    destruct (truthy (trim seg)); by eexists. }
  split; [apply trim_head|]. split; [apply trim_last | apply trim_idem].
Qed.

Lemma trim_start_blank a b : blank a → trim_start (a ++ b) = trim_start b.
Proof. induction 1 as [|c a Hc _ IH]; cbn; [done|]. by rewrite Hc. Qed.

(** White space after the marker is all that [trim] takes off. *)
Lemma trim_marker_blank ans : blank ans → trim (marker ++ ans) = marker.
Proof.
  intros H. unfold trim, trim_end.
  change (trim_start (marker ++ ans)) with (marker ++ ans).
  rewrite reverse_app, trim_start_blank by (unfold blank; by rewrite Forall_reverse).
  done.
Qed.

(** X2: on an output that follows the prompt's contract (a reasoning block
    first, then the marker, then the answer, with no '<' or '#' inside the
    reasoning and no '#' in the answer) the parser gives back the block as
    the scratchpad and, when the answer text is not blank, the trimmed answer
    text as the answer.  When the answer text is blank, the fallback makes
    the marker itself the answer. *)
Theorem parse_contract_output (body ans : jstring) :
  60%N ∉ body → 35%N ∉ body → 35%N ∉ ans →
  parse (tag_open ++ body ++ tag_close ++ marker ++ ans)
  = {| answer := if truthy (trim ans) then trim ans else marker;
       scratchpad := tag_open ++ body ++ tag_close |}.
Proof.
  intros Hlt Hb Ha.
  set (raw := tag_open ++ body ++ tag_close ++ marker ++ ans).
  assert (first_block raw [] body (marker ++ ans)) as Hfb.
  { split.
    - split; [done | cbn; lia].
    - change tag_close with (60%N :: lit "/scratchpad>").
      by apply first_occurrence_fresh. }
  assert (scratchpad (parse raw) = tag_open ++ body ++ tag_close) as Hs.
  { rewrite parse_scratchpad.
    by rewrite (proj2 (regex_exec_first_block raw [] body (marker ++ ans)) Hfb). }
  assert (answer (parse raw) = if truthy (trim ans) then trim ans else marker)
    as Hanswer.
  { rewrite parse_answer.
    rewrite (split_marker_segment raw (tag_open ++ body ++ tag_close) ans ans).
    - cbn. destruct (trim ans) as [|c t] eqn:Et; [|done]. cbn.
      rewrite (strip_block_first raw [] body (marker ++ ans) Hfb).
      apply trim_marker_blank. by apply trim_nil.
    - replace raw with ((tag_open ++ body ++ tag_close) ++ marker ++ ans)
        by (unfold raw; by rewrite <- !(assoc_L (++))).
      change marker with (35%N :: lit "##").
      apply first_occurrence_fresh.
      rewrite !elem_of_app. intros [H|[H|H]]; [|done|]; vm_compute in H;
        repeat (apply elem_of_cons in H as [H|H]; [done|]); by apply elem_of_nil in H.
    - left. split; [|done]. change marker with (35%N :: lit "##").
      by apply not_contains_fresh. }
  destruct (parse raw) as [a s]. cbn in *. by subst.
Qed.

(** The example of the prompt: "think", then "final"; and "think" with
    nothing but a space after the marker. *)
Lemma parse_contract_output_witness :
  parse (tag_open ++ lit "think" ++ tag_close ++ marker ++ lit " final ")
  = {| answer := lit "final"; scratchpad := lit "<scratchpad>think</scratchpad>" |}
  ∧ parse (tag_open ++ lit "think" ++ tag_close ++ marker ++ lit " ")
    = {| answer := lit "###"; scratchpad := lit "<scratchpad>think</scratchpad>" |}.
Proof.
  split.
  - rewrite (parse_contract_output (lit "think") (lit " final ")).
    + by vm_compute.
    + by vm_compute; intros H; repeat (apply elem_of_cons in H as [H|H]; [done|]);
        apply elem_of_nil in H.
    + by vm_compute; intros H; repeat (apply elem_of_cons in H as [H|H]; [done|]);
        apply elem_of_nil in H.
    + by vm_compute; intros H; repeat (apply elem_of_cons in H as [H|H]; [done|]);
        apply elem_of_nil in H.
  - rewrite (parse_contract_output (lit "think") (lit " ")).
    + by vm_compute.
    + by vm_compute; intros H; repeat (apply elem_of_cons in H as [H|H]; [done|]);
        apply elem_of_nil in H.
    + by vm_compute; intros H; repeat (apply elem_of_cons in H as [H|H]; [done|]);
        apply elem_of_nil in H.
    + by vm_compute; intros H; repeat (apply elem_of_cons in H as [H|H]; [done|]);
        apply elem_of_nil in H.
Defined.

(** X3: when the text between the first marker and the next one is not
    blank, the answer contains no marker; an answer that shows a marker can
    only come from the fallback. *)
Theorem marker_answer_has_no_marker (raw pre post seg : jstring) :
  first_occurrence marker raw pre post →
  answer_segment post seg →
  ¬ blank seg →
  ¬ contains marker (answer (parse raw)).
Proof.
  intros Hf Hseg Hb. rewrite parse_answer.
  rewrite (split_marker_segment _ _ _ _ Hf Hseg). cbn [fmap option_fmap option_map].
  rewrite or_else_trim by done. intros Hc.
  destruct (trim_infix seg) as (a & b & Hs & _).
  assert (contains marker seg) as Hin by (rewrite Hs; by apply contains_infix).
  destruct Hseg as [[Hno ->]|[rest Hr]]; [done|].
  by apply (first_occurrence_clean marker post seg rest marker_nonempty).
Qed.

(** Two markers: the answer is what lies between them. *)
Lemma marker_answer_has_no_marker_witness :
  ¬ contains marker (answer (parse (lit "a###b###c"))).
Proof.
  apply (marker_answer_has_no_marker (lit "a###b###c") (lit "a") (lit "b###c") (lit "b")).
  - by apply cut_first_occurrence.
  - right. exists (lit "c"). by apply cut_first_occurrence.
  - intros H. apply trim_nil in H. by vm_compute in H.
Defined.

(** ** The ask handler on every path *)

Section AskPaths.

Import Ask.

Variable env : Env.

Lemma retrieval_calls_shape q :
  retrieval_calls env q = [EmbedQuery q]
  ∨ ∃ v, retrieval_calls env q = [EmbedQuery q; IndexQuery v 5].
Proof.
  unfold retrieval_calls. destruct (embedQuery env q) as [v|e] eqn:E1.
  - right. exists v. destruct (query env v 5) as [r|e] eqn:E2.
    + by rewrite (retrieve_ok _ _ _ _ _ E1 E2).
    + by rewrite (retrieve_query_fails _ _ _ _ _ E1 E2).
  - left. by rewrite (retrieve_embed_fails _ _ _ _ E1).
Qed.

Lemma generate_run ctx q t w :
  ∃ o r,
    generate env ctx q t w
    = (o, set_sent (Some r)
            (set_calls (calls w ++ [ChatCompletion (systemPrompt ctx) q]) w))
    ∧ (o = Normal () ∨ o = Return) ∧ (status r = 200 ∨ status r = 500).
Proof.
  destruct (chat env (systemPrompt ctx) q) as [[raw|]|err] eqn:E;
    [destruct (truthy raw) eqn:Er|..].
  - rewrite (generate_ok _ _ _ _ _ _ E Er). eexists _, _. split; [done|]. auto.
  - rewrite (generate_empty _ _ _ _ _ _ E Er). eexists _, _. split; [done|]. auto.
  - rewrite (generate_empty _ _ _ _ _ _ E eq_refl). eexists _, _. split; [done|]. auto.
  - rewrite (generate_raise _ _ _ _ _ _ E). eexists _, _. split; [done|]. auto.
Qed.

(** Every run of the ask handler, in one statement: it ends without an
    uncaught error, having sent a response, issued calls of the expected
    shape, and touched only the file system and its path variable besides. *)
Lemma ask_every_path req w :
  ∃ o r evs fs pv,
    askHandler req env w
    = (o, set_sent (Some r)
            (set_calls (calls w ++ evs) (set_path_var pv (set_files fs w))))
    ∧ (∀ e, o ≠ Throw e)
    ∧ status r ∈ [200; 400; 405; 500]
    ∧ ask_call_shape evs.
Proof.
  unfold askHandler. destruct (bool_decide (method req = POST)); cbn [negb]; cycle 1.
  { unfold method_not_allowed. monad. eexists _, _, [], (files w), (path_var w).
    split; [rewrite (right_id_L [] (++)); by destruct w|].
    split; [done|]. split; [set_solver | by left]. }
  destruct (upload req) as [[f|]|e] eqn:Hu;
    [rewrite (read_question_file _ _ Hu)
    |destruct (bare_or_not req) as [[msg Hb]|Hb];
     [unfold read_question; rewrite Hb | rewrite (read_question_form _ Hb)]
    |];
    unfold transcribe_audio, runMiddleware; monad; cbv beta iota.
  - destruct (unset (PINECONE_API_KEY env) || unset (PINECONE_ENVIRONMENT env)
              || unset (OPENAI_API_KEY env)); cbv beta iota.
    { eexists _, _, [], (<[path f := content f]> (files w)), (Some (path f)).
      split; [cbn; by rewrite (right_id_L [] (++))|].
      split; [done|]. split; [set_solver | by left]. }
    destruct (transcribe env (path f)) as [t|e]; cbv beta iota.
    + edestruct cleanup_run as (fs & pv & ->). cbv beta iota.
      destruct (truthy (or_else (question req) t)); cbn [negb]; cbv beta iota.
      * rewrite retrieve_run. cbv beta iota.
        match goal with |- context [generate ?e ?c ?q ?t ?W] =>
          destruct (generate_run c q t W) as (o & r & -> & Ho & Hr)
        end.
        destruct (retrieval_calls_shape (or_else (question req) t)) as [Hc|[v Hc]].
        -- exists o, r, [Transcribe (path f); EmbedQuery (or_else (question req) t);
                       ChatCompletion
                         (systemPrompt (context_of env (or_else (question req) t)))
                         (or_else (question req) t)], fs, pv.
           split; [|split; [|split]].
           ++ destruct Ho; subst o; cbn; rewrite Hc; by rewrite <- !(assoc_L (++)).
           ++ intros e. destruct Ho; by subst o.
           ++ clear Ho. destruct Hr as [Hr|Hr]; rewrite Hr; set_solver.
           ++ right; right; left. by eexists _, _, _.
        -- exists o, r, [Transcribe (path f); EmbedQuery (or_else (question req) t);
                       IndexQuery v 5;
                       ChatCompletion
                         (systemPrompt (context_of env (or_else (question req) t)))
                         (or_else (question req) t)], fs, pv.
           split; [|split; [|split]].
           ++ destruct Ho; subst o; cbn; rewrite Hc; by rewrite <- !(assoc_L (++)).
           ++ intros e. destruct Ho; by subst o.
           ++ clear Ho. destruct Hr as [Hr|Hr]; rewrite Hr; set_solver.
           ++ right; right; right. by eexists _, _, _, _.
      * eexists _, _, [Transcribe (path f)], fs, pv.
        split; [done|]. split; [done|]. split; [set_solver|]. right; left. by eexists.
    + eexists _, _, [Transcribe (path f)],
        (<[path f := content f]> (files w)), (Some (path f)).
      split; [done|]. split; [done|]. split; [set_solver|]. right; left. by eexists.
  - rewrite cleanup_absent by done. cbv beta iota.
    eexists _, _, [], (files w), None.
    split; [cbn; by rewrite (right_id_L [] (++))|].
    split; [done|]. split; [set_solver | by left].
  - eexists _, _, [], (files w), None.
    split; [cbn; by rewrite (right_id_L [] (++))|].
    split; [done|]. split; [set_solver | by left].
  - rewrite cleanup_absent by done. cbv beta iota.
    destruct (bool_decide (code e = Some LIMIT_FILE_SIZE)); cbv beta iota.
    + eexists _, _, [], (files w), None.
      split; [cbn; by rewrite (right_id_L [] (++))|].
      split; [done|]. split; [set_solver | by left].
    + eexists _, _, [], (files w), None.
      split; [cbn; by rewrite (right_id_L [] (++))|].
      split; [done|]. split; [set_solver | by left].
Qed.

End AskPaths.

(** X4: the ask handler never lets an error escape and always answers: on
    every path it sends a response with status 200, 400, 405 or 500, and it
    leaves the Vector Index as it found it. *)
Theorem ask_always_responds (req : Ask.Request) (env : Ask.Env) (w : World) :
  (∀ e, (Ask.askHandler req env w).1 ≠ Throw e)
  ∧ (∃ r, sent (Ask.run req env w) = Some r ∧ status r ∈ [200; 400; 405; 500])
  ∧ index (Ask.run req env w) = index w.
Proof.
  unfold Ask.run.
  destruct (ask_every_path env req w) as (o & r & evs & fs & pv & -> & Ho & Hr & _).
  split; [done|]. split; [by exists r | done].
Qed.

(** X5: one ask request makes at most one attempt per stage, in pipeline
    order: nothing, or the transcription alone, or the transcription, the
    query embedding, possibly the index query (top 5), and the chat
    completion, whose user message is the text that was embedded. *)
Theorem ask_call_protocol (req : Ask.Request) (env : Ask.Env) (w : World) :
  ∃ evs, calls (Ask.run req env w) = calls w ++ evs ∧ ask_call_shape evs.
Proof.
  unfold Ask.run.
  destruct (ask_every_path env req w) as (o & r & evs & fs & pv & -> & _ & _ & Hs).
  by exists evs.
Qed.

(** X6: when every stage succeeds, the ask handler answers 200 with the
    parsed answer and scratchpad and with the transcription Whisper gave
    (also when a typed question replaced it as the query); the audio file has
    been deleted, and the calls are the transcription, the retrieval and the
    chat completion. *)
Theorem ask_answers (req : Ask.Request) (env : Ask.Env) (f : UploadedFile)
  (t raw : jstring) (w : World) :
  Ask.method req = POST → Ask.upload req = Ok (Some f) → ask_configured env →
  Ask.transcribe env (path f) = Ok t →
  truthy (or_else (Ask.question req) t) = true →
  Ask.chat env (Ask.systemPrompt (context_of env (or_else (Ask.question req) t)))
    (or_else (Ask.question req) t) = Ok (Some raw) →
  truthy raw = true →
  Ask.run req env w
  = set_sent (Some (answered raw t))
      (set_calls
         (calls w ++ Transcribe (path f)
          :: retrieval_calls env (or_else (Ask.question req) t)
          ++ [ChatCompletion
                (Ask.systemPrompt (context_of env (or_else (Ask.question req) t)))
                (or_else (Ask.question req) t)])
         (released f w)).
Proof.
  intros Hm Hu Hk Ht Hq Hc Hraw.
  rewrite (ask_pipeline env req f t w Hm Hu Hk Ht Hq).
  rewrite (generate_ok env _ _ _ raw _ Hc Hraw). cbn.
  by rewrite <- (assoc_L (++)).
Qed.

(** Every collaborator up: the example output is parsed and returned. *)
Lemma ask_answers_witness :
  sent (Ask.run Scenario.audio_request Scenario.healthy start)
  = Some (answered (lit "<scratchpad>think</scratchpad>###  final ")
            (lit "what is npv")).
Proof.
  rewrite (ask_answers Scenario.audio_request Scenario.healthy Scenario.recording
             (lit "what is npv") (lit "<scratchpad>think</scratchpad>###  final ")
             start) by (done || by repeat split).
  done.
Defined.

(** X7: when the transcription is empty and no question came with the audio,
    the ask handler answers 400 "No query provided", after deleting the audio
    file and without calling the embedding model, the index or the chat
    model. *)
Theorem ask_empty_query (req : Ask.Request) (env : Ask.Env) (f : UploadedFile)
  (t : jstring) (w : World) :
  Ask.method req = POST → Ask.upload req = Ok (Some f) → ask_configured env →
  Ask.transcribe env (path f) = Ok t →
  truthy (or_else (Ask.question req) t) = false →
  Ask.run req env w
  = set_sent
      (Some (error_only 400 (lit
         "No query provided (either question text or audio transcription).")))
      (set_calls (calls w ++ [Transcribe (path f)]) (released f w)).
Proof.
  intros Hm Hu Hk Ht Hq. unfold Ask.run, Ask.askHandler.
  rewrite Hm, bool_decide_true by done. cbn [negb].
  rewrite (read_question_file _ _ Hu).
  unfold Ask.transcribe_audio, runMiddleware. monad.
  rewrite Hu, (unset_keys env Hk), Ht. cbv beta iota.
  match goal with |- context [cleanup true ?W] =>
    assert (cleanup true W
            = (Normal (), set_calls (calls w ++ [Transcribe (path f)]) (released f w)))
      as ->
  end.
  { unfold released. destruct (truthy (path f)) eqn:Ep.
    - erewrite cleanup_present; [done..|]. cbn. by rewrite lookup_insert_eq.
    - by rewrite cleanup_absent by (cbn; auto). }
  cbv beta iota. by rewrite Hq.
Qed.

(** Whisper returns the empty text. *)
Lemma ask_empty_query_witness :
  sent (Ask.run Scenario.audio_request Cases.silent start)
  = Some (error_only 400 (lit
      "No query provided (either question text or audio transcription)."))
  ∧ files (Ask.run Scenario.audio_request Cases.silent start)
    !! path Scenario.recording = None.
Proof.
  rewrite (ask_empty_query Scenario.audio_request Cases.silent Scenario.recording
             [] start) by (done || by repeat split).
  split; [done|]. cbn. apply lookup_delete_eq.
Defined.

(** X8: when Multer rejects the request, the ask handler runs no stage and
    stores nothing: a file over the size limit gets 400 "Audio file size limit
    exceeded.", any other error 500 with the error's message (or "Unknown
    error" when it has none) as details. *)
Theorem ask_multer_error (req : Ask.Request) (env : Ask.Env) (e : JsError)
  (w : World) :
  Ask.method req = POST → Ask.upload req = Raise e →
  Ask.run req env w
  = set_sent
      (Some (if bool_decide (code e = Some LIMIT_FILE_SIZE)
             then error_only 400 (lit "Audio file size limit exceeded.")
             else {| status := 500;
                     body := BJson
                       [("error", JStr (lit "Failed to process the request."));
                        ("details",
                         JStr (if truthy (message e) then message e
                               else lit "Unknown error"))] |}))
      (set_path_var None w).
Proof.
  intros Hm Hu. unfold Ask.run, Ask.askHandler.
  rewrite Hm, bool_decide_true by done. cbn [negb].
  unfold runMiddleware. monad. rewrite Hu. cbv beta iota.
  rewrite cleanup_absent by done. cbv beta iota.
  by destruct (bool_decide (code e = Some LIMIT_FILE_SIZE)).
Qed.

(** An audio file over the limit. *)
Lemma ask_multer_error_witness :
  sent (Ask.run Cases.oversized_audio Scenario.healthy start)
  = Some (error_only 400 (lit "Audio file size limit exceeded.")).
Proof.
  by rewrite (ask_multer_error Cases.oversized_audio Scenario.healthy
                Cases.file_too_large start).
Defined.

(** X9: when any of the three API keys is unset, the ask handler answers 500
    "Server configuration error: Missing API keys." without calling any
    collaborator. *)
Theorem ask_missing_key (req : Ask.Request) (env : Ask.Env) (f : UploadedFile)
  (w : World) :
  Ask.method req = POST → Ask.upload req = Ok (Some f) →
  unset (Ask.PINECONE_API_KEY env) = true
  ∨ unset (Ask.PINECONE_ENVIRONMENT env) = true
  ∨ unset (Ask.OPENAI_API_KEY env) = true →
  sent (Ask.run req env w)
    = Some (error_only 500 (lit "Server configuration error: Missing API keys."))
  ∧ calls (Ask.run req env w) = calls w.
Proof.
  intros Hm Hu Hk. rewrite (ask_keys_missing env req f w Hm Hu); [done|].
  intros (H1 & H2 & H3). destruct Hk as [Hk|[Hk|Hk]]; congruence.
Qed.

(** The OpenAI key is missing. *)
Lemma ask_missing_key_witness :
  sent (Ask.run Scenario.audio_request Cases.keyless start)
    = Some (error_only 500 (lit "Server configuration error: Missing API keys."))
  ∧ calls (Ask.run Scenario.audio_request Cases.keyless start) = calls start.
Proof.
  apply (ask_missing_key Scenario.audio_request Cases.keyless Scenario.recording
           start); [done | done |]. right; right. done.
Defined.

(** X10: when the chat completion comes back with no content (none, or the
    empty string), the ask handler answers 500 "Failed to get answer from AI
    model." with the details "No response content from GPT-4o". *)
Theorem ask_empty_content (req : Ask.Request) (env : Ask.Env) (f : UploadedFile)
  (t : jstring) (content : option jstring) (w : World) :
  Ask.method req = POST → Ask.upload req = Ok (Some f) → ask_configured env →
  Ask.transcribe env (path f) = Ok t →
  truthy (or_else (Ask.question req) t) = true →
  Ask.chat env (Ask.systemPrompt (context_of env (or_else (Ask.question req) t)))
    (or_else (Ask.question req) t) = Ok content →
  Ask.boolean content = false →
  sent (Ask.run req env w)
  = Some (error_response (lit "Failed to get answer from AI model.")
            (Error (lit "No response content from GPT-4o"))).
Proof.
  intros Hm Hu Hk Ht Hq Hc Hcontent.
  rewrite (ask_pipeline env req f t w Hm Hu Hk Ht Hq).
  by rewrite (generate_empty env _ _ _ content _ Hc Hcontent).
Qed.

(** The model returns no content. *)
Lemma ask_empty_content_witness :
  sent (Ask.run Scenario.audio_request Cases.mute_model start)
  = Some (error_response (lit "Failed to get answer from AI model.")
            (Error (lit "No response content from GPT-4o"))).
Proof.
  apply (ask_empty_content Scenario.audio_request Cases.mute_model
           Scenario.recording (lit "what is npv") None start);
    (done || by repeat split).
Defined.

(** X11: the three handlers accept POST only: any other method gets 405 with
    the text "Method <method> Not Allowed", and nothing else happens. *)
Theorem post_only (method : jstring) (w : World) :
  method ≠ POST →
  (∀ req env, Ask.method req = method →
     Ask.run req env w = set_sent (Some (not_allowed method)) w)
  ∧ (∀ req env, Upload.method req = method →
       Upload.run req env w = set_sent (Some (not_allowed method)) w)
  ∧ (∀ req env, Tts.method req = method →
       Tts.run req env w = set_sent (Some (not_allowed method)) w).
Proof.
  intros Hne. split; [|split]; intros req env Hm.
  - unfold Ask.run, Ask.askHandler. rewrite Hm, bool_decide_false by done. done.
  - unfold Upload.run, Upload.uploadHandler. rewrite Hm, bool_decide_false by done. done.
  - unfold Tts.run, Tts.ttsHandler. rewrite Hm, bool_decide_false by done. done.
Qed.

(** A GET on each route. *)
Lemma post_only_witness :
  sent (Ask.run Cases.get_ask Scenario.healthy start)
    = Some (not_allowed Cases.GET)
  ∧ sent (Upload.run Cases.get_upload Scenario.second_batch_rejected start)
    = Some (not_allowed Cases.GET).
Proof.
  destruct (post_only Cases.GET start) as (Ha & Hu & _); [by vm_compute|].
  by rewrite (Ha Cases.get_ask Scenario.healthy eq_refl),
    (Hu Cases.get_upload Scenario.second_batch_rejected eq_refl).
Defined.

(** ** The upload handler on every path *)

Section UploadPaths.

Import Upload.

Variable env : Env.

(** The ingestion block ends by a response, 200 or 500, and touches nothing
    but the index, the log of calls and the response. *)
Lemma ingest_run fileName chunks w :
  ∃ o r ix evs,
    embed_and_upsert env fileName chunks w
    = (o, set_sent (Some r) (set_index ix (set_calls (calls w ++ evs) w)))
    ∧ (∀ e, o ≠ Throw e) ∧ (status r = 200 ∨ status r = 500).
Proof.
  destruct (embedded_or_not env 0 chunks) as [Hall|Hfail].
  - unfold embed_and_upsert, embed_all. unfold bind at 1, try_catch at 1.
    rewrite (embed_loop_ok env fileName chunks 0 [] w Hall). cbv beta iota.
    unfold upsert_all. cbn [app].
    destruct (bool_decide (0 < length (built env fileName 0 chunks))).
    + unfold bind at 1, try_catch.
      edestruct (upsert_loop_calls env (built env fileName 0 chunks) 0)
        as (o & ix & evs & -> & Hup & Ho).
      destruct o as [[]| |e]; [|done|]; monad; cbn.
      * eexists _, _, ix, (embed_calls chunks ++ evs).
        split; [by rewrite <- !(assoc_L (++)) | split; [by intros | by left]].
      * eexists _, _, ix, (embed_calls chunks ++ evs).
        split; [by rewrite <- !(assoc_L (++)) | split; [by intros | by right]].
    + monad. cbn. eexists _, _, (index w), (embed_calls chunks).
      split; [done | split; [by intros | by left]].
  - destruct (ingest_embedding_fails env fileName chunks w Hfail) as (e & n & ->).
    eexists _, _, (index w), (embed_calls (take n chunks)).
    split; [by destruct w | split; [by intros | by right]].
Qed.

(** Every run of the upload handler: it ends without an uncaught error,
    having sent a response; the file system changes at most at the path of
    the file Multer stored, which is deleted again only when the text splitter
    rejects. *)
Lemma upload_every_path req w :
  ∃ o r ix evs fs pv,
    uploadHandler req env w
    = (o, set_sent (Some r)
            (set_index ix
               (set_calls (calls w ++ evs) (set_path_var pv (set_files fs w)))))
    ∧ (∀ e, o ≠ Throw e)
    ∧ status r ∈ [200; 400; 405; 500]
    ∧ ((fs = files w ∧ (method req ≠ POST ∨ ∀ f, upload req ≠ Ok (Some f)))
       ∨ ∃ f, upload req = Ok (Some f)
              ∧ (fs = <[path f := content f]> (files w)
                 ∨ (fs = delete (path f) (files w)
                    ∧ ∃ docs e, load env (path f) = Ok (Some docs)
                                ∧ textSplitter env docs = Raise e))).
Proof.
  unfold uploadHandler. destruct (decide (method req = POST)) as [Hm|Hm];
    [rewrite bool_decide_true by done | rewrite bool_decide_false by done];
    cbn [negb]; cycle 1.
  { unfold method_not_allowed. monad.
    eexists _, _, (index w), [], (files w), (path_var w).
    split; [rewrite (right_id_L [] (++)); by destruct w|].
    split; [done|]. split; [set_solver | left; auto]. }
  unfold load_pdf, runMiddleware. monad.
  destruct (upload req) as [[f|]|e] eqn:Hu; cbv beta iota.
  - destruct (unset (PINECONE_API_KEY env) || unset (PINECONE_ENVIRONMENT env)
              || unset (OPENAI_API_KEY env)); cbv beta iota.
    { eexists _, _, (index w), [], (<[path f := content f]> (files w)), (Some (path f)).
      split; [cbn; by rewrite (right_id_L [] (++))|].
      split; [done|]. split; [set_solver | right; exists f; auto]. }
    destruct (load env (path f)) as [docs|e] eqn:Hl; cbv beta iota; cycle 1.
    { eexists _, _, (index w), [LoadPdf (path f)],
        (<[path f := content f]> (files w)), (Some (path f)).
      split; [done|]. split; [done|]. split; [set_solver | right; exists f; auto]. }
    destruct docs as [[|d ds]|].
    + eexists _, _, (index w), [LoadPdf (path f)],
        (<[path f := content f]> (files w)), (Some (path f)).
      split; [done|]. split; [done|]. split; [set_solver | right; exists f; auto].
    + destruct (textSplitter env (d :: ds)) as [chunks|e] eqn:Hs; cbv beta iota.
      * match goal with |- context [embed_and_upsert env ?n ?c ?W] =>
          destruct (ingest_run n c W) as (o & r & ix & evs & -> & Ho & Hr)
        end.
        exists o, r, ix, (LoadPdf (path f) :: evs),
          (<[path f := content f]> (files w)), (Some (path f)).
        split; [|split; [done|split; [|right; exists f; auto]]].
        -- destruct o as [[]| |e]; [| |by destruct (Ho e)];
             cbn; by rewrite <- (assoc_L (++)).
        -- clear Ho. destruct Hr as [Hr|Hr]; rewrite Hr; set_solver.
      * destruct (truthy (path f)) eqn:Hp.
        -- edestruct (cleanup_files false (path f)) as [pv ->]; [|exact Hp|]; [done|].
           cbn [files set_files set_calls set_path_var]. rewrite delete_insert_eq.
           cbv beta iota.
           destruct (bool_decide (code e = Some LIMIT_FILE_SIZE)); cbv beta iota;
             [|destruct (includes (lit "Only PDF files are allowed") (message e));
               cbv beta iota];
             (eexists _, _, (index w), [LoadPdf (path f)],
                (delete (path f) (files w)), pv;
              split; [done|]; split; [done|];
              split; [set_solver | right; exists f; split; [done|]; right;
                                    split; [done|]; by exists (d :: ds), e]).
        -- rewrite cleanup_absent by (cbn; auto). cbv beta iota.
           destruct (bool_decide (code e = Some LIMIT_FILE_SIZE)); cbv beta iota;
             [|destruct (includes (lit "Only PDF files are allowed") (message e));
               cbv beta iota];
             (eexists _, _, (index w), [LoadPdf (path f)],
                (<[path f := content f]> (files w)), (Some (path f));
              split; [done|]; split; [done|];
              split; [set_solver | right; exists f; auto]).
    + eexists _, _, (index w), [LoadPdf (path f)],
        (<[path f := content f]> (files w)), (Some (path f)).
      split; [done|]. split; [done|]. split; [set_solver | right; exists f; auto].
  - eexists _, _, (index w), [], (files w), None.
    split; [cbn; by rewrite (right_id_L [] (++))|].
    split; [done|]. split; [set_solver | left; split; [done|right; congruence]].
  - rewrite cleanup_absent by done. cbv beta iota.
    destruct (bool_decide (code e = Some LIMIT_FILE_SIZE)); cbv beta iota;
      [|destruct (includes (lit "Only PDF files are allowed") (message e));
        cbv beta iota];
      (eexists _, _, (index w), [], (files w), None;
       split; [cbn; by rewrite (right_id_L [] (++))|];
       split; [done|]; split; [set_solver | left; split; [done|right; congruence]]).
Qed.


End UploadPaths.



(** ** The upload handler: what reaches the index *)

Lemma upsert_step env vectors i :
  Upload.upsert_loop env vectors i =
    if decide (i < length vectors)
    then Upload.index_upsert env i (Upload.slice i (i + Upload.batchSize) vectors)
         >> Upload.upsert_loop env vectors (i + Upload.batchSize)
    else ret ().
Proof. apply upsert_loop_unfold. Qed.

Section UploadIndex.

Import Upload.

Variable env : Env.

Lemma built_lookup fileName chunks : ∀ i j chunk,
  chunks !! j = Some chunk →
  built env fileName i chunks !! j
  = Some (vector_of fileName (i + j) chunk (embedding_at env (i + j) chunk)).
Proof.
  induction chunks as [|c rest IH]; intros i [|j] chunk H; try done.
  - cbn in *. injection H as ->. by rewrite Nat.add_0_r.
  - rewrite <- Nat.add_succ_comm. by apply IH.
Qed.

Lemma batches_count n : 0 < n → S ((n - batchSize + 99) / 100) = (n + 99) / 100.
Proof.
  unfold batchSize. intros Hn. destruct (decide (n < 100)) as [Hlt|Hge].
  - replace (n - 100) with 0 by lia. cbn [Nat.add].
    rewrite (Nat.div_small 99 100) by lia.
    apply (Nat.div_unique _ _ _ (n - 1)); lia.
  - replace (n + 99) with (n - 100 + 99 + 1 * 100) by lia.
    rewrite Nat.div_add by lia. lia.
Qed.

(** When the index accepts every batch, the upsert loop sends every record
    once, in order, in batches of at most [batchSize]. *)
Lemma upsert_loop_batches vectors i w :
  (∀ j batch, upsert env j batch = Ok ()) →
  ∃ evs,
    upsert_loop env vectors i w
    = (Normal (), set_index (index w ++ drop i vectors) (set_calls (calls w ++ evs) w))
    ∧ mjoin (batch_of <$> evs) = drop i vectors
    ∧ Forall (λ ev, is_upsert ev = true ∧ 0 < length (batch_of ev) ≤ batchSize) evs
    ∧ length evs = (length vectors - i + 99) / 100.
Proof.
  intros Hok. remember (length vectors - i) as n eqn:Hn. revert i w Hn.
  induction n as [n IH] using lt_wf_ind. intros i w ->.
  rewrite upsert_step. destruct (decide (i < length vectors)) as [Hi|Hi].
  - unfold index_upsert. monad. rewrite Hok. cbv beta iota.
    edestruct (IH (length vectors - (i + batchSize)))
      as (evs & -> & Hjoin & Hall & Hlen);
      [unfold batchSize; lia | reflexivity |].
    exists (IndexUpsert (slice i (i + batchSize) vectors) :: evs).
    assert (slice i (i + batchSize) vectors ++ drop (i + batchSize) vectors
            = drop i vectors) as Hsplit.
    { unfold slice. replace (i + batchSize - i) with batchSize by lia.
      replace (drop (i + batchSize) vectors) with (drop batchSize (drop i vectors))
        by (rewrite drop_drop; f_equal).
      by rewrite take_drop. }
    split; [|split; [|split]].
    + cbn [index calls set_index set_calls]. rewrite <- !(assoc_L (++)).
      by rewrite Hsplit.
    + change (slice i (i + batchSize) vectors ++ mjoin (batch_of <$> evs)
              = drop i vectors).
      by rewrite Hjoin.
    + constructor; [|done]. split; [done|]. cbn. unfold slice.
      rewrite length_take, length_drop. unfold batchSize. lia.
    + cbn [length]. rewrite Hlen.
      replace (length vectors - (i + batchSize)) with (length vectors - i - batchSize)
        by lia.
      apply batches_count. lia.
  - exists []. split; [|split; [|split; [constructor|]]].
    + monad. rewrite drop_ge by lia. rewrite !(right_id_L [] (++)). by destruct w.
    + by rewrite drop_ge by lia.
    + cbn. replace (length vectors - i) with 0 by lia. done.
Qed.

Lemma ingest_batches fileName chunks w :
  all_embedded env 0 chunks → (∀ j batch, upsert env j batch = Ok ()) →
  ∃ evs,
    embed_and_upsert env fileName chunks w
    = (Normal (),
       set_sent (Some (ingested_response fileName (length chunks)))
         (set_index (index w ++ built env fileName 0 chunks)
            (set_calls (calls w ++ embed_calls chunks ++ evs) w)))
    ∧ mjoin (batch_of <$> evs) = built env fileName 0 chunks
    ∧ Forall (λ ev, is_upsert ev = true ∧ 0 < length (batch_of ev) ≤ batchSize) evs
    ∧ length evs = (length chunks + 99) / 100.
Proof.
  intros Hall Hok. unfold embed_and_upsert, embed_all. unfold bind at 1, try_catch at 1.
  rewrite (embed_loop_ok env fileName chunks 0 [] w Hall). cbv beta iota.
  unfold upsert_all. cbn [app]. unfold ingested_response.
  rewrite <- (built_length env fileName 0 chunks).
  destruct (bool_decide (0 < length (built env fileName 0 chunks))) eqn:E.
  - unfold bind at 1, try_catch.
    edestruct (upsert_loop_batches (built env fileName 0 chunks) 0)
      as (evs & -> & Hjoin & Hb & Hlen); [exact Hok|].
    exists evs. rewrite drop_0 in Hjoin. rewrite Nat.sub_0_r in Hlen.
    split; [|done]. monad. cbn. by rewrite <- !(assoc_L (++)).
  - exists []. apply bool_decide_eq_false in E.
    destruct (built env fileName 0 chunks); [|cbn in E; lia].
    split; [|split; [done | split; [constructor | done]]]. monad. cbn.
    rewrite !(right_id_L [] (++)). by destruct w.
Qed.

End UploadIndex.

(** X13: when every embedding and every upsert succeeds, the upload handler
    answers 200 with the number of chunks, and the index has gained one
    record per chunk, in chunk order: the record of chunk i has the id
    "<file name>-chunk-<i>", the chunk's embedding and text, the file name
    as source and the chunk's page number (0 when it has none). *)
Theorem upload_indexes_every_chunk (req : Upload.Request) (env : Upload.Env)
  (f : UploadedFile) (docs : list Doc) (w : World) :
  ingesting req env f docs →
  all_embedded env 0 (Upload.splitDocuments env docs) →
  (∀ j batch, Upload.upsert env j batch = Ok ()) →
  sent (Upload.run req env w)
    = Some (ingested_response (originalname f)
              (length (Upload.splitDocuments env docs)))
  ∧ index (Upload.run req env w)
    = index w ++ built env (originalname f) 0 (Upload.splitDocuments env docs)
  ∧ (∀ i chunk, Upload.splitDocuments env docs !! i = Some chunk →
       ∃ v, Upload.embedQuery env i (pageContent chunk) = Ok v
            ∧ index (Upload.run req env w) !! (length (index w) + i)
              = Some {| id := originalname f ++ lit "-chunk-" ++ lit (pretty i);
                        values := v;
                        metadata :=
                          {| text := pageContent chunk;
                             source := originalname f;
                             pageNumber := default 0 (loc_pageNumber chunk) |} |}).
Proof.
  intros Hing Hall Hok. rewrite (upload_ingesting env req f docs w Hing).
  destruct (ingest_batches env (originalname f) _
              (set_calls (calls w ++ [LoadPdf (path f)]) (stored f w)) Hall Hok)
    as (evs & -> & _).
  split; [done|]. split; [done|]. intros i chunk Hi.
  destruct (Hall i chunk Hi) as [v Hv]. cbn in Hv. exists v. split; [done|]. cbn.
  rewrite lookup_app_r by lia. replace (length (index w) + i - length (index w)) with i by lia.
  rewrite (built_lookup env _ _ 0 i chunk Hi). cbn.
  unfold embedding_at. by rewrite Hv.
Qed.

(** 250 chunks are embedded and indexed. *)
Lemma upload_indexes_every_chunk_witness :
  sent (Upload.run Scenario.upload_request Cases.accepting start)
  = Some (ingested_response (lit "finance.pdf") 250).
Proof.
  refine (proj1 (upload_indexes_every_chunk Scenario.upload_request Cases.accepting
                   Scenario.paper [Scenario.page] start _ _ _)).
  - by repeat split.
  - intros j chunk _. by exists [1; 0]%Q.
  - done.
Defined.

(** X14: when every embedding and every upsert succeeds, the upsert calls
    come after all the embedding calls and send every record exactly once,
    in order, in batches of 1 to 100 records; there are ceil(n / 100) of
    them for n chunks. *)
Theorem upload_batches (req : Upload.Request) (env : Upload.Env)
  (f : UploadedFile) (docs : list Doc) (w : World) :
  ingesting req env f docs →
  all_embedded env 0 (Upload.splitDocuments env docs) →
  (∀ j batch, Upload.upsert env j batch = Ok ()) →
  ∃ ups,
    calls (Upload.run req env w)
    = calls w ++ LoadPdf (path f)
      :: embed_calls (Upload.splitDocuments env docs) ++ ups
    ∧ mjoin (batch_of <$> ups)
      = built env (originalname f) 0 (Upload.splitDocuments env docs)
    ∧ Forall (λ ev, is_upsert ev = true ∧ 0 < length (batch_of ev) ≤ 100) ups
    ∧ length ups = (length (Upload.splitDocuments env docs) + 99) / 100.
Proof.
  intros Hing Hall Hok. rewrite (upload_ingesting env req f docs w Hing).
  destruct (ingest_batches env (originalname f) _
              (set_calls (calls w ++ [LoadPdf (path f)]) (stored f w)) Hall Hok)
    as (evs & -> & Hjoin & Hb & Hlen).
  exists evs. split; [|done]. cbn. by rewrite <- (assoc_L (++)).
Qed.

(** 250 chunks go out in three batches. *)
Lemma upload_batches_witness :
  ∃ ups,
    calls (Upload.run Scenario.upload_request Cases.accepting start)
    = calls start ++ LoadPdf (path Scenario.paper)
      :: embed_calls (replicate 250 Scenario.page) ++ ups
    ∧ length ups = 3.
Proof.
  destruct (upload_batches Scenario.upload_request Cases.accepting
              Scenario.paper [Scenario.page] start)
    as (ups & Hcalls & _ & _ & Hlen).
  - by repeat split.
  - intros j chunk _. by exists [1; 0]%Q.
  - done.
  - exists ups. split; [done|]. rewrite Hlen. by vm_compute.
Defined.

(** X15: when the splitter yields no chunk, the upload handler answers 200
    with chunksEmbedded 0, having called neither the embedding model nor the
    index. *)
Theorem upload_no_chunks (req : Upload.Request) (env : Upload.Env)
  (f : UploadedFile) (docs : list Doc) (w : World) :
  ingesting req env f docs →
  Upload.splitDocuments env docs = [] →
  Upload.run req env w
  = set_sent (Some (ingested_response (originalname f) 0))
      (set_calls (calls w ++ [LoadPdf (path f)]) (stored f w)).
Proof.
  intros Hing Hnone. rewrite (upload_ingesting env req f docs w Hing), Hnone.
  unfold Upload.embed_and_upsert, Upload.embed_all, Upload.upsert_all. monad. cbn.
  by rewrite bool_decide_false by lia.
Qed.

(** A PDF without text to split. *)
Lemma upload_no_chunks_witness :
  sent (Upload.run Scenario.upload_request Cases.nothing_to_split start)
  = Some (ingested_response (lit "finance.pdf") 0).
Proof.
  rewrite (upload_no_chunks Scenario.upload_request Cases.nothing_to_split
             Scenario.paper [Scenario.page] start); [done | by repeat split | done].
Defined.

(** X16: when the PDF cannot be loaded, or yields no page, the upload handler
    answers 500 naming the file ("Could not process PDF: ..." with the
    loader's message, or "Could not extract content from PDF: ..."), calls
    neither the embedding model nor the index, and leaves the stored file in
    place. *)
Theorem upload_unreadable (req : Upload.Request) (env : Upload.Env)
  (f : UploadedFile) (w : World) :
  Upload.method req = POST → Upload.upload req = Ok (Some f) →
  upload_configured env →
  (∀ e, Upload.load env (path f) = Raise e →
     Upload.run req env w
     = set_sent
         (Some (error_response (lit "Could not process PDF: " ++ originalname f) e))
         (set_calls (calls w ++ [LoadPdf (path f)]) (stored f w)))
  ∧ (Upload.load env (path f) = Ok None ∨ Upload.load env (path f) = Ok (Some []) →
     Upload.run req env w
     = set_sent
         (Some (error_only 500
                  (lit "Could not extract content from PDF: " ++ originalname f)))
         (set_calls (calls w ++ [LoadPdf (path f)]) (stored f w))).
Proof.
  intros Hm Hu Hk.
  assert (∀ r W, Upload.load env (path f) = r →
            (∀ d ds, r ≠ Ok (Some (d :: ds))) →
            W = match r with
                | Raise e =>
                    error_response (lit "Could not process PDF: " ++ originalname f) e
                | Ok _ =>
                    error_only 500
                      (lit "Could not extract content from PDF: " ++ originalname f)
                end →
            Upload.run req env w
            = set_sent (Some W)
                (set_calls (calls w ++ [LoadPdf (path f)]) (stored f w))) as H.
  { intros r W Hr Hne ->. unfold Upload.run, Upload.uploadHandler.
    rewrite Hm, bool_decide_true by done. cbn [negb].
    unfold Upload.load_pdf, runMiddleware. monad.
    rewrite Hu. cbv beta iota. rewrite (upload_keys env Hk). cbv beta iota.
    rewrite Hr. destruct r as [[[|d ds]|]|e]; try done. by destruct (Hne d ds). }
  split.
  - intros e He. by apply (H _ _ He).
  - intros [Hl|Hl]; by apply (H _ _ Hl).
Qed.

(** The loader rejects the file. *)
Lemma upload_unreadable_witness :
  sent (Upload.run Scenario.upload_request Cases.unreadable start)
  = Some (error_response (lit "Could not process PDF: finance.pdf")
            (Error (lit "Invalid PDF structure")))
  ∧ files (Upload.run Scenario.upload_request Cases.unreadable start)
    !! path Scenario.paper = Some (content Scenario.paper).
Proof.
  destruct (upload_unreadable Scenario.upload_request Cases.unreadable
              Scenario.paper start) as [Hraise _]; [done | done | by repeat split |].
  rewrite (Hraise (Error (lit "Invalid PDF structure")) eq_refl).
  split; [by vm_compute|]. cbn. apply lookup_insert_eq.
Defined.

(** A request Multer rejects: nothing was stored, and the handler's [catch]
    picks the response from the error. *)
Lemma upload_rejected (req : Upload.Request) (env : Upload.Env)
  (e : JsError) (w : World) :
  Upload.method req = POST → Upload.upload req = Raise e →
  Upload.run req env w
  = ((if bool_decide (code e = Some LIMIT_FILE_SIZE)
      then json 400 [("error", JStr (lit "File size limit exceeded."))] >> return_
      else if Upload.includes (lit "Only PDF files are allowed") (message e)
      then json 400 [("error", JStr (lit "Invalid file type. Only PDFs are allowed."))]
           >> return_
      else json 500
             [("error", JStr (lit "Failed to process the uploaded file."));
              ("details", JStr (or_else (Some (message e)) (lit "Unknown error")))])
       (set_path_var None w)).2.
Proof.
  intros Hm Hu. unfold Upload.run, Upload.uploadHandler.
  rewrite Hm, bool_decide_true by done. cbn [negb].
  unfold runMiddleware. monad. rewrite Hu. cbv beta iota.
  rewrite cleanup_absent by done. cbv beta iota.
  destruct (bool_decide (code e = Some LIMIT_FILE_SIZE)); [done|].
  by destruct (Upload.includes _ _).
Qed.

(** X17: when Multer rejects the upload, the handler stores and calls
    nothing: a file over the size limit gets 400 "File size limit exceeded.",
    an error whose message mentions "Only PDF files are allowed" gets 400
    "Invalid file type. Only PDFs are allowed.", any other error 500 with its
    message (or "Unknown error") as details. *)
Theorem upload_multer_error (req : Upload.Request) (env : Upload.Env)
  (e : JsError) (w : World) :
  Upload.method req = POST → Upload.upload req = Raise e →
  (code e = Some LIMIT_FILE_SIZE →
     Upload.run req env w
     = set_sent (Some (error_only 400 (lit "File size limit exceeded.")))
         (set_path_var None w))
  ∧ (code e ≠ Some LIMIT_FILE_SIZE →
     contains (lit "Only PDF files are allowed") (message e) →
     Upload.run req env w
     = set_sent
         (Some (error_only 400 (lit "Invalid file type. Only PDFs are allowed.")))
         (set_path_var None w))
  ∧ (code e ≠ Some LIMIT_FILE_SIZE →
     ¬ contains (lit "Only PDF files are allowed") (message e) →
     Upload.run req env w
     = set_sent
         (Some {| status := 500;
                  body := BJson
                    [("error", JStr (lit "Failed to process the uploaded file."));
                     ("details",
                      JStr (if truthy (message e) then message e
                            else lit "Unknown error"))] |})
         (set_path_var None w)).
Proof.
  intros Hm Hu. rewrite (upload_rejected req env e w Hm Hu).
  unfold Upload.includes. split; [|split].
  - intros Hc. rewrite bool_decide_true by done. by monad.
  - intros Hc Hin. rewrite bool_decide_false by done.
    destruct (cut (lit "Only PDF files are allowed") (message e)) as [[a b]|] eqn:E;
      [|by apply cut_None in E].
    rewrite bool_decide_true by (by eexists). by monad.
  - intros Hc Hin. rewrite bool_decide_false by done.
    destruct (cut (lit "Only PDF files are allowed") (message e)) as [[a b]|] eqn:E;
      [by apply cut_contains in E|].
    rewrite bool_decide_false by (by intros [? ?]). by monad.
Qed.

(** A file over the limit; a text file sent to the route. *)
Lemma upload_multer_error_witness :
  sent (Upload.run {| Upload.method := POST;
                      Upload.upload := Raise Cases.file_too_large |}
          Cases.accepting start)
  = Some (error_only 400 (lit "File size limit exceeded.")).
Proof.
  destruct (upload_multer_error
              {| Upload.method := POST; Upload.upload := Raise Cases.file_too_large |}
              Cases.accepting Cases.file_too_large start eq_refl eq_refl)
    as (Hlimit & _).
  by rewrite Hlimit.
Defined.

(** X18: a file that is not a PDF is refused by the file filter, with an
    error that the upload handler turns into 400 "Invalid file type. Only
    PDFs are allowed."; a PDF passes the filter. *)
Theorem pdf_only (file : Storage.Incoming) :
  (Storage.mimetype file = lit "application/pdf" →
   Storage.fileFilter file = Ok true)
  ∧ (Storage.mimetype file ≠ lit "application/pdf" →
     ∃ e, Storage.fileFilter file = Raise e
          ∧ ∀ req env w,
              Upload.method req = POST → Upload.upload req = Raise e →
              Upload.run req env w
              = set_sent
                  (Some (error_only 400
                           (lit "Invalid file type. Only PDFs are allowed.")))
                  (set_path_var None w)).
Proof.
  unfold Storage.fileFilter. split; intros Hm.
  - by rewrite bool_decide_true.
  - rewrite bool_decide_false by done. eexists. split; [done|].
    intros req env w Hp Hu. rewrite (upload_rejected req env _ w Hp Hu).
    by vm_compute.
Qed.

(** A spreadsheet is turned away. *)
Lemma pdf_only_witness :
  ∃ e, Storage.fileFilter Cases.spreadsheet = Raise e
       ∧ message e = lit "Only PDF files are allowed!".
Proof.
  destruct (proj2 (pdf_only Cases.spreadsheet)) as (e & He & _).
  - by vm_compute.
  - exists e. split; [done|]. vm_compute in He. by injection He as <-.
Defined.

Section FileNames.

Lemma pretty_char_digit x : digit (N_of_ascii (pretty_N_char x)).
Proof. unfold pretty_N_char, digit. repeat case_match; vm_compute; by split. Qed.

Lemma pretty_go_digits x : ∀ s,
  Forall digit (lit s) → Forall digit (lit (pretty_N_go x s)).
Proof.
  induction (N.lt_wf_0 x) as [x _ IH]. intros s Hs.
  destruct (decide (x = 0)%N) as [->|Hx]; [by rewrite pretty_N_go_0|].
  rewrite pretty_N_go_step by lia. apply IH.
  - apply N.div_lt; lia.
  - constructor; [apply pretty_char_digit | done].
Qed.

(** The decimal rendering of a number is made of digits. *)
Lemma pretty_digits (n : nat) : Forall digit (lit (pretty n)).
Proof.
  unfold pretty, pretty_nat, pretty, pretty_N. case_decide.
  - repeat constructor; by vm_compute.
  - apply pretty_go_digits. constructor.
Qed.

Lemma digit_not_ws c : digit c → is_ws c = false.
Proof.
  unfold digit, is_ws. intros [H1 H2].
  repeat match goal with
  | |- context [(?a <=? ?b)%N] => destruct (N.leb_spec a b); try lia
  | |- context [(?a =? ?b)%N] => destruct (N.eqb_spec a b); try lia
  end; done.
Qed.

Lemma squeeze_no_space b s : Forall (λ c, is_ws c = false) (Storage.squeeze b s).
Proof.
  revert b. induction s as [|c s IH]; intros b; cbn; [constructor|].
  destruct (is_ws c) eqn:E.
  - destruct b; [apply IH | constructor; [done | apply IH]].
  - by constructor.
Qed.

Lemma squeeze_id s : Forall (λ c, is_ws c = false) s → Storage.squeeze false s = s.
Proof. induction 1 as [|c s Hc _ IH]; cbn; [done|]. by rewrite Hc, IH. Qed.

Lemma squeeze_length b s : length (Storage.squeeze b s) ≤ length s.
Proof.
  revert b. induction s as [|c s IH]; intros b; cbn; [done|].
  destruct (is_ws c); [destruct b|]; cbn;
    pose proof (IH true); pose proof (IH false); lia.
Qed.

End FileNames.

(** X19: the name Multer stores an uploaded file under has no white space in
    it and is never longer than the time stamp, a dash and the original
    name; it is exactly these three when the original name has no white
    space. *)
Theorem stored_name_has_no_space (now : nat) (file : Storage.Incoming) :
  Forall (λ c, is_ws c = false) (Storage.filename now file)
  ∧ length (Storage.filename now file)
    ≤ length (lit (pretty now)) + 1 + length (Storage.originalname file)
  ∧ (Forall (λ c, is_ws c = false) (Storage.originalname file) →
     Storage.filename now file
     = lit (pretty now) ++ lit "-" ++ Storage.originalname file).
Proof.
  unfold Storage.filename, Storage.replace_spaces. split; [|split].
  - rewrite !Forall_app. split; [|split].
    + eapply Forall_impl; [apply pretty_digits | apply digit_not_ws].
    + by repeat constructor.
    + apply squeeze_no_space.
  - rewrite !length_app.
    pose proof (squeeze_length false (Storage.originalname file)).
    change (length (lit "-")) with 1. lia.
  - intros H. by rewrite squeeze_id.
Qed.

(** "Q3 report  final.xlsx" is stored as "...-Q3_report_final.xlsx". *)
Lemma stored_name_has_no_space_witness :
  Storage.filename 4102 Cases.spreadsheet
  = lit "4102-Q3_report_final.xlsx"
  ∧ Storage.filename 4102
      {| Storage.originalname := lit "finance.pdf";
         Storage.mimetype := lit "application/pdf" |}
    = lit "4102-finance.pdf".
Proof.
  split; [by vm_compute|].
  rewrite (proj2 (proj2 (stored_name_has_no_space 4102 _))); [by vm_compute|].
  vm_compute. repeat constructor.
Defined.

(** X20: record ids identify the chunk: two ids are equal only for the same
    file name and the same chunk number.  So the records of one document are
    pairwise distinct, and a document ingested again gets the same ids. *)
Theorem record_ids_identify_chunks (f1 f2 : jstring) (i j : nat) :
  Upload.chunk_id f1 i = Upload.chunk_id f2 j ↔ f1 = f2 ∧ i = j.
Proof.
  split; [|by intros [-> ->]]. unfold Upload.chunk_id. intros H.
  assert (∀ n : nat, 45%N ∉ lit (pretty n)) as Hdash.
  { intros n Hin. pose proof (pretty_digits n) as Hd.
    rewrite Forall_forall in Hd. specialize (Hd _ Hin). unfold digit in Hd. lia. }
  change (lit "-chunk-") with (lit "-chunk" ++ [45%N]) in H.
  rewrite <- !(assoc_L (++)) in H. rewrite !(assoc_L (++) _ (lit "-chunk")) in H.
  cbn [app] in H.
  apply not_elem_of_app_cons_inv_r in H as (H1 & _ & H2); [|apply Hdash..].
  apply app_inv_tail in H1. apply lit_inj in H2. apply (inj pretty) in H2. done.
Qed.


(** ** The text-to-speech handler on every path *)

Section TtsPaths.

Import Tts.

Variable env : Env.

(** A body that has a [text] can be destructured. *)
Lemma read_text_some req v : text req = Some v → read_text req = ret (Some v).
Proof. unfold text, read_text. destruct (req_body req); [done|by intros ->]. Qed.

Lemma read_text_body req :
  (∀ msg, req_body req ≠ Null msg) → read_text req = ret (text req).
Proof.
  unfold text, read_text. intros H.
  destruct (req_body req) as [msg|t]; [by destruct (H msg)|done].
Qed.

(** Once the handler calls ElevenLabs: one call, one response, and no file
    left at the temporary path, whatever the call and the write do. *)
Lemma tts_synthesis req t w :
  speakable req t → unset (ELEVENLABS_API_KEY env) = false →
  ∃ o pv,
    ttsHandler req env w
    = (o, {| files := delete (temp_path env) (files w);
             index := index w;
             calls := calls w ++ [TextToSpeech t];
             sent := Some (spoken env t);
             path_var := pv |})
    ∧ (∀ e, o ≠ Throw e)
    ∧ (status (spoken env t) = 200 → pv = None).
Proof.
  intros (Hm & Ht & Hne) Hk. unfold ttsHandler, spoken.
  rewrite Hm, bool_decide_true by done. cbn [negb].
  rewrite (read_text_some _ _ Ht).
  unfold synthesize, writeFileSync, readFileSync. monad. cbn.
  rewrite Hne, Hk. cbn.
  destruct (textToSpeech env t) as [audio|e]; cbn.
  - destruct (writeFile env (temp_path env) audio) as [|e [part|]]; cbn.
    + rewrite lookup_insert_eq. cbn.
      rewrite (cleanup_present true (temp_path env));
        [|done|apply temp_path_truthy|cbn; by rewrite lookup_insert_eq].
      cbn. rewrite delete_insert_eq. by eexists _, _.
    + edestruct (cleanup_files false (temp_path env)) as [pv ->];
        [| apply temp_path_truthy |]; [done|].
      cbn. rewrite delete_insert_eq. by eexists _, _.
    + edestruct (cleanup_files false (temp_path env)) as [pv ->];
        [| apply temp_path_truthy |]; [done|].
      cbn. by eexists _, _.
  - edestruct (cleanup_files false (temp_path env)) as [pv ->];
      [| apply temp_path_truthy |]; [done|].
    cbn. by eexists _, _.
Qed.

(** A request that names no text to speak is refused before anything else
    is looked at. *)
Lemma tts_refused req w :
  method req = POST → (∀ msg, req_body req ≠ Null msg) →
  (∀ t, text req = Some (JStr t) → truthy t = false) →
  ttsHandler req env w
  = (Return,
     set_sent
       (Some (error_only 400
                (lit "Text parameter is required and must be a string.")))
       (set_path_var None w)).
Proof.
  intros Hm Hb Ht. unfold ttsHandler. rewrite Hm, bool_decide_true by done.
  cbn [negb]. rewrite (read_text_body _ Hb). unfold bad_text. monad.
  destruct (text req) as [[t|n]|]; [|done..]. by rewrite (Ht t eq_refl).
Qed.

(** A body that reads [null] cannot be destructured: the outer [catch]
    answers. *)
Lemma tts_null req msg w :
  method req = POST → req_body req = Null msg →
  ttsHandler req env w
  = (Normal (),
     set_sent (Some (request_error (Error msg))) (set_path_var None w)).
Proof.
  intros Hm Hb. unfold ttsHandler. rewrite Hm, bool_decide_true by done. cbn [negb].
  unfold read_text. rewrite Hb. monad. by rewrite cleanup_absent by done.
Qed.

Lemma tts_unconfigured req t w :
  speakable req t → unset (ELEVENLABS_API_KEY env) = true →
  ttsHandler req env w
  = (Return,
     set_sent
       (Some (error_only 500
                (lit "Server configuration error: Missing ElevenLabs API key.")))
       (set_path_var None w)).
Proof.
  intros (Hm & Ht & Hne) Hk. unfold ttsHandler.
  rewrite Hm, bool_decide_true by done. cbn [negb].
  rewrite (read_text_some _ _ Ht). monad. by rewrite Hne, Hk.
Qed.

Lemma speakable_or_not req :
  method req ≠ POST
  ∨ (method req = POST ∧ ∃ msg, req_body req = Null msg)
  ∨ (method req = POST ∧ (∀ msg, req_body req ≠ Null msg)
     ∧ ∀ t, text req = Some (JStr t) → truthy t = false)
  ∨ ∃ t, speakable req t.
Proof.
  destruct (decide (method req = POST)) as [Hm|Hm]; [|by left]. right.
  destruct (req_body req) as [msg|txt] eqn:Hb; [left; split; [done|by exists msg]|right].
  assert (text req = txt) as Htx by (unfold text; by rewrite Hb).
  destruct txt as [[t|n]|]; [|left; rewrite Htx; by repeat split..].
  destruct (truthy t) eqn:Hne; [right; by exists t|].
  left. rewrite Htx. split; [done|]. split; [done|]. by intros ? [= <-].
Qed.

Lemma spoken_status t : status (spoken env t) ∈ [200; 500].
Proof.
  unfold spoken. destruct (textToSpeech env t) as [audio|e]; [|set_solver].
  destruct (writeFile env (temp_path env) audio); set_solver.
Qed.

(** The handler ends without an uncaught error. *)
Lemma tts_no_throw req w e : (ttsHandler req env w).1 ≠ Throw e.
Proof.
  destruct (speakable_or_not req)
    as [Hm|[(Hm & msg & Hb)|[(Hm & Hb & Ht)|[t Ht]]]].
  - unfold ttsHandler. by rewrite bool_decide_false by done.
  - by rewrite (tts_null _ msg).
  - by rewrite tts_refused.
  - destruct (unset (ELEVENLABS_API_KEY env)) eqn:Hk.
    + by rewrite (tts_unconfigured req t).
    + destruct (tts_synthesis req t w Ht Hk) as (o & pv & -> & Ho & _). apply Ho.
Qed.

End TtsPaths.

(** X21: a text sent to the text-to-speech route comes back as the audio
    ElevenLabs produced for it, byte for byte, with status 200; ElevenLabs is
    called once, with that text, and the temporary file the audio went
    through is gone afterwards. *)
Theorem speech_round_trip (req : Tts.Request) (env : Tts.Env)
  (t : jstring) (audio : list N) (w : World) :
  speakable req t → unset (Tts.ELEVENLABS_API_KEY env) = false →
  Tts.textToSpeech env t = Ok audio →
  Tts.writeFile env (Tts.temp_path env) audio = Tts.Written →
  sent (Tts.run req env w) = Some {| status := 200; body := BBytes audio |}
  ∧ calls (Tts.run req env w) = calls w ++ [TextToSpeech t]
  ∧ files (Tts.run req env w) = delete (Tts.temp_path env) (files w)
  ∧ path_var (Tts.run req env w) = None.
Proof.
  intros Hs Hk Ha Hw. unfold Tts.run.
  destruct (tts_synthesis env req t w Hs Hk) as (o & pv & -> & _ & Hpv).
  revert Hpv. unfold spoken. rewrite Ha, Hw. cbn. intros ->; done.
Qed.

(** "Hello" is spoken. *)
Lemma speech_round_trip_witness :
  sent (Tts.run (Cases.say (lit "Hello")) Cases.voice start)
  = Some {| status := 200; body := BBytes (lit "ID3Hello") |}
  ∧ files (Tts.run (Cases.say (lit "Hello")) Cases.voice start) = ∅.
Proof.
  destruct (speech_round_trip (Cases.say (lit "Hello")) Cases.voice
              (lit "Hello") (lit "ID3Hello") start)
    as (Hsent & _ & Hfiles & _); [by repeat split | done..|].
  split; [done|]. rewrite Hfiles. apply delete_empty.
Defined.

(** X22: when ElevenLabs fails, or the audio cannot be written, the
    text-to-speech handler answers 500 "Failed to generate speech from
    text." with the error's message (or "Unknown TTS error"), and no file is
    left at the temporary path, not even a partly written one. *)
Theorem speech_failure (req : Tts.Request) (env : Tts.Env)
  (t : jstring) (e : JsError) (w : World) :
  speakable req t → unset (Tts.ELEVENLABS_API_KEY env) = false →
  (Tts.textToSpeech env t = Raise e
   ∨ ∃ audio part,
       Tts.textToSpeech env t = Ok audio
       ∧ Tts.writeFile env (Tts.temp_path env) audio = Tts.WriteFailed e part) →
  sent (Tts.run req env w) = Some (speech_error e)
  ∧ calls (Tts.run req env w) = calls w ++ [TextToSpeech t]
  ∧ files (Tts.run req env w) !! Tts.temp_path env = None.
Proof.
  intros Hs Hk Hf. unfold Tts.run.
  destruct (tts_synthesis env req t w Hs Hk) as (o & pv & -> & _ & _). cbn.
  split; [|split; [done | apply lookup_delete_eq]].
  unfold spoken. destruct Hf as [->|(audio & part & -> & ->)]; done.
Qed.

(** ElevenLabs refuses; the disk fills up while writing. *)
Lemma speech_failure_witness :
  sent (Tts.run (Cases.say (lit "Hello")) Cases.hoarse start)
  = Some (speech_error (Error (lit "quota exceeded")))
  ∧ files (Tts.run (Cases.say (lit "Hello")) Cases.disk_full start)
    !! lit "/tmp/tts-4102.mp3" = None.
Proof.
  split.
  - apply (speech_failure (Cases.say (lit "Hello")) Cases.hoarse (lit "Hello")
             (Error (lit "quota exceeded")) start); [by repeat split | done | by left].
  - apply (speech_failure (Cases.say (lit "Hello")) Cases.disk_full (lit "Hello")
             (Error (lit "ENOSPC")) start); [by repeat split | done |].
    right. by eexists _, _.
Defined.

(** X23: a text-to-speech request whose body has no text, a text that is
    not a string, or an empty text is answered 400 "Text parameter is
    required and must be a string." whether or not the server has its
    ElevenLabs key; a proper text on a server without the key is answered 500
    "Server configuration error: Missing ElevenLabs API key.".  A body that
    reads [null] cannot be destructured: it is answered 500 "Failed to
    process the request." by the outer [catch].  In all three cases
    ElevenLabs is not called and no file is written. *)
Theorem speech_refused (req : Tts.Request) (env : Tts.Env) (w : World) :
  Tts.method req = POST →
  ((∀ msg, Tts.req_body req ≠ Tts.Null msg) →
   (∀ t, Tts.text req = Some (JStr t) → truthy t = false) →
   Tts.run req env w
   = set_sent
       (Some (error_only 400
                (lit "Text parameter is required and must be a string.")))
       (set_path_var None w))
  ∧ (∀ t, Tts.text req = Some (JStr t) → truthy t = true →
       unset (Tts.ELEVENLABS_API_KEY env) = true →
       Tts.run req env w
       = set_sent
           (Some (error_only 500
                    (lit "Server configuration error: Missing ElevenLabs API key.")))
           (set_path_var None w))
  ∧ (∀ msg, Tts.req_body req = Tts.Null msg →
     Tts.run req env w
     = set_sent (Some (request_error (Error msg))) (set_path_var None w)).
Proof.
  intros Hm. unfold Tts.run. split; [|split].
  - intros Hb Ht. by rewrite tts_refused.
  - intros t Ht Hne Hk. by rewrite (tts_unconfigured env req t).
  - intros msg Hb. by rewrite (tts_null _ _ msg).
Qed.

(** A number where the text should be; a body that reads [null]. *)
Lemma speech_refused_witness :
  sent (Tts.run {| Tts.method := POST; Tts.req_body := Tts.Fields (Some (JNum 42)) |}
          Cases.voice start)
  = Some (error_only 400 (lit "Text parameter is required and must be a string."))
  ∧ sent (Tts.run Cases.null_body Cases.voice start)
    = Some (request_error
              (Error (lit "Cannot destructure property 'text' of 'req.body' as it is null."))).
Proof.
  split.
  - destruct (speech_refused
                {| Tts.method := POST; Tts.req_body := Tts.Fields (Some (JNum 42)) |}
                Cases.voice start eq_refl) as [H _].
    by rewrite H.
  - destruct (speech_refused Cases.null_body Cases.voice start eq_refl)
      as (_ & _ & H).
    by rewrite (H _ eq_refl).
Defined.

(** X24: whatever the request, and whatever ElevenLabs and the write of the
    audio file do, the text-to-speech handler ends without an uncaught
    error, having sent a response with status 200, 400, 405 or 500, called
    ElevenLabs at most once and left the index alone.  Its outer [catch] runs
    for one kind of request only, a POST whose body reads [null]: the
    response "Failed to process the request." is sent then and never
    otherwise. *)
Theorem speech_always_responds (req : Tts.Request) (env : Tts.Env) (w : World) :
  (∀ e, (Tts.ttsHandler req env w).1 ≠ Throw e)
  ∧ (∃ r, sent (Tts.run req env w) = Some r
          ∧ status r ∈ [200; 400; 405; 500]
          ∧ (field "error" r = Some (JStr (lit "Failed to process the request."))
             ↔ Tts.method req = POST ∧ ∃ msg, Tts.req_body req = Tts.Null msg))
  ∧ (calls (Tts.run req env w) = calls w
     ∨ ∃ t, calls (Tts.run req env w) = calls w ++ [TextToSpeech t])
  ∧ index (Tts.run req env w) = index w.
Proof.
  split; [intros e; apply tts_no_throw|]. unfold Tts.run.
  destruct (speakable_or_not req)
    as [Hm|[(Hm & msg & Hb)|[(Hm & Hb & Ht)|[t Ht]]]].
  - unfold Tts.ttsHandler. rewrite bool_decide_false by done. cbn.
    split; [|by split; [left|]]. eexists. split; [done|]. split; [set_solver|].
    split; [done | by intros [? _]].
  - rewrite (tts_null _ _ msg) by done. cbn.
    split; [|by split; [left|]]. eexists. split; [done|]. split; [set_solver|].
    split; [intros _; split; [done | by exists msg] | done].
  - rewrite tts_refused by done. cbn.
    split; [|by split; [left|]]. eexists. split; [done|]. split; [set_solver|].
    split; [by vm_compute | intros [_ [m Hm']]; by destruct (Hb m)].
  - assert (∀ msg, Tts.req_body req ≠ Tts.Null msg) as Hb.
    { destruct Ht as (_ & Ht & _). unfold Tts.text in Ht. intros msg Hb.
      by rewrite Hb in Ht. }
    destruct (unset (Tts.ELEVENLABS_API_KEY env)) eqn:Hk.
    + rewrite (tts_unconfigured env req t) by done. cbn.
      split; [|by split; [left|]]. eexists. split; [done|]. split; [set_solver|].
      split; [by vm_compute | intros [_ [m Hm']]; by destruct (Hb m)].
    + destruct (tts_synthesis env req t w Ht Hk) as (o & pv & -> & _ & _). cbn.
      split; [|split; [right; by exists t | done]].
      eexists. split; [done|]. split.
      * generalize (spoken_status env t). rewrite !elem_of_cons. tauto.
      * split; [|intros [_ [m Hm']]; by destruct (Hb m)].
        unfold spoken. destruct (Tts.textToSpeech env t) as [audio|e].
        -- destruct (Tts.writeFile env (Tts.temp_path env) audio); by vm_compute.
        -- by vm_compute.
Qed.

(** ** The key check around the handlers *)

Section AuthFacts.

Import Auth.

(** The wrapper itself never throws. *)
Lemma auth_no_throw handler provided expected w e :
  (withApiKeyAuth handler provided expected w).1 ≠ Throw e.
Proof.
  unfold withApiKeyAuth, await.
  destruct (unset expected || unset provided
            || negb (bool_decide (provided = expected))); [done|].
  monad. by destruct (handler w) as [[[]| |e'] w'].
Qed.

(** With the right key, a handler that catches its own errors runs as if it
    were not wrapped. *)
Lemma auth_transparent handler k w :
  truthy k = true → (∀ e, (handler w).1 ≠ Throw e) →
  run handler (Some k) (Some k) w = (handler w).2.
Proof.
  intros Hk Hno. unfold run, withApiKeyAuth, await. cbn [unset].
  rewrite Hk, bool_decide_true by done. cbn [negb orb]. monad.
  specialize (Hno). destruct (handler w) as [[[]| |e] w']; [done..|].
  by destruct (Hno e).
Qed.

Lemma auth_refused handler provided expected w :
  unset expected = true ∨ unset provided = true ∨ provided ≠ expected →
  run handler provided expected w
  = set_sent (Some (error_only 401 (lit "Unauthorized"))) w.
Proof.
  intros H. unfold run, withApiKeyAuth.
  assert (unset expected || unset provided
          || negb (bool_decide (provided = expected)) = true) as ->; [|done].
  destruct H as [->|[->|H]]; [done | by rewrite orb_true_r |].
  rewrite bool_decide_false by done. by rewrite orb_true_r.
Qed.

End AuthFacts.

(** X25: a request is let through to the handler only when the server has a
    non-empty key and the header carries exactly that key.  Otherwise it is
    answered 401 "Unauthorized" and the handler does not run: no file is
    stored, no external call is made and the index is untouched.  With the
    right key, the three routes behave exactly as their handlers: the
    wrapper adds nothing, and its own 500 "Internal Server Error" is never
    sent, since each handler catches its own errors. *)
Theorem key_check (provided expected : option jstring) (w : World) :
  (unset expected = true ∨ unset provided = true ∨ provided ≠ expected →
   ∀ handler,
     Auth.run handler provided expected w
     = set_sent (Some (error_only 401 (lit "Unauthorized"))) w)
  ∧ (∀ k, provided = Some k → expected = Some k → truthy k = true →
       (∀ req env,
          Auth.run (Ask.askHandler req env) provided expected w = Ask.run req env w)
       ∧ (∀ req env,
            Auth.run (Upload.uploadHandler req env) provided expected w
            = Upload.run req env w)
       ∧ (∀ req env,
            Auth.run (Tts.ttsHandler req env) provided expected w
            = Tts.run req env w)).
Proof.
  split; [intros H handler; by apply auth_refused|].
  intros k -> -> Hk. split; [|split]; intros req env; apply auth_transparent; try done.
  - destruct (ask_every_path env req w) as (o & r & evs & fs & pv & -> & Ho & _).
    apply Ho.
  - destruct (upload_every_path env req w)
      as (o & r & ix & evs & fs & pv & -> & Ho & _).
    apply Ho.
  - intros e. apply tts_no_throw.
Qed.

(** The server has no key, whatever the header says; the header is wrong;
    the header is right. *)
Lemma key_check_witness :
  sent (Auth.run (Ask.askHandler Scenario.audio_request Scenario.healthy)
          Scenario.key None start)
  = Some (error_only 401 (lit "Unauthorized"))
  ∧ calls (Auth.run (Upload.uploadHandler Scenario.upload_request Cases.accepting)
             (Some (lit "guess")) Scenario.key start) = []
  ∧ Auth.run (Upload.uploadHandler Scenario.upload_request Cases.accepting)
      Scenario.key Scenario.key start
    = Upload.run Scenario.upload_request Cases.accepting start.
Proof.
  split; [|split].
  - destruct (key_check Scenario.key None start) as [H _].
    rewrite H; [done | by left].
  - destruct (key_check (Some (lit "guess")) Scenario.key start) as [H _].
    rewrite H; [done|]. right; right. by vm_compute.
  - destruct (key_check Scenario.key Scenario.key start) as [_ H].
    destruct (H (lit "secret") eq_refl eq_refl eq_refl) as (_ & Hu & _).
    apply Hu.
Defined.

(** X26: no error escapes the key check, whatever handler it wraps and
    whatever the keys: an error the handler throws is answered 500 "Internal
    Server Error" with the error's message (or "Unknown error") as details. *)
Theorem wrapper_contains_errors (handler : M unit) (provided expected : option jstring)
  (w : World) :
  (∀ e, (Auth.withApiKeyAuth handler provided expected w).1 ≠ Throw e)
  ∧ ∀ k e w', provided = Some k → expected = Some k → truthy k = true →
      handler w = (Throw e, w') →
      Auth.run handler provided expected w
      = set_sent
          (Some {| status := 500;
                   body := BJson [("error", JStr (lit "Internal Server Error"));
                                  ("details",
                                   JStr (if truthy (message e) then message e
                                         else lit "Unknown error"))] |})
          w'.
Proof.
  split; [intros e; apply auth_no_throw|].
  intros k e w' -> -> Hk Hh. unfold Auth.run, Auth.withApiKeyAuth, Auth.await.
  cbn [unset]. rewrite Hk, bool_decide_true by done. cbn [negb orb]. monad.
  by rewrite Hh.
Qed.

(** A handler that lets an error through. *)
Lemma wrapper_contains_errors_witness :
  sent (Auth.run Cases.crashing Scenario.key Scenario.key start)
  = Some {| status := 500;
            body := BJson [("error", JStr (lit "Internal Server Error"));
                           ("details", JStr (lit "boom"))] |}.
Proof.
  destruct (wrapper_contains_errors Cases.crashing Scenario.key Scenario.key start)
    as [_ H].
  by rewrite (H (lit "secret") (Error (lit "boom"))
                (set_calls [LoadPdf (lit "/docs/a.pdf")] start)).
Defined.

(** ** What a 200 carries *)

Section OkShape.

Lemma scratchpad_truthy raw : truthy (scratchpad (parse raw)) = true.
Proof. rewrite parse_scratchpad. by destruct (regex_exec raw) as [[[pre body] post]|]. Qed.

Lemma ask_configured_or_not (env : Ask.Env) : ask_configured env ∨ ¬ ask_configured env.
Proof.
  unfold ask_configured.
  destruct (unset (Ask.PINECONE_API_KEY env)); [right; by intros (? & _)|].
  destruct (unset (Ask.PINECONE_ENVIRONMENT env)); [right; by intros (_ & ? & _)|].
  destruct (unset (Ask.OPENAI_API_KEY env)); [right; by intros (_ & _ & ?)|].
  by left.
Qed.

(** The ask handler answers 200 only at the end of the pipeline: the audio
    was stored and transcribed, the query is not empty and the model gave a
    non-empty output, which the response carries parsed. *)
Lemma ask_ok_shape (req : Ask.Request) (env : Ask.Env) (w : World) (r : Response) :
  sent (Ask.run req env w) = Some r → status r = 200 →
  ∃ f t raw,
    Ask.upload req = Ok (Some f)
    ∧ Ask.transcribe env (path f) = Ok t
    ∧ truthy (or_else (Ask.question req) t) = true
    ∧ Ask.chat env (Ask.systemPrompt (context_of env (or_else (Ask.question req) t)))
        (or_else (Ask.question req) t) = Ok (Some raw)
    ∧ truthy raw = true
    ∧ r = answered raw t.
Proof.
  destruct (decide (Ask.method req = POST)) as [Hm|Hm]; cycle 1.
  { unfold Ask.run, Ask.askHandler. rewrite bool_decide_false by done.
    by intros [= <-]. }
  destruct (Ask.upload req) as [[f|]|e] eqn:Hu.
  - destruct (ask_configured_or_not env) as [Hk|Hk]; cycle 1.
    { rewrite (ask_keys_missing env req f w) by done. by intros [= <-]. }
    destruct (Ask.transcribe env (path f)) as [t|e] eqn:Ht; cycle 1.
    { rewrite (ask_transcription_fails env req f e w) by done. by intros [= <-]. }
    destruct (truthy (or_else (Ask.question req) t)) eqn:Hq; cycle 1.
    { unfold Ask.run, Ask.askHandler.
      rewrite Hm, bool_decide_true by done. cbn [negb].
      rewrite (read_question_file _ _ Hu).
      unfold Ask.transcribe_audio, runMiddleware. monad.
      rewrite Hu, (unset_keys env Hk), Ht. cbv beta iota.
      edestruct cleanup_run as (fs & pv & ->). cbv beta iota. rewrite Hq.
      by intros [= <-]. }
    rewrite (ask_pipeline env req f t w) by done.
    destruct (Ask.chat env (Ask.systemPrompt (context_of env (or_else (Ask.question req) t)))
                (or_else (Ask.question req) t)) as [[raw|]|e] eqn:Hc.
    + destruct (truthy raw) eqn:Hraw.
      * rewrite (generate_ok env _ _ t raw) by done. intros [= <-] _.
        by exists f, t, raw.
      * rewrite (generate_empty env _ _ t (Some raw)) by done. by intros [= <-].
    + rewrite (generate_empty env _ _ t None) by done. by intros [= <-].
    + rewrite (generate_raise env _ _ t e) by done. by intros [= <-].
  - destruct (bare_or_not req) as [[msg Hb]|Hb].
    + rewrite (ask_no_body env req msg w) by done. by intros [= <-].
    + rewrite (ask_no_audio env req w) by done. by intros [= <-].
  - unfold Ask.run, Ask.askHandler.
    rewrite Hm, bool_decide_true by done. cbn [negb].
    unfold runMiddleware. monad. rewrite Hu. cbv beta iota.
    rewrite cleanup_absent by done. cbv beta iota.
    destruct (bool_decide (code e = Some LIMIT_FILE_SIZE)); by intros [= <-].
Qed.

(** The text-to-speech handler answers 200 only with the audio ElevenLabs
    produced for the text of the request. *)
Lemma tts_ok_shape (req : Tts.Request) (env : Tts.Env) (w : World) (r : Response) :
  sent (Tts.run req env w) = Some r → status r = 200 →
  ∃ t audio,
    Tts.text req = Some (JStr t)
    ∧ Tts.textToSpeech env t = Ok audio
    ∧ r = {| status := 200; body := BBytes audio |}.
Proof.
  unfold Tts.run.
  destruct (speakable_or_not req)
    as [Hm|[(Hm & msg & Hb)|[(Hm & Hb & Ht)|[t Ht]]]].
  - unfold Tts.ttsHandler. rewrite bool_decide_false by done. by intros [= <-].
  - rewrite (tts_null _ _ msg) by done. by intros [= <-].
  - rewrite tts_refused by done. by intros [= <-].
  - destruct (unset (Tts.ELEVENLABS_API_KEY env)) eqn:Hk.
    + rewrite (tts_unconfigured env req t) by done. by intros [= <-].
    + destruct (tts_synthesis env req t w Ht Hk) as (o & pv & -> & _ & _). cbn.
      intros [= <-]. unfold spoken.
      destruct (Tts.textToSpeech env t) as [audio|e] eqn:Ha; [|done].
      destruct (Tts.writeFile env (Tts.temp_path env) audio); [|done].
      intros _. exists t, audio. destruct Ht as (_ & ? & _). by repeat split.
Qed.

End OkShape.

(** ** The page *)

Ltac page :=
  unfold Client.after, Client.handleDrop, Client.handleFileUpload,
    Client.onRecordingComplete, Client.handleTextToSpeech, Client.check_ok,
    Client.json, Browser.try_catch_finally, Browser.bind, Browser.fetch,
    Browser.await, Browser.throw, Browser.ret, Browser.play,
    Browser.setUploading, Browser.setAsking, Browser.setTtsLoading,
    Browser.setError, Browser.setUploadStatus, Browser.setTranscription,
    Browser.setAnswer, Browser.setScratchpad.

Arguments Client.handleTextToSpeech : simpl never.

Section PageFacts.

Import Browser.

Variable env : Client.Env.

(** The speech request, in one step. *)
Lemma speech_step a s :
  Client.handleTextToSpeech env a s
  = (Ok tt, if truthy_val a then Page.spoken_to env a s else s).
Proof.
  page. unfold Page.spoken_to, Page.checked.
  destruct (truthy_val a); [|done]. cbn.
  destruct (Client.network env _) as [response|e]; cbn; [|done].
  destruct (ok response); cbn.
  - by destruct (Client.audioRef_current env).
  - by destruct (Client.json_of env response).
Qed.

(** A recording, in one step. *)
Lemma recording_step blob s :
  Client.onRecordingComplete env blob s
  = (Ok tt,
     match Page.checked env (PostAsk (Client.header env) blob) with
     | Ok response =>
         match Client.json_of env response with
         | Ok result =>
             match json_get "answer" result with
             | Some a =>
                 if truthy_val a
                 then Page.spoken_to env a (Page.ask_shown env blob result s)
                 else Page.ask_shown env blob result s
             | None => Page.ask_shown env blob result s
             end
         | Raise e => Page.ask_failed env blob (message e) s
         end
     | Raise e => Page.ask_failed env blob (message e) s
     end).
Proof.
  unfold Client.onRecordingComplete, Browser.try_catch_finally.
  unfold Browser.bind at 1 2 3 4 5. cbn.
  unfold Page.checked, Client.check_ok, Client.json, Browser.bind, Browser.fetch,
    Browser.await, Browser.throw, Browser.ret. cbn.
  destruct (Client.network env _) as [response|e]; cbn; [|done].
  destruct (ok response); cbn.
  - destruct (Client.json_of env response) as [result|e]; cbn; [|done].
    destruct (json_get "answer" result) as [a|] eqn:Ea; cbn.
    + destruct (truthy_val a) eqn:Et; cbn.
      * rewrite speech_step, Et. unfold Page.spoken_to, Page.ask_shown.
        rewrite Ea. cbn. by rewrite Et.
      * unfold Page.ask_shown. rewrite Ea. cbn. by rewrite Et.
    + unfold Page.ask_shown. by rewrite Ea.
  - by destruct (Client.json_of env response).
Qed.

(** An upload, in one step. *)
Lemma upload_step file s :
  Client.handleFileUpload env (Some file) s = (Ok tt, Page.uploaded env file s).
Proof.
  page. unfold Page.uploaded, Page.checked. cbn.
  destruct (Client.network env _) as [response|e]; cbn; [|done].
  destruct (ok response); cbn; by destruct (Client.json_of env response).
Qed.

Lemma fails_checked rq msg :
  Page.fails_with env rq msg →
  ∃ e, Page.checked env rq = Raise e ∧ message e = msg.
Proof.
  unfold Page.fails_with, Page.checked, Client.json_of.
  intros [(e & -> & ->)|(response & -> & -> & Hf & Ht)]; [by exists e|].
  unfold field in Hf. destruct (body response) as [o| |]; [|done..].
  rewrite Hf. cbn. rewrite Ht. by eexists.
Qed.

Lemma succeeds_checked rq result :
  Page.succeeds_with env rq result →
  ∃ response, Page.checked env rq = Ok response
              ∧ Client.json_of env response = Ok result.
Proof.
  unfold Page.succeeds_with, Page.checked, Client.json_of.
  intros (response & -> & -> & Hb). exists response. by rewrite Hb.
Qed.

Lemma val_or_truthy v d : truthy d = true → truthy_val (val_or v d) = true.
Proof. intros Hd. destruct v as [x|]; cbn; [|done]. by destruct (truthy_val x) eqn:E. Qed.

End PageFacts.

(** X27: whatever the network does, an upload and a recording both settle
    without an uncaught error and with their loading flag down.  After an
    upload the page shows either a status line and no error, or the error
    "Upload failed: ..." and no status line.  After a recording it shows no
    error, or "Ask API failed: ..." with the three result fields empty and no
    speech requested, or "TTS API failed: ..." for the speech of the answer
    it shows. *)
Theorem page_settles (env : Client.Env) (s : Browser.State) :
  (∀ file,
     let s' := Client.after (Client.handleFileUpload env (Some file)) s in
     (Client.handleFileUpload env (Some file) s).1 = Ok tt
     ∧ Browser.uploading s' = false
     ∧ Browser.requests s'
       = Browser.requests s ++ [Browser.PostUpload (Client.header env) file]
     ∧ ((Browser.error s' = None
         ∧ Browser.truthy_val (Browser.uploadStatus s') = true)
        ∨ ((∃ m, Browser.error s' = Some (lit "Upload failed: " ++ m))
           ∧ Browser.uploadStatus s' = JStr [])))
  ∧ (∀ blob,
       let s' := Client.after (Client.onRecordingComplete env blob) s in
       (Client.onRecordingComplete env blob s).1 = Ok tt
       ∧ Browser.asking s' = false
       ∧ (Browser.ttsLoading s = false → Browser.ttsLoading s' = false)
       ∧ (Browser.error s' = None
          ∨ ((∃ m, Browser.error s' = Some (lit "Ask API failed: " ++ m))
             ∧ Browser.transcription s' = JStr []
             ∧ Browser.answer s' = JStr []
             ∧ Browser.scratchpad s' = JStr []
             ∧ Browser.requests s'
               = Browser.requests s ++ [Browser.PostAsk (Client.header env) blob])
          ∨ ((∃ m, Browser.error s' = Some (lit "TTS API failed: " ++ m))
             ∧ Browser.truthy_val (Browser.answer s') = true
             ∧ Browser.requests s'
               = Browser.requests s
                 ++ [Browser.PostAsk (Client.header env) blob;
                     Browser.PostTts (Client.header env) (Browser.answer s')]))).
Proof.
  split.
  - intros file s'. subst s'. unfold Client.after. rewrite upload_step. cbn.
    do 3 (split; [done|]).
    destruct (Page.checked env _) as [response|e]; [|right; split; [by eexists|done]].
    destruct (Client.json_of env response) as [result|e];
      [|right; split; [by eexists|done]].
    left. split; [done|]. by apply val_or_truthy.
  - intros blob s'. subst s'. unfold Client.after. rewrite recording_step. cbn.
    split; [done|].
    destruct (Page.checked env (Browser.PostAsk _ _)) as [response|e]; cycle 1.
    { cbn. do 2 (split; [done|]). right; left. split; [by eexists|done]. }
    destruct (Client.json_of env response) as [result|e]; cycle 1.
    { cbn. do 2 (split; [done|]). right; left. split; [by eexists|done]. }
    destruct (json_get "answer" result) as [a|] eqn:Ea; cycle 1.
    { cbn. do 2 (split; [done|]). by left. }
    destruct (Browser.truthy_val a) eqn:Et; cycle 1.
    { cbn. do 2 (split; [done|]). by left. }
    cbn. do 2 (split; [done|]). rewrite Ea. cbn. rewrite Et.
    destruct (Page.checked env (Browser.PostTts _ _)) as [response'|e]; [by left|].
    right; right. split; [by eexists|]. split; [done|].
    by rewrite <- (assoc_L (++)).
Qed.

(** X28: when the ask request fails, because the network rejects it or the
    server answers with an error status and [{ error: msg }], the page shows
    "Ask API failed: msg", shows no transcription, answer or scratchpad, does
    not request any speech and leaves the audio element as it was. *)
Theorem page_ask_failure (env : Client.Env) (blob : list N) (msg : jstring)
  (s : Browser.State) :
  Page.fails_with env (Browser.PostAsk (Client.header env) blob) msg →
  Client.after (Client.onRecordingComplete env blob) s
  = Page.ask_failed env blob msg s.
Proof.
  intros (e & He & <-)%fails_checked. unfold Client.after.
  by rewrite recording_step, He.
Qed.

(** The browser is offline. *)
Lemma page_ask_failure_witness :
  Browser.error (Client.after (Client.onRecordingComplete Visit.offline [1%N])
                   Browser.fresh)
  = Some (lit "Ask API failed: Failed to fetch").
Proof.
  rewrite (page_ask_failure Visit.offline [1%N] (lit "Failed to fetch") Browser.fresh);
    [done|].
  left. by exists (Error (lit "Failed to fetch")).
Defined.

(** X29: when the ask request is answered by an ok response with a JSON
    body, the page shows its transcription, answer and scratchpad, each
    replaced by a placeholder when missing or falsy.  It then requests the
    speech of the answer, exactly when the answer is truthy; a failure of
    that request shows "TTS API failed: ..." and leaves the three fields
    shown. *)
Theorem page_shows_results (env : Client.Env) (blob : list N) (result : Json)
  (s : Browser.State) :
  Page.succeeds_with env (Browser.PostAsk (Client.header env) blob) result →
  (∀ a, json_get "answer" result = Some a → Browser.truthy_val a = true →
     Client.after (Client.onRecordingComplete env blob) s
     = Page.spoken_to env a (Page.ask_shown env blob result s))
  ∧ ((∀ a, json_get "answer" result = Some a → Browser.truthy_val a = false) →
     Client.after (Client.onRecordingComplete env blob) s
     = Page.ask_shown env blob result s).
Proof.
  intros (response & Hc & Hj)%succeeds_checked. unfold Client.after.
  rewrite recording_step, Hc, Hj. cbn. split.
  - intros a -> Ht. by rewrite Ht.
  - intros Hno. destruct (json_get "answer" result) as [a|]; [|done].
    by rewrite (Hno a eq_refl).
Qed.

(** An answer comes back and is spoken; the empty scratchpad is replaced. *)
Lemma page_shows_results_witness :
  Browser.answer (Client.after (Client.onRecordingComplete Visit.canned [1%N])
                    Browser.fresh) = JStr (lit "Buy low.")
  ∧ Browser.scratchpad (Client.after (Client.onRecordingComplete Visit.canned [1%N])
                          Browser.fresh) = JStr (lit "No scratchpad available.")
  ∧ Browser.playing (Client.after (Client.onRecordingComplete Visit.canned [1%N])
                       Browser.fresh) = Some (BBytes [73%N; 68%N; 51%N]).
Proof.
  destruct (page_shows_results Visit.canned [1%N]
              [("answer", JStr (lit "Buy low.")); ("scratchpad", JStr []);
               ("transcription", JStr (lit "What now?"))] Browser.fresh) as [H _].
  - eexists. by repeat split.
  - by rewrite (H (JStr (lit "Buy low.")) eq_refl eq_refl).
Defined.

(** ** The page against the routes *)

Section StackFacts.

Lemma ask_responds req env w : ∃ r, sent (Ask.run req env w) = Some r.
Proof.
  unfold Ask.run.
  destruct (ask_every_path env req w) as (o & r & evs & fs & pv & -> & _).
  by exists r.
Qed.

Lemma upload_responds req env w : ∃ r, sent (Upload.run req env w) = Some r.
Proof.
  unfold Upload.run.
  destruct (upload_every_path env req w) as (o & r & ix & evs & fs & pv & -> & _).
  by exists r.
Qed.

Lemma tts_responds req env w : ∃ r, sent (Tts.run req env w) = Some r.
Proof.
  unfold Tts.run.
  destruct (speakable_or_not req)
    as [Hm|[(Hm & msg & Hb)|[(Hm & Hb & Ht)|[t Ht]]]].
  - unfold Tts.ttsHandler. rewrite bool_decide_false by done. by eexists.
  - rewrite (tts_null _ _ msg) by done. by eexists.
  - rewrite tts_refused by done. by eexists.
  - destruct (unset (Tts.ELEVENLABS_API_KEY env)) eqn:Hk.
    + rewrite (tts_unconfigured env req t) by done. by eexists.
    + destruct (tts_synthesis env req t w Ht Hk) as (o & pv & -> & _ & _).
      by eexists.
Qed.

Lemma speech_status env req w r :
  sent (Tts.run req env w) = Some r →
  status r = 200 ∨ status r = 400 ∨ status r = 405 ∨ status r = 500.
Proof.
  unfold Tts.run.
  destruct (speakable_or_not req)
    as [Hm|[(Hm & msg & Hb)|[(Hm & Hb & Ht)|[t Ht]]]].
  - unfold Tts.ttsHandler. rewrite bool_decide_false by done.
    intros [= <-]. auto.
  - rewrite (tts_null _ _ msg) by done. intros [= <-]. auto.
  - rewrite tts_refused by done. intros [= <-]. auto.
  - destruct (unset (Tts.ELEVENLABS_API_KEY env)) eqn:Hk.
    + rewrite (tts_unconfigured env req t) by done. intros [= <-]. auto.
    + destruct (tts_synthesis env req t w Ht Hk) as (o & pv & -> & _ & _).
      intros [= <-]. generalize (spoken_status env t).
      rewrite !elem_of_cons, elem_of_nil. tauto.
Qed.

(** Behind the key check a route answers whenever its handler does. *)
Lemma auth_responds handler provided expected w :
  (∃ r, sent (handler w).2 = Some r) →
  ∃ r, sent (Auth.run handler provided expected w) = Some r.
Proof.
  intros [r Hr]. unfold Auth.run, Auth.withApiKeyAuth, Auth.await.
  destruct (unset expected || unset provided
            || negb (bool_decide (provided = expected))); [by eexists|].
  monad. destruct (handler w) as [[[]| |e] w']; cbn in *; by eexists.
Qed.

(** The routes of the scenario answer every request of the page. *)
Lemma respond_serves srv rq :
  ∃ r, Visit.respond srv rq = Ok r ∧ Stack.serves srv rq r.
Proof.
  unfold Visit.respond. destruct rq as [key file|key audio|key text]; cbn.
  - match goal with |- context [sent (Auth.run ?h ?p ?e ?w)] =>
      destruct (auth_responds h p e w) as [r Hr]; [apply upload_responds|]
    end.
    exists r. rewrite Hr. split; [done|]. eexists _, _. split; [|split]; [| |exact Hr].
    + done.
    + by intros f [= <-].
  - match goal with |- context [sent (Auth.run ?h ?p ?e ?w)] =>
      destruct (auth_responds h p e w) as [r Hr]; [apply ask_responds|]
    end.
    exists r. rewrite Hr. split; [done|]. eexists _, _. by split; [|split]; [| |exact Hr].
  - match goal with |- context [sent (Auth.run ?h ?p ?e ?w)] =>
      destruct (auth_responds h p e w) as [r Hr]; [apply tts_responds|]
    end.
    exists r. rewrite Hr. split; [done|]. by eexists.
Qed.

Lemma browser_wired key : Stack.wired Visit.server (Visit.browser key).
Proof. intros rq. apply respond_serves. Qed.

(** With the wrong key, every request of the page fails with "Unauthorized". *)
Lemma wrong_key_fails srv env rq :
  Stack.wired srv env →
  (∃ file, rq = Browser.PostUpload (Client.header env) file)
  ∨ (∃ blob, rq = Browser.PostAsk (Client.header env) blob)
  ∨ (∃ a, rq = Browser.PostTts (Client.header env) a) →
  unset (Stack.INTERNAL_API_KEY srv) = true
  ∨ Some (Client.header env) ≠ Stack.INTERNAL_API_KEY srv →
  Page.fails_with env rq (lit "Unauthorized").
Proof.
  intros Hw Hrq Hkey. destruct (Hw rq) as (r & Hn & Hs).
  assert (∀ h w, sent (Auth.run h (Some (Client.header env))
                         (Stack.INTERNAL_API_KEY srv) w)
                 = Some (error_only 401 (lit "Unauthorized"))) as H401.
  { intros h w. rewrite auth_refused; [done|]. destruct Hkey; auto. }
  assert (r = error_only 401 (lit "Unauthorized")) as ->.
  { destruct Hrq as [[file ->]|[[blob ->]|[a ->]]]; cbn in Hs.
    - destruct Hs as (req & w & _ & _ & Hs). rewrite H401 in Hs. by injection Hs.
    - destruct Hs as (req & w & _ & _ & Hs). rewrite H401 in Hs. by injection Hs.
    - destruct Hs as (w & Hs). rewrite H401 in Hs. by injection Hs. }
  right. eexists. by repeat split.
Qed.

Lemma checked_cases env rq r :
  Client.network env rq = Ok r →
  (Browser.ok r = true ∧ Page.checked env rq = Ok r)
  ∨ (Browser.ok r = false ∧ ∃ e, Page.checked env rq = Raise e).
Proof.
  intros Hn. unfold Page.checked. rewrite Hn.
  destruct (Browser.ok r); [by left|]. right. split; [done|].
  destruct (Client.json_of env r); by eexists.
Qed.

(** An ok response of a route has status 200. *)
Lemma ok_status r :
  status r ∈ [200; 400; 405; 500] → Browser.ok r = true → status r = 200.
Proof.
  unfold Browser.ok. rewrite !elem_of_cons, elem_of_nil.
  intros [->|[->|[->|[->|[]]]]]; done.
Qed.

End StackFacts.

(** X30: the page against the three routes.  When the page's key is not the
    server's (or the server has none), a recording ends with "Ask API
    failed: Unauthorized" and nothing else shown.  With the right key, when
    the page reports no error after a recording, it shows Whisper's
    transcription of some stored audio, which is not empty, the scratchpad
    and the answer parsed from what the chat model said about that
    transcription, and what it plays is what ElevenLabs produced for exactly
    the answer shown; an empty answer is shown as "Could not retrieve an
    answer." and nothing is played for it. *)
Theorem page_against_server (srv : Stack.Server) (env : Client.Env)
  (blob : list N) (s : Browser.State) :
  Stack.wired srv env →
  let s' := Client.after (Client.onRecordingComplete env blob) s in
  (unset (Stack.INTERNAL_API_KEY srv) = true
   ∨ Some (Client.header env) ≠ Stack.INTERNAL_API_KEY srv →
   s' = Page.ask_failed env blob (lit "Unauthorized") s)
  ∧ (Stack.INTERNAL_API_KEY srv = Some (Client.header env) →
     truthy (Client.header env) = true →
     Browser.error s' = None →
     ∃ p t raw,
       Ask.transcribe (Stack.ask_env srv) p = Ok t
       ∧ truthy t = true
       ∧ Ask.chat (Stack.ask_env srv)
           (Ask.systemPrompt (context_of (Stack.ask_env srv) t)) t = Ok (Some raw)
       ∧ Browser.transcription s' = JStr t
       ∧ Browser.scratchpad s' = JStr (Parser.scratchpad (parse raw))
       ∧ (truthy (Parser.answer (parse raw)) = true →
          Browser.answer s' = JStr (Parser.answer (parse raw))
          ∧ ∃ audio,
              Tts.textToSpeech (Stack.tts_env srv) (Parser.answer (parse raw))
              = Ok audio
              ∧ (Client.audioRef_current env = true →
                 Browser.playing s' = Some (BBytes audio)))
       ∧ (truthy (Parser.answer (parse raw)) = false →
          Browser.answer s' = JStr (lit "Could not retrieve an answer.")
          ∧ Browser.playing s' = Browser.playing s
          ∧ Browser.requests s'
            = Browser.requests s ++ [Browser.PostAsk (Client.header env) blob])).
Proof.
  intros Hw s'. subst s'. split.
  - intros Hkey.
    destruct (fails_checked env _ _
                (wrong_key_fails srv env
                   (Browser.PostAsk (Client.header env) blob) Hw
                   (or_intror (or_introl (ex_intro _ blob eq_refl))) Hkey))
      as (e & He & Hm).
    unfold Client.after. by rewrite recording_step, He, Hm.
  - intros Hkey Hk. unfold Client.after. rewrite recording_step. cbn.
    destruct (Hw (Browser.PostAsk (Client.header env) blob))
      as (r & Hn & req & w & Hm & Hq & Hs).
    rewrite Hkey, auth_transparent in Hs; [|done|]; cycle 1.
    { destruct (ask_every_path (Stack.ask_env srv) req w)
        as (o & r' & evs & fs & pv & -> & Ho & _). apply Ho. }
    destruct (checked_cases env _ r Hn) as [[Hok ->]|[_ [e ->]]]; [|done].
    assert (status r = 200) as H200.
    { apply ok_status; [|done]. unfold Ask.run in Hs.
      destruct (ask_every_path (Stack.ask_env srv) req w)
        as (o & r' & evs & fs & pv & E & _ & Hst & _).
      rewrite E in Hs. by injection Hs as <-. }
    destruct (ask_ok_shape req (Stack.ask_env srv) w r Hs H200)
      as (f & t & raw & _ & Ht & Htt & Hc & _ & ->).
    rewrite Hq in Htt, Hc. cbn [or_else] in Htt, Hc.
    pose proof (scratchpad_truthy raw) as Hsp. cbn.
    destruct (truthy (Parser.answer (parse raw))) eqn:Ha; cbn.
    + intros Herr. exists (path f), t, raw. rewrite Htt, Hsp, Ha.
      do 5 (split; [done|]). split; [|done]. intros _. split; [done|].
      destruct (Hw (Browser.PostTts (Client.header env)
                      (JStr (Parser.answer (parse raw)))))
        as (r' & Hn' & w' & Hs').
      rewrite Hkey, auth_transparent in Hs';
        [|done|intros e; apply tts_no_throw].
      revert Herr.
      destruct (checked_cases env _ r' Hn') as [[Hok' ->]|[_ [e ->]]]; [|done].
      intros _.
      assert (status r' = 200) as H200'.
      { apply ok_status; [|done].
        generalize (speech_status (Stack.tts_env srv) _ w' r' Hs').
        rewrite !elem_of_cons. tauto. }
      destruct (tts_ok_shape _ _ _ _ Hs' H200') as (t' & audio & [= <-] & Hau & ->).
      exists audio. split; [done|]. by intros ->.
    + intros _. exists (path f), t, raw. rewrite Htt, Hsp, Ha.
      do 5 (split; [done|]). by split.
Qed.

(** A page built without the key; a page built with it. *)
Lemma page_against_server_witness :
  Browser.error (Client.after (Client.onRecordingComplete (Visit.browser None) [1%N])
                   Browser.fresh)
  = Some (lit "Ask API failed: Unauthorized")
  ∧ Browser.error (Client.after
                     (Client.onRecordingComplete (Visit.browser Scenario.key) [1%N])
                     Browser.fresh) = None.
Proof.
  split.
  - destruct (page_against_server Visit.server (Visit.browser None) [1%N]
                Browser.fresh (browser_wired None)) as [H _].
    rewrite H; [done|]. right. by vm_compute.
  - by vm_compute.
Defined.
